(** * Web content extraction and chunking: a shallow embedding

    The pure parts of [utility_functions.py] (the chunk splitter) and of
    [web_client.py] (filename derivation, content classification, HTML
    cleaning and whitespace normalisation) as Rocq functions, followed by
    the properties proved about them. *)

From Stdlib Require Import String Ascii List ZArith Lia Bool Arith PeanoNat.
Import ListNotations.

Set Implicit Arguments.

(** ** Python values

    A Python [str] is modelled as the list of its characters; a character
    is a code point below U+0100, so that [str.isspace], [str.splitlines]
    and [str.lower] can be written out exactly.  Python integers are [Z]. *)

Module Py.

Definition str := list ascii.

(** String literals. *)
Definition s (x : string) : str := list_ascii_of_string x.

Definition code (c : ascii) : N := N_of_ascii c.

Definition str_eqb (a b : str) : bool :=
  if list_eq_dec ascii_dec a b then true else false.

Definition len {A} (l : list A) : Z := Z.of_nat (length l).

(** [c.isspace()]: TAB, LF, VT, FF, CR, FS, GS, RS, US, SPACE, NEL, NBSP. *)
Definition isspace (c : ascii) : bool :=
  existsb (N.eqb (code c)) [9; 10; 11; 12; 13; 28; 29; 30; 31; 32; 133; 160]%N.

(** The line boundaries of [str.splitlines]: LF, VT, FF, CR, FS, GS, RS, NEL. *)
Definition islinebreak (c : ascii) : bool :=
  existsb (N.eqb (code c)) [10; 11; 12; 13; 28; 29; 30; 133]%N.

Definition isupper_ascii (c : ascii) : bool := ((65 <=? code c) && (code c <=? 90))%N.
Definition islower_ascii (c : ascii) : bool := ((97 <=? code c) && (code c <=? 122))%N.
Definition isdigit (c : ascii) : bool := ((48 <=? code c) && (code c <=? 57))%N.

(** [c.lower()] below U+0100: A-Z and the upper-case letters U+00C0..U+00DE
    (the multiplication sign U+00D7 is no letter) move up by 32. *)
Definition lower_char (c : ascii) : ascii :=
  let n := code c in
  if isupper_ascii c then ascii_of_N (n + 32)
  else if ((192 <=? n) && (n <=? 222) && negb (n =? 215))%N then ascii_of_N (n + 32)
  else c.

Definition lower (x : str) : str := map lower_char x.

(** [sep.join(parts)] *)
Fixpoint join (sep : str) (parts : list str) : str :=
  match parts with
  | [] => []
  | [p] => p
  | p :: rest => p ++ sep ++ join sep rest
  end.

(** [x.split()]: maximal runs of non-whitespace characters.  [cur] holds
    the word being scanned, last character first. *)
Fixpoint split_go (cur : str) (x : str) : list str :=
  match x with
  | [] => match cur with [] => [] | _ => [rev cur] end
  | c :: x' =>
      if isspace c then
        match cur with
        | [] => split_go [] x'
        | _ => rev cur :: split_go [] x'
        end
      else split_go (c :: cur) x'
  end.

Definition split (x : str) : list str := split_go [] x.

(** [x.startswith(p)] *)
Fixpoint startswith (x p : str) {struct p} : bool :=
  match p, x with
  | [], _ => true
  | _ :: _, [] => false
  | a :: p', b :: x' => Ascii.eqb a b && startswith x' p'
  end.

Definition endswith (x p : str) : bool := startswith (rev x) (rev p).

(** [p in x] for strings. *)
Fixpoint contains (p x : str) : bool :=
  startswith x p || match x with [] => false | _ :: x' => contains p x' end.

(** [x.split(sep)] for a non-empty separator: cut at every occurrence of
    [sep], scanning from the left; [skip] counts the characters of a
    separator that is being consumed. *)
Definition push (c : ascii) (ps : list str) : list str :=
  match ps with
  | [] => [[c]]
  | p :: ps' => (c :: p) :: ps'
  end.

Fixpoint split_sep_go (sep : str) (skip : nat) (x : str) : list str :=
  match x with
  | [] => [[]]
  | c :: x' =>
      match skip with
      | S k => split_sep_go sep k x'
      | O => if startswith x sep
             then [] :: split_sep_go sep (length sep - 1) x'
             else push c (split_sep_go sep 0 x')
      end
  end.

Definition split_sep (x sep : str) : list str := split_sep_go sep 0 x.

(** [x.replace(old, new)] for a non-empty [old]. *)
Fixpoint replace_go (old new : str) (skip : nat) (x : str) : str :=
  match x with
  | [] => []
  | c :: x' =>
      match skip with
      | S k => replace_go old new k x'
      | O => if startswith x old
             then new ++ replace_go old new (length old - 1) x'
             else c :: replace_go old new 0 x'
      end
  end.

Definition replace (x old new : str) : str := replace_go old new 0 x.

(** [x.lstrip(chars)], [x.rstrip(chars)], [x.strip(chars)] with the set of
    characters given as a predicate; [strip] is [x.strip()]. *)
Fixpoint lstrip_by (f : ascii -> bool) (x : str) : str :=
  match x with
  | [] => []
  | c :: x' => if f c then lstrip_by f x' else x
  end.

Definition rstrip_by (f : ascii -> bool) (x : str) : str :=
  rev (lstrip_by f (rev x)).

Definition strip_by (f : ascii -> bool) (x : str) : str :=
  rstrip_by f (lstrip_by f x).

Definition strip (x : str) : str := strip_by isspace x.

Definition inset (chars : str) (c : ascii) : bool :=
  existsb (Ascii.eqb c) chars.

Definition strip_chars (x chars : str) : str := strip_by (inset chars) x.

(** [x.splitlines()]: [cur] is the line being scanned, last character
    first; [cr] records that the previous character was a CR, so that a
    following LF belongs to the same line boundary.  A last line without
    characters is not a line. *)
Fixpoint splitlines_go (cur : str) (cr : bool) (x : str) : list str :=
  match x with
  | [] => match cur with [] => [] | _ => [rev cur] end
  | c :: x' =>
      if cr && (code c =? 10)%N then splitlines_go cur false x'
      else if islinebreak c then rev cur :: splitlines_go [] (code c =? 13)%N x'
      else splitlines_go (c :: cur) false x'
  end.

Definition splitlines (x : str) : list str := splitlines_go [] false x.

(** [l[a:b]] with Python's treatment of negative and out-of-range bounds. *)
Definition clamp (n i : Z) : Z :=
  let j := if (i <? 0)%Z then (i + n)%Z else i in
  Z.max 0 (Z.min n j).

Definition slice {A} (l : list A) (a b : Z) : list A :=
  let n := len l in
  let a' := clamp n a in
  let b' := clamp n b in
  firstn (Z.to_nat (b' - a')) (skipn (Z.to_nat a') l).

(** [x[-k:]] for a positive [k]. *)
Definition last_chars (k : nat) (x : str) : str := skipn (length x - k) x.

(** [range(n)] *)
Definition range (n : Z) : list Z := map Z.of_nat (seq 0 (Z.to_nat n)).

(** Exceptions that the modelled code can raise. *)
Inductive exn := ZeroDivisionError | ValueError.

Inductive res (A : Type) :=
| Ok (a : A)
| Raise (e : exn).
Arguments Ok {A} a.
Arguments Raise {A} e.

(** [a // b] and [a % b]; Rocq's [Z.div] and [Z.modulo] round like
    Python's, and Python raises where Rocq would return 0. *)
Definition floordiv (a b : Z) : res Z :=
  if (b =? 0)%Z then Raise ZeroDivisionError else Ok (a / b)%Z.

Definition mod_ (a b : Z) : res Z :=
  if (b =? 0)%Z then Raise ZeroDivisionError else Ok (a mod b)%Z.

Definition bind {A B} (m : res A) (k : A -> res B) : res B :=
  match m with
  | Ok a => k a
  | Raise e => Raise e
  end.

End Py.

Notation "x <- m ;; k" := (Py.bind m (fun x => k))
  (at level 61, m at next level, right associativity).

(** ** utility_functions.py: the chunk splitter *)

Section Chunks.
Import Py.
Open Scope Z_scope.

(** The loop state: [content_chunks] and [word_index]. *)
Definition chunk_state := (list str * Z)%type.

(** One iteration of [for i in range(num_messages)]. *)
Definition chunk_step (words : list str) (words_per_message extra_words : Z)
    (st : chunk_state) (i : Z) : chunk_state :=
  let '(content_chunks, word_index) := st in
  let words_in_this_message :=
    if i <? extra_words then words_per_message + 1 else words_per_message in
  let message_words := slice words word_index (word_index + words_in_this_message) in
  let message_text := join (s " ") message_words in
  (content_chunks ++ [message_text], word_index + words_in_this_message).

Definition split_content_to_chunks (content : str) (max_message_size : Z)
    : res (list str) :=
  num_messages <- floordiv (len content + max_message_size - 1) max_message_size ;;
  let words := split content in
  let total_words := len words in
  words_per_message <- floordiv total_words num_messages ;;
  extra_words <- mod_ total_words num_messages ;;
  Ok (fst (fold_left (chunk_step words words_per_message extra_words)
                     (range num_messages) ([], 0))).

End Chunks.

(** ** web_client.py: whitespace clean-up of the extracted text

    The three lines of [get_webpage_text] under "Clean up whitespace":
    [lines], [chunks] and the final join. *)

Section CleanUpWhitespace.
Import Py.

Definition nonempty (x : str) : bool :=
  match x with [] => false | _ :: _ => true end.

Definition clean_up_whitespace (text : str) : str :=
  let lines := map strip (splitlines text) in
  let chunks :=
    flat_map (fun line => map strip (split_sep line (s "  "))) lines in
  join (s " ") (filter nonempty chunks).

End CleanUpWhitespace.

(** ** urllib.parse.urlparse

    The library function that [web_client.py] calls on every URL: the six
    components of a URL, as CPython's [urlsplit] and [urlparse] compute
    them for a [str], and the [ValueError] that [urlsplit] raises for a
    network location with a malformed bracketed host. *)

Module Url.
Import Py.

Record ParseResult := {
  scheme : str;
  netloc : str;
  path : str;
  params : str;
  query : str;
  fragment : str
}.

(** [x[:i], x[i:]] for the first index [i] whose character satisfies [f],
    and [x, ""] when there is none. *)
Fixpoint span_until (f : ascii -> bool) (x : str) : str * str :=
  match x with
  | [] => ([], [])
  | c :: x' =>
      if f c then ([], x)
      else let '(a, b) := span_until f x' in (c :: a, b)
  end.

Definition is_char (c : ascii) : ascii -> bool := Ascii.eqb c.

Definition scheme_chars : str :=
  s "abcdefghijklmnopqrstuvwxyzABCDEFGHIJKLMNOPQRSTUVWXYZ0123456789+-.".

Definition uses_params : list str :=
  map s ["ftp"; "hdl"; "prospero"; "http"; "imap"; "https"; "shttp";
         "rtsp"; "rtsps"; "rtspu"; "sip"; "sips"; "mms"; "sftp"; "tel"]%string
  ++ [[]].

(** The C0 control characters and the space, stripped at the left. *)
Definition c0_control_or_space (c : ascii) : bool := (code c <=? 32)%N.

(** TAB, LF and CR, removed wherever they occur. *)
Definition unsafe_to_remove (c : ascii) : bool :=
  existsb (N.eqb (code c)) [9; 10; 13]%N.

(** [scheme, url = url[:i].lower(), url[i+1:]] when the text before the
    first colon is a scheme. *)
Definition split_scheme (url : str) : str * str :=
  match span_until (is_char ":") url with
  | (c :: pre, _ :: rest) =>
      if (isupper_ascii c || islower_ascii c)
         && forallb (inset scheme_chars) (c :: pre)
      then (lower (c :: pre), rest)
      else ([], url)
  | _ => ([], url)
  end.

(** [_splitnetloc(url, 2)] when [url[:2] == '//']. *)
Definition split_netloc (url : str) : str * str :=
  if startswith url (s "//")
  then span_until (inset (s "/?#")) (skipn 2 url)
  else ([], url).

(** [url.split(c, 1)] into the part before the first [c] and the part
    after it. *)
Definition split_first (c : ascii) (url : str) : str * str :=
  let '(a, b) := span_until (is_char c) url in (a, tl b).

(** [_splitparams]: the parameters start at the first semicolon of the
    last path segment. *)
Definition splitparams (url : str) : str * str :=
  let '(rsegment, rdir) := span_until (is_char "/") (rev url) in
  let '(seg, par) := span_until (is_char ";") (rev rsegment) in
  (rev rdir ++ seg, tl par).

Section Parse.

(** What the library makes of a network location that has both an
    opening and a closing square bracket: [true] when it accepts the
    location.  Older versions of the library accept every such location,
    later ones validate the bracketed host with the [ipaddress] module;
    the check is a parameter. *)
Variable bracketed_netloc_ok : str -> bool.

(** The checks of [urlsplit] on the network location: one square bracket
    without the other is an error, and so is a pair that the library does
    not accept.  ([_checknetloc] raises for a location whose NFKC
    normalization brings in one of [/?#@:], which no character below
    U+0100 does.) *)
Definition netloc_ok (netloc : str) : bool :=
  let opening := inset netloc "[" in
  let closing := inset netloc "]" in
  if opening && closing then bracketed_netloc_ok netloc
  else negb (opening || closing).

Definition urlparse (url : str) : res ParseResult :=
  let url := lstrip_by c0_control_or_space url in
  let url := filter (fun c => negb (unsafe_to_remove c)) url in
  let '(scheme, url) := split_scheme url in
  let '(netloc, url) := split_netloc url in
  if negb (netloc_ok netloc) then Raise ValueError else
  let '(url, fragment) := split_first "#" url in
  let '(url, query) := split_first "?" url in
  let '(url, params) :=
    if existsb (str_eqb scheme) uses_params then splitparams url
    else (url, []) in
  Ok {| scheme := scheme; netloc := netloc; path := url;
        params := params; query := query; fragment := fragment |}.

End Parse.

End Url.

(** ** web_client.py: file names and extensions *)

Section FileNames.
Import Py Url.

(** The parameter of [urlparse]. *)
Variable bracketed_netloc_ok : str -> bool.

(** [re.sub('[...]', repl, x)] for a character class. *)
Definition re_sub_class (class : str) (repl : str) (x : str) : str :=
  flat_map (fun c => if inset class c then repl else [c]) x.

(** The character class of [_get_filename_from_url]: less-than,
    greater-than, colon, double quote, bar, question mark, asterisk. *)
Definition invalid_chars : str :=
  ["<"; ">"; ":"; "034"; "|"; "?"; "*"]%char.

Definition _get_filename_from_url (url extension : str) : res str :=
  parsed <- urlparse bracketed_netloc_ok url ;;
  let filename :=
    replace (replace (replace (replace (netloc parsed ++ path parsed)
      (s "/") (s "_")) (s "\") (s "_")) (s ".") (s "_")) (s "+") (s "_") in
  let filename := re_sub_class invalid_chars (s "_") filename in
  let filename := strip_chars filename (s ". ") in
  let filename := if nonempty filename then filename else s "webpage" in
  Ok (last_chars 16 filename ++ s "." ++ extension).

Definition isalnum_ascii (c : ascii) : bool :=
  islower_ascii c || isupper_ascii c || isdigit c.

(** [re.match('^[a-zA-Z0-9]{1,5}$', x)]: one to five letters or digits,
    and [$] also matches before a line feed that ends the text. *)
Definition match_extension (x : str) : bool :=
  let body := if endswith x ["010"%char] then removelast x else x in
  nonempty body && (length body <=? 5)%nat && forallb isalnum_ascii body.

(** The [if]/[elif] chain of [get_webpage_file] over the content type. *)
Definition content_type_table : list (list str * str) :=
  map (fun '(keys, ext) => (map s keys, s ext))
  [ (["application/pdf"], "pdf");
    (["image/jpeg"; "image/jpg"], "jpg");
    (["image/png"], "png");
    (["image/gif"], "gif");
    (["image/webp"], "webp");
    (["image/svg"], "svg");
    (["application/msword"], "doc");
    (["application/vnd.openxmlformats-officedocument.wordprocessingml.document"], "docx");
    (["application/vnd.ms-excel"], "xls");
    (["application/vnd.openxmlformats-officedocument.spreadsheetml.sheet"], "xlsx");
    (["application/vnd.ms-powerpoint"], "ppt");
    (["application/vnd.openxmlformats-officedocument.presentationml.presentation"], "pptx");
    (["text/plain"], "txt");
    (["text/csv"], "csv");
    (["application/json"], "json");
    (["application/xml"; "text/xml"], "xml");
    (["application/zip"], "zip");
    (["application/x-rar"], "rar");
    (["application/x-7z-compressed"], "7z");
    (["video/mp4"], "mp4");
    (["video/avi"], "avi");
    (["audio/mpeg"], "mp3");
    (["audio/wav"], "wav") ]%string.

Fixpoint extension_of_content_type (table : list (list str * str))
    (content_type : str) : str :=
  match table with
  | [] => s "bin"
  | (keys, ext) :: table' =>
      if existsb (fun k => contains k content_type) keys then ext
      else extension_of_content_type table' content_type
  end.

(** The extension that the non-HTML branch of [get_webpage_file] settles
    on, from the lower-cased content type and the URL.  The URL is parsed
    only when the content type has given no extension. *)
Definition file_extension (content_type url : str) : res str :=
  let extension := extension_of_content_type content_type_table content_type in
  if str_eqb extension (s "bin") then
    parsed_url <- urlparse bracketed_netloc_ok url ;;
    let url_path := path parsed_url in
    if contains (s ".") url_path then
      let url_extension := lower (last (split_sep url_path (s ".")) []) in
      if match_extension url_extension then Ok url_extension else Ok extension
    else Ok extension
  else Ok extension.

Definition is_html (content_type : str) : bool :=
  contains (s "text/html") content_type
  || contains (s "application/xhtml") content_type.

(** The name of the file that [get_webpage_file] writes; the
    [ValueError] of [urlparse] is none of the exceptions that the method
    catches. *)
Definition get_webpage_file_name (content_type url : str) : res str :=
  if is_html content_type then
    let url := if endswith url (s ".html")
               then replace url (s ".html") [] else url in
    _get_filename_from_url url (s "html")
  else
    extension <- file_extension content_type url ;;
    let url := if endswith url (s "." ++ extension)
               then replace url (s "." ++ extension) [] else url in
    _get_filename_from_url url extension.

End FileNames.

(** ** BeautifulSoup trees

    The parse tree that [web_client.py] cleans in place.  A tag carries
    the identity of its Python object ([uid]), so that an element found by
    a search can be named after the tree has changed; [decompose] is
    deletion of the subtree with that identity.  Tag and attribute names
    are as [html.parser] produces them: lower-case, [class] a list of
    class names, every other attribute a string. *)

Module Bs4.
Import Py.

Inductive attr_value :=
| AStr (v : str)
| AList (vs : list str).

#[warnings="-register-all"]
Inductive node :=
| Tag (uid : nat) (name : str) (attrs : list (str * attr_value))
      (contents : list node)
| NavigableString (text : str)
| Comment (text : str).

Definition is_tag (n : node) : bool :=
  match n with Tag _ _ _ _ => true | _ => false end.

Definition has_uid (u : nat) (n : node) : bool :=
  match n with Tag i _ _ _ => Nat.eqb i u | _ => false end.

Definition tag_name (n : node) : str :=
  match n with Tag _ nm _ _ => nm | _ => [] end.

Definition tag_attrs (n : node) : list (str * attr_value) :=
  match n with Tag _ _ at_ _ => at_ | _ => [] end.

Definition contents (n : node) : list node :=
  match n with Tag _ _ _ cs => cs | _ => [] end.

(** [find_map f l]: the first result that [f] gives on [l]. *)
Fixpoint find_map {A B} (f : A -> option B) (l : list A) : option B :=
  match l with
  | [] => None
  | a :: l' => match f a with Some b => Some b | None => find_map f l' end
  end.

(** [n.descendants]: the nodes below [n] in document order. *)
Fixpoint descendants (n : node) : list node :=
  match n with
  | Tag _ _ _ cs => flat_map (fun c => c :: descendants c) cs
  | _ => []
  end.

(** [n.find_all()]: the tags below [n] in document order. *)
Definition tags (n : node) : list node := filter is_tag (descendants n).

Fixpoint uids_of (l : list node) : list nat :=
  match l with
  | [] => []
  | Tag i _ _ _ :: l' => i :: uids_of l'
  | _ :: l' => uids_of l'
  end.

(** The identities of the tags below [n]. *)
Definition uids (n : node) : list nat := uids_of (descendants n).

(** The identities of [n] and of the tags below it. *)
Definition all_uids (n : node) : list nat := uids_of (n :: descendants n).

Definition count_tags (n : node) : nat := length (uids n).

(** The element with identity [u], in [n] or below it. *)
Fixpoint subtree (u : nat) (n : node) : option node :=
  match n with
  | Tag i _ _ cs => if Nat.eqb i u then Some n else find_map (subtree u) cs
  | _ => None
  end.

(** [u] names an element that is still in the tree below the root. *)
Definition attached (u : nat) (soup : node) : bool :=
  existsb (Nat.eqb u) (uids soup).

(** [element.decompose()]: the tree without the element [u] and what is
    below it. *)
Fixpoint decompose (u : nat) (n : node) : node :=
  match n with
  | Tag i nm at_ cs =>
      Tag i nm at_ (filter (fun c => negb (has_uid u c)) (map (decompose u) cs))
  | _ => n
  end.

(** [for element in found: element.decompose()] *)
Definition decompose_each (found : list node) (soup : node) : node :=
  fold_left (fun t e => decompose e t) (uids_of found) soup.

Definition first_tag (l : list node) : option nat :=
  match uids_of l with
  | [] => None
  | i :: _ => Some i
  end.

(** The nodes of [l] after the element [u]. *)
Fixpoint after (u : nat) (l : list node) : option (list node) :=
  match l with
  | [] => None
  | c :: l' => if has_uid u c then Some l' else after u l'
  end.

(** [element.next_siblings] *)
Fixpoint next_siblings (u : nat) (n : node) : option (list node) :=
  match n with
  | Tag _ _ _ cs =>
      match after u cs with
      | Some r => Some r
      | None => find_map (next_siblings u) cs
      end
  | _ => None
  end.

(** [element.find_next_sibling()]: the next sibling that is a tag. *)
Definition find_next_sibling (u : nat) (soup : node) : option nat :=
  match next_siblings u soup with
  | Some r => first_tag r
  | None => None
  end.

(** [element.find_next()]: the next tag in document order, which is the
    first tag below the element when there is one. *)
Definition find_next (u : nat) (soup : node) : option nat :=
  match after u (descendants soup) with
  | Some r => first_tag r
  | None => None
  end.

(** [element.find()]: the first tag below the element. *)
Definition find_first (n : node) : option nat := first_tag (descendants n).

(** [element.get(key)] *)
Fixpoint get (key : str) (at_ : list (str * attr_value)) : option attr_value :=
  match at_ with
  | [] => None
  | (k, v) :: at' => if str_eqb k key then Some v else get key at'
  end.

(** How an attribute value reads as one string: [' '.join(value)]. *)
Definition joined (v : attr_value) : str :=
  match v with
  | AStr x => join (s " ") (map (fun c => [c]) x)
  | AList vs => join (s " ") vs
  end.

(** The value as CSS selectors and attribute searches see it. *)
Definition attr_string (v : attr_value) : str :=
  match v with
  | AStr x => x
  | AList vs => join (s " ") vs
  end.

(** [find_all(attrs={key: value})]: the value itself, one item of a list
    value, or the list joined by spaces. *)
Definition attr_is (key value : str) (n : node) : bool :=
  match get key (tag_attrs n) with
  | Some (AStr x) => str_eqb x value
  | Some (AList vs) =>
      existsb (fun x => str_eqb x value) vs || str_eqb (join (s " ") vs) value
  | None => false
  end.

(** [find_all(attrs={key: True})] *)
Definition has_attr (key : str) (n : node) : bool :=
  match get key (tag_attrs n) with Some _ => true | None => false end.

Definition name_in (names : list str) (n : node) : bool :=
  is_tag n && existsb (str_eqb (tag_name n)) names.

(** [soup.find_all(test)]: the tags below the root that pass [test]. *)
Definition find_all (test : node -> bool) (soup : node) : list node :=
  filter test (tags soup).

Definition find (test : node -> bool) (soup : node) : option node :=
  hd_error (find_all test soup).

(** The simple CSS selectors of [web_client.py].  The value of
    [[key="value"]] is matched against [^value$], which a line feed after
    the value passes as well. *)
Inductive selector :=
| SelTag (name : str)                (* nav *)
| SelAttr (key value : str)          (* [role="navigation"] *)
| SelAttrContains (key value : str)  (* [class*="title"] *)
| SelClass (name : str)              (* .sidebar *)
| SelId (name : str).                (* #sidebar *)

Definition classes (n : node) : list str :=
  match get (s "class") (tag_attrs n) with
  | Some (AList vs) => vs
  | Some (AStr x) => split x
  | None => []
  end.

Definition matches (sel : selector) (n : node) : bool :=
  match sel with
  | SelTag nm => str_eqb (tag_name n) nm
  | SelAttr k v =>
      match get k (tag_attrs n) with
      | Some x => str_eqb (attr_string x) v
                  || str_eqb (attr_string x) (v ++ ["010"%char])
      | None => false
      end
  | SelAttrContains k v =>
      match get k (tag_attrs n) with
      | Some x => contains v (attr_string x)
      | None => false
      end
  | SelClass c => existsb (str_eqb c) (classes n)
  | SelId i =>
      match get (s "id") (tag_attrs n) with
      | Some x => str_eqb (attr_string x) i
      | None => false
      end
  end.

(** [soup.select(selector)] and [soup.select_one(selector)] *)
Definition select (sel : selector) (soup : node) : list node :=
  find_all (matches sel) soup.

Definition select_one (sel : selector) (soup : node) : option node :=
  hd_error (select sel soup).

(** The strings that [get_text] collects: the text nodes, not the
    comments. *)
Fixpoint strings_of (l : list node) : list str :=
  match l with
  | [] => []
  | NavigableString x :: l' => x :: strings_of l'
  | _ :: l' => strings_of l'
  end.

(** [n.get_text()] and [n.get_text(strip=True)] *)
Definition get_text (n : node) : str := concat (strings_of (descendants n)).

Definition get_text_strip (n : node) : str :=
  concat (filter nonempty (map strip (strings_of (descendants n)))).

(** [comment.extract()] for every comment below [n]. *)
Fixpoint extract_comments (n : node) : node :=
  match n with
  | Tag i nm at_ cs =>
      Tag i nm at_
        (filter (fun c => match c with Comment _ => false | _ => true end)
           (map extract_comments cs))
  | _ => n
  end.

End Bs4.

(** ** Regular expressions

    The fragment of [re] that the class and id patterns of
    [web_client.py] are written in: literal characters, [.], character
    classes, and the postfix operators [*] and [?]; matching is by
    derivatives. *)

Module Re.
Import Py.

Inductive regex :=
| Void
| Eps
| Chr (c : ascii)
| Dot
| Class (cs : str)
| Alt (a b : regex)
| Seq (a b : regex)
| Star (a : regex).

Definition Opt (a : regex) : regex := Alt Eps a.

Definition emit (prev : option regex) (r : regex) : regex :=
  match prev with Some p => Seq p r | None => r end.

(** Reading a pattern: [cls] collects the characters of a class that is
    open, [prev] is the last atom, which a postfix operator may still
    change. *)
Fixpoint parse_go (x : str) (cls : option str) (prev : option regex) : regex :=
  match x with
  | [] => match prev with Some p => p | None => Eps end
  | c :: x' =>
      match cls with
      | Some cs =>
          if Ascii.eqb c "]"
          then emit prev (parse_go x' None (Some (Class (rev cs))))
          else parse_go x' (Some (c :: cs)) prev
      | None =>
          if Ascii.eqb c "[" then parse_go x' (Some []) prev
          else if Ascii.eqb c "*" then parse_go x' None (option_map Star prev)
          else if Ascii.eqb c "?" then parse_go x' None (option_map Opt prev)
          else emit prev
                 (parse_go x' None (Some (if Ascii.eqb c "." then Dot else Chr c)))
      end
  end.

(** [re.compile(pattern)] *)
Definition compile (pattern : string) : regex := parse_go (s pattern) None None.

Fixpoint nullable (r : regex) : bool :=
  match r with
  | Void | Chr _ | Dot | Class _ => false
  | Eps | Star _ => true
  | Alt a b => nullable a || nullable b
  | Seq a b => nullable a && nullable b
  end.

(** Two characters are the same under [re.IGNORECASE]. *)
Definition same_char (ignorecase : bool) (a b : ascii) : bool :=
  if ignorecase then Ascii.eqb (lower_char a) (lower_char b) else Ascii.eqb a b.

Fixpoint deriv (ignorecase : bool) (c : ascii) (r : regex) : regex :=
  match r with
  | Void | Eps => Void
  | Chr d => if same_char ignorecase c d then Eps else Void
  | Dot => if (code c =? 10)%N then Void else Eps
  | Class cs => if existsb (same_char ignorecase c) cs then Eps else Void
  | Alt a b => Alt (deriv ignorecase c a) (deriv ignorecase c b)
  | Seq a b =>
      if nullable a
      then Alt (Seq (deriv ignorecase c a) b) (deriv ignorecase c b)
      else Seq (deriv ignorecase c a) b
  | Star a => Seq (deriv ignorecase c a) (Star a)
  end.

(** [pattern.match(x)]: the pattern matches at the start of [x]. *)
Fixpoint match_ (ignorecase : bool) (r : regex) (x : str) : bool :=
  nullable r
  || match x with
     | [] => false
     | c :: x' => match_ ignorecase (deriv ignorecase c r) x'
     end.

(** [pattern.search(x)]: the pattern matches somewhere in [x]. *)
Fixpoint search (ignorecase : bool) (r : regex) (x : str) : bool :=
  match_ ignorecase r x
  || match x with
     | [] => false
     | _ :: x' => search ignorecase r x'
     end.

(** [int(re.search('\d+', x).group())]: the number that the first run of
    digits reads as, if there is a digit. *)
Fixpoint digits_value (acc : N) (x : str) : N :=
  match x with
  | c :: x' => if isdigit c then digits_value (10 * acc + (code c - 48)) x' else acc
  | [] => acc
  end.

Fixpoint first_number (x : str) : option N :=
  match x with
  | [] => None
  | c :: x' => if isdigit c then Some (digits_value 0 x) else first_number x'
  end.

End Re.

(** ** web_client.py: cleaning the parse tree *)

Section WebClient.
Import Py Bs4 Re.

(** [any(pattern.search(x) for pattern in compiled_patterns)] with
    patterns compiled under [re.IGNORECASE]. *)
Definition any_search (patterns : list string) (x : str) : bool :=
  existsb (fun p => search true (compile p) x) patterns.

(** *** _remove_non_main_content *)

Definition structural_selectors : list selector :=
  [ SelTag (s "nav"); SelTag (s "header"); SelTag (s "footer");
    SelTag (s "aside"); SelTag (s "sidebar");
    SelAttr (s "role") (s "navigation"); SelAttr (s "role") (s "banner");
    SelAttr (s "role") (s "contentinfo"); SelAttr (s "role") (s "complementary");
    SelClass (s "sidebar"); SelClass (s "nav"); SelClass (s "navigation");
    SelClass (s "header"); SelClass (s "footer"); SelClass (s "aside");
    SelId (s "sidebar"); SelId (s "nav"); SelId (s "navigation");
    SelId (s "header"); SelId (s "footer"); SelId (s "aside") ].

(** [for element in soup.select(selector): element.decompose()] *)
Definition remove_selected (soup : node) (sel : selector) : node :=
  decompose_each (select sel soup) soup.

(** [for selector in structural_selectors: ...] *)
Definition remove_structural (soup : node) : node :=
  fold_left remove_selected structural_selectors soup.

Definition main_selectors : list selector :=
  [ SelId (s "main"); SelId (s "content"); SelId (s "main-content");
    SelId (s "primary"); SelId (s "article");
    SelClass (s "main"); SelClass (s "content"); SelClass (s "main-content");
    SelClass (s "primary"); SelClass (s "article");
    SelClass (s "post"); SelClass (s "entry"); SelClass (s "story") ].

Definition or_else {A} (a : option A) (b : option A) : option A :=
  match a with Some _ => a | None => b end.

Definition _find_main_content_area (soup : node) : node :=
  let found :=
    or_else (find (name_in [s "main"]) soup)
   (or_else (find (name_in [s "article"]) soup)
   (or_else (find (attr_is (s "role") (s "main")) soup)
   (or_else (find_map (fun sel => select_one sel soup) main_selectors)
            (find (name_in [s "body"]) soup)))) in
  match found with Some e => e | None => soup end.

Definition title_selectors : list selector :=
  [ SelClass (s "title"); SelClass (s "headline"); SelClass (s "post-title");
    SelClass (s "entry-title"); SelClass (s "article-title");
    SelAttrContains (s "class") (s "title");
    SelAttrContains (s "class") (s "headline") ].

Definition _find_article_title (content_area : node) : option node :=
  or_else (find (name_in [s "h1"]) content_area)
 (or_else (find_map (fun level => find (name_in [level]) content_area)
                    [s "h2"; s "h3"; s "h4"])
          (find_map (fun sel => select_one sel content_area) title_selectors)).

(** [current.find_all()]: the identities of the tags below [current]; an
    element that has been decomposed has none. *)
Definition tags_below (current : nat) (soup : node) : list nat :=
  match subtree current soup with
  | Some e => uids e
  | None => []
  end.

(** The [while] loop of [_remove_elements_before_title].  Elements are
    compared by identity: bs4 compares two tags by name, attributes and
    contents, and the title is the first element of its name or class in
    the content area, so that no element that the loop meets before the
    title is equal to it.  An iteration on an element of the tree deletes
    at least that element, so that one more iteration than the tree has
    tags is as many as the loop can take. *)
Fixpoint before_title_loop (fuel : nat) (title : nat) (soup : node)
    (current : option nat) : node :=
  match fuel, current with
  | S fuel', Some c =>
      if Nat.eqb c title then soup
      else
        let next_element :=
          or_else (find_next_sibling c soup) (find_next c soup) in
        if existsb (Nat.eqb title) (tags_below c soup) then soup
        else
          let soup :=
            if negb (Nat.eqb c title)
               && negb (existsb (Nat.eqb title) (tags_below c soup))
            then decompose c soup else soup in
          before_title_loop fuel' title soup next_element
  | _, _ => soup
  end.

Definition _remove_elements_before_title (soup content_area : node)
    (title_element : nat) : node :=
  before_title_loop (S (count_tags soup)) title_element soup
                    (find_first content_area).

Definition non_content_patterns : list string :=
  [ ".*breadcrumb.*"; ".*pagination.*"; ".*pager.*"; ".*tags.*";
    ".*author.*info.*"; ".*byline.*"; ".*meta.*"; ".*date.*";
    ".*share.*"; ".*social.*"; ".*related.*"; ".*recommend.*";
    ".*comment.*"; ".*reply.*"; ".*discussion.*" ]%string.

Definition truthy (v : attr_value) : bool :=
  match v with
  | AStr x => nonempty x
  | AList vs => match vs with [] => false | _ => true end
  end.

(** The test of the loop over [elements_with_class]. *)
Definition class_matches (patterns : list string) (e : node) : bool :=
  match get (s "class") (tag_attrs e) with
  | Some v => truthy v && any_search patterns (joined v)
  | None => false
  end.

(** The test of the loop over [elements_with_id]; a value that is no
    string makes [search] raise [TypeError], which the loop passes over. *)
Definition id_matches (patterns : list string) (e : node) : bool :=
  match get (s "id") (tag_attrs e) with
  | Some (AStr x) => nonempty x && any_search patterns x
  | _ => false
  end.

Definition uid_of (n : node) : nat :=
  match n with Tag i _ _ _ => i | _ => 0 end.

(** [for element in found: if test(element): element.decompose()], where
    [found] was listed before the loop and an element that has been
    decomposed by then is passed over: by the [element.parent] test of
    [_remove_non_main_content], by the exception that reading it raises
    in [_aggressive_clean_html]. *)
Definition decompose_where (test : node -> bool) (found : list node)
    (soup : node) : node :=
  fold_left
    (fun t e => if attached (uid_of e) t && test e
                then decompose (uid_of e) t else t)
    found soup.

Definition _remove_non_main_content (soup : node) : node :=
  let soup := remove_structural soup in
  let main_content := _find_main_content_area soup in
  let soup :=
    match _find_article_title main_content with
    | Some title_element =>
        _remove_elements_before_title soup main_content (uid_of title_element)
    | None => soup
    end in
  let soup :=
    decompose_where (class_matches non_content_patterns)
                    (find_all (has_attr (s "class")) soup) soup in
  decompose_where (id_matches non_content_patterns)
                  (find_all (has_attr (s "id")) soup) soup.

(** *** _aggressive_clean_html *)

Definition structural_tags : list str :=
  map s [ "nav"; "header"; "footer"; "aside"; "menu"; "menuitem";
          "toolbar"; "banner"; "complementary"; "contentinfo";
          "navigation"; "search" ]%string.

Definition ad_patterns : list string :=
  [ ".*ad[s]?[-_].*"; ".*advertisement.*"; ".*banner.*"; ".*sponsor.*";
    ".*promo.*"; ".*commercial.*"; ".*marketing.*";
    ".*social.*"; ".*share.*"; ".*facebook.*"; ".*twitter.*";
    ".*linkedin.*"; ".*instagram.*"; ".*youtube.*"; ".*pinterest.*";
    ".*nav.*"; ".*menu.*"; ".*sidebar.*"; ".*header.*"; ".*footer.*";
    ".*breadcrumb.*"; ".*pagination.*"; ".*pager.*";
    ".*comment.*"; ".*reply.*"; ".*discussion.*"; ".*feedback.*";
    ".*widget.*"; ".*plugin.*"; ".*popup.*"; ".*modal.*"; ".*overlay.*";
    ".*newsletter.*"; ".*subscribe.*"; ".*signup.*"; ".*login.*";
    ".*related.*"; ".*recommend.*"; ".*suggest.*"; ".*similar.*";
    ".*more.*stories.*"; ".*trending.*"; ".*popular.*";
    ".*meta.*"; ".*track.*"; ".*analytics.*"; ".*pixel.*";
    ".*cookie.*"; ".*privacy.*"; ".*gdpr.*"; ".*consent.*" ]%string.

Definition unwanted_roles : list str :=
  map s [ "banner"; "navigation"; "complementary"; "contentinfo";
          "search"; "form"; "dialog"; "alertdialog"; "menu"; "menubar" ]%string.

Definition form_elements : list str :=
  map s [ "form"; "input"; "button"; "select"; "textarea"; "fieldset" ]%string.

Definition media_elements : list str :=
  map s [ "iframe"; "embed"; "object"; "applet" ]%string.

Definition ad_sizes : list (N * N) :=
  [ (728, 90); (300, 250); (336, 280); (320, 50); (468, 60);
    (970, 250); (300, 600); (320, 100); (970, 90); (160, 600) ]%N.

(** [for x in xs: for element in soup.find_all(test x):
    element.decompose()] *)
Definition decompose_found {A} (test : A -> node -> bool) (soup : node)
    (x : A) : node :=
  decompose_each (find_all (test x) soup) soup.

Definition decompose_for {A} (test : A -> node -> bool) (xs : list A)
    (soup : node) : node :=
  fold_left (decompose_found test) xs soup.

(** The class test of the aggressive pass: the joined classes are
    searched even when there are none. *)
Definition ad_class_matches (e : node) : bool :=
  match get (s "class") (tag_attrs e) with
  | Some v => any_search ad_patterns (joined v)
  | None => any_search ad_patterns []
  end.

Definition ad_id_matches (e : node) : bool :=
  match get (s "id") (tag_attrs e) with
  | Some (AStr x) => any_search ad_patterns x
  | Some (AList _) => false
  | None => any_search ad_patterns []
  end.

(** The size test: both attributes hold a number and the pair is one of
    the known ad sizes. *)
Definition ad_size_matches (e : node) : bool :=
  match get (s "width") (tag_attrs e), get (s "height") (tag_attrs e) with
  | Some w, Some h =>
      match first_number (attr_string w), first_number (attr_string h) with
      | Some width, Some height =>
          existsb (fun '(a, b) => N.eqb a width && N.eqb b height) ad_sizes
      | _, _ => false
      end
  | _, _ => false
  end.

(** [for element in found: if test(element): element.decompose()] where
    [test] reads the element as it is in the tree by then; an element that
    has been decomposed is read as an empty tag without name. *)
Definition decompose_live (test : node -> bool) (found : list node)
    (soup : node) : node :=
  fold_left
    (fun t e =>
       let live := match subtree (uid_of e) t with
                   | Some x => x
                   | None => Tag (uid_of e) [] [] []
                   end in
       if test live then decompose (uid_of e) t else t)
    found soup.

Definition little_text (e : node) : bool :=
  name_in (map s ["div"; "span"; "section"; "article"]%string) e
  && (let text_content := get_text_strip e in
      (negb (nonempty text_content) || (length text_content <? 3)%nat)
      && match find_all (name_in (map s ["p"; "h1"; "h2"; "h3"; "h4"; "h5";
                                        "h6"; "li"; "td"; "th"]%string)) e with
         | [] => true
         | _ => false
         end).

Definition empty_element (e : node) : bool :=
  negb (nonempty (get_text_strip e))
  && match find_all (name_in (map s ["img"; "video"; "audio"]%string)) e with
     | [] => true
     | _ => false
     end.

Definition _aggressive_clean_html (soup : node) : node :=
  let soup :=
    decompose_each (find_all (name_in (map s ["script"; "style"; "noscript"]%string))
                             soup) soup in
  let soup := decompose_for (fun tag => name_in [tag]) structural_tags soup in
  let soup :=
    decompose_where ad_class_matches (find_all (has_attr (s "class")) soup) soup in
  let soup :=
    decompose_where ad_id_matches (find_all (has_attr (s "id")) soup) soup in
  let soup := decompose_for (attr_is (s "role")) unwanted_roles soup in
  let soup := decompose_for (fun tag => name_in [tag]) form_elements soup in
  let soup := decompose_for (fun tag => name_in [tag]) media_elements soup in
  let soup :=
    decompose_where ad_size_matches
      (find_all (fun e => has_attr (s "width") e && has_attr (s "height") e) soup)
      soup in
  let soup := extract_comments soup in
  let soup := decompose_live little_text (tags soup) soup in
  decompose_live empty_element (tags soup) soup.

(** *** get_webpage_text

    The tree that the text is taken from, and the text. *)
Definition cleaned_soup (aggressive_html_cleaning : bool) (soup : node) : node :=
  let soup := _remove_non_main_content soup in
  if aggressive_html_cleaning then _aggressive_clean_html soup
  else decompose_each (find_all (name_in (map s ["script"; "style"]%string)) soup)
                      soup.

Definition get_webpage_text (aggressive_html_cleaning : bool) (soup : node) : str :=
  clean_up_whitespace (get_text (cleaned_soup aggressive_html_cleaning soup)).

End WebClient.

(** ** utility_functions.py: replace_unicode_chars

    The function names characters beyond U+00FF, so that here a Python
    [str] is the list of its code points. *)

Module Uni.

Definition ustr := list N.

(** [x.startswith(p)] *)
Fixpoint startswith (x p : ustr) {struct p} : bool :=
  match p, x with
  | [], _ => true
  | _ :: _, [] => false
  | a :: p', b :: x' => N.eqb a b && startswith x' p'
  end.

(** [x.replace(old, new)] for a non-empty [old]; [skip] counts the
    characters of an occurrence that is being passed over. *)
Fixpoint replace_go (old new : ustr) (skip : nat) (x : ustr) : ustr :=
  match x with
  | [] => []
  | c :: x' =>
      match skip with
      | S k => replace_go old new k x'
      | O => if startswith x old
             then new ++ replace_go old new (length old - 1) x'
             else c :: replace_go old new 0 x'
      end
  end.

Definition replace (x old new : ustr) : ustr := replace_go old new 0 x.

End Uni.

Section ReplaceUnicodeChars.
Import Uni.

(** The dictionary [replacements], its items in the order in which they
    are written. *)
Definition replacements : list (N * N) :=
  [
    (* single quotes *)
    (0x2019, 0x0027); (0x2018, 0x0027); (0x201a, 0x0027); (0x201b, 0x0027);
    (0x2032, 0x0027); (0x00b4, 0x0027); (0x0060, 0x0027);
    (* double quotes *)
    (0x201c, 0x0022); (0x201d, 0x0022); (0x201e, 0x0022); (0x201f, 0x0022);
    (0x2033, 0x0022); (0x00ab, 0x0022); (0x00bb, 0x0022);
    (* dashes *)
    (0x2014, 0x002d); (0x2013, 0x002d); (0x2015, 0x002d); (0x2212, 0x002d);
    (0x00ad, 0x002d); (0x2010, 0x002d); (0x2011, 0x002d);
    (* slashes *)
    (0x2044, 0x002f); (0x2215, 0x002f); (0x29f8, 0x002f); (0x2216, 0x005c);
    (0x29f9, 0x005c); (0x27cd, 0x005c);
    (* brackets *)
    (0x2329, 0x003c); (0x232a, 0x003e); (0x27e8, 0x003c); (0x27e9, 0x003e);
    (0x3008, 0x003c); (0x3009, 0x003e); (0x2772, 0x005b); (0x2773, 0x005d);
    (0x27e6, 0x005b); (0x27e7, 0x005d); (0xff3b, 0x005b); (0xff3d, 0x005d);
    (0x2774, 0x007b); (0x2775, 0x007d); (0xff5b, 0x007b); (0xff5d, 0x007d);
    (* parentheses *)
    (0xff08, 0x0028); (0xff09, 0x0029); (0x2768, 0x0028); (0x2769, 0x0029);
    (0x276a, 0x0028); (0x276b, 0x0029);
    (* the others *)
    (0x2022, 0x002a); (0x0301, 0x0060); (0x0000, 0x2400)
  ]%N.

(** [for unicode_char, replacement in replacements.items():
    text = text.replace(unicode_char, replacement)]; the line that the
    loop prints for every item is left out. *)
Definition replace_unicode_chars (text : ustr) : ustr :=
  fold_left
    (fun text '(unicode_char, replacement) =>
       replace text [unicode_char] [replacement])
    replacements text.

End ReplaceUnicodeChars.

(** ** utility_functions.py: ingest_cache

    The function reads the files of the cache directory and talks to the
    database; what is modelled is the sequence of the calls that it
    makes.  A UUID is named by the number of the [uuid.uuid4()] call that
    drew it.  [get_file_text], which reads PDF files and decodes bytes,
    is a parameter. *)

Section IngestCache.
Import Py.

Definition bytes := list Byte.byte.

Variable get_file_text : str -> bytes -> str.

(** A file of the cache directory: its name, [os.path.getsize] of it and
    what reading it gives. *)
Record cached_file := {
  cached_name : str;
  cached_size : Z;
  cached_content : bytes
}.

Inductive call :=
| create_file (file_name : str) (file_content : bytes) (file_size : Z)
              (file_id : nat)
| create_message (id : nat) (message_type : str) (message_text : str)
                 (message_length : Z) (file_id : nat)
| clear_cache
| print_not_found
| print_error (e : exn).

(** [for c in chunks: create_message(id=uuid.uuid4(), ...)] *)
Fixpoint create_messages (chunks : list str) (file_id next_uuid : nat)
    : list call :=
  match chunks with
  | [] => []
  | c :: chunks' =>
      create_message next_uuid (s "file") c (len c) file_id
      :: create_messages chunks' file_id (S next_uuid)
  end.

(** The loop over the file names; an exception ends it and is printed,
    and [clear_cache] follows the loop only when it has come to its
    end. *)
Fixpoint ingest_files (files : list cached_file) (next_uuid : nat)
    : list call :=
  match files with
  | [] => [clear_cache]
  | f :: files' =>
      let file_id := next_uuid in
      let file_content := get_file_text (cached_name f) (cached_content f) in
      create_file (cached_name f) (cached_content f) (cached_size f) file_id
      :: match split_content_to_chunks file_content 8192 with
         | Ok chunks =>
             create_messages chunks file_id (S next_uuid)
             ++ ingest_files files' (S next_uuid + length chunks)
         | Raise e => [print_error e]
         end
  end.

(** [listing] is what [os.listdir] gives; there is none when the
    directory does not exist. *)
Definition ingest_cache (listing : option (list cached_file)) : list call :=
  match listing with
  | Some files => ingest_files files 0
  | None => [print_not_found]
  end.

End IngestCache.

(** * The vocabulary of the statements

    What the properties below are stated with: nothing here is part of
    the program. *)

(** ** Words and chunks *)

Section ChunkVocabulary.
Import Py.

(** A word as [str.split] returns it: not empty, no whitespace inside. *)
Definition is_word (w : str) : Prop :=
  w <> [] /\ Forall (fun c => isspace c = false) w.

Open Scope Z_scope.

(** The sum of a list of integers. *)
Fixpoint zsum (l : list Z) : Z :=
  match l with
  | [] => 0
  | x :: l' => x + zsum l'
  end.

(** The number of words that iteration [i] takes. *)
Definition words_in_message (words_per_message extra_words i : Z) : Z :=
  if i <? extra_words then words_per_message + 1 else words_per_message.

(** The word lists that the iterations [ixs] cut off, starting at [idx]. *)
Fixpoint cut (words : list str) (b e : Z) (ixs : list Z) (idx : Z)
    : list (list str) :=
  match ixs with
  | [] => []
  | i :: ixs' =>
      let k := words_in_message b e i in
      slice words idx (idx + k) :: cut words b e ixs' (idx + k)
  end.

End ChunkVocabulary.

(** ** Stripped and cleaned-up text *)

Section TextVocabulary.
Import Py.

(** The first character, if there is one, is not in the stripped set. *)
Definition starts_clean (f : ascii -> bool) (x : str) : Prop :=
  match x with
  | [] => True
  | c :: _ => f c = false
  end.

(** The last character, if there is one, is not in the stripped set. *)
Definition ends_clean (f : ascii -> bool) (x : str) : Prop :=
  starts_clean f (rev x).

(** [p] does not occur in [x]. *)
Definition free_of (p x : str) : Prop := forall a b, x <> a ++ p ++ b.

(** No line boundary inside. *)
Definition one_line (x : str) : Prop := Forall (fun c => islinebreak c = false) x.



(** What the clean-up guarantees: nothing to strip at either end, no two
    spaces in a row, no line boundary. *)
Record normal (x : str) : Prop := {
  normal_start : starts_clean isspace x;
  normal_end : ends_clean isspace x;
  normal_spaces : free_of (s "  ") x;
  normal_line : one_line x
}.

End TextVocabulary.

(** ** File names and extensions *)

Section FileNameVocabulary.
Import Py Url.

(** The characters that the claim calls separators. *)
Definition separators : str := s "/\.+".

(** The stem as the specification words it: separators become
    underscores, invalid characters are taken out. *)
Definition sanitize_stripping (x : str) : str :=
  let y := map (fun c => if inset separators c then "_"%char else c) x in
  let y := filter (fun c => negb (inset invalid_chars c)) y in
  let y := strip_chars y (s ". ") in
  if nonempty y then y else s "webpage".

(** The stem as the code computes it: separators and invalid characters
    alike become underscores. *)
Definition sanitize_replacing (x : str) : str :=
  let y := map (fun c => if inset (separators ++ invalid_chars) c
                         then "_"%char else c) x in
  let y := strip_chars y (s ". ") in
  if nonempty y then y else s "webpage".

(** [f"{parsed.netloc}{parsed.path}"] *)
Definition host_and_path (parsed : ParseResult) : str :=
  netloc parsed ++ path parsed.

(** A library that accepts every network location with a pair of square
    brackets, for the examples. *)
Definition accept_brackets (netloc : str) : bool := true.

(** U+000A *)
Definition LF : ascii := "010"%char.

(** A character that [urlsplit] leaves in the URL. *)
Definition safe (c : ascii) : Prop := unsafe_to_remove c = false.

(** The suffix of the URL path that the fallback looks at. *)
Definition url_suffix (url_path : str) : str :=
  lower (last (split_sep url_path (s ".")) []).

(** The content type names none of the types that
    [get_webpage_file] knows: the extension is still the default. *)
Definition no_content_type_match (content_type : str) : Prop :=
  extension_of_content_type content_type_table content_type = s "bin".

End FileNameVocabulary.

(** ** Trees, their prunings and the places in them *)

Section TreeVocabulary.
Import Py Bs4.

(** What a tag keeps while the tree around and below it changes. *)
Definition shell (n : node) : nat * str * list (str * attr_value) :=
  (uid_of n, tag_name n, tag_attrs n).

(** [sub_forest R l' l]: [l'] is [l] with some nodes left out and the
    others related by [R]. *)
Inductive sub_forest (R : node -> node -> Prop) : list node -> list node -> Prop :=
| sub_nil : sub_forest R [] []
| sub_drop c l' l : sub_forest R l' l -> sub_forest R l' (c :: l)
| sub_keep c' c l' l : R c' c -> sub_forest R l' l -> sub_forest R (c' :: l') (c :: l).

(** [pruned r t]: [r] is [t] with some subtrees deleted. *)
#[warnings="-register-all"]
Inductive pruned : node -> node -> Prop :=
| pruned_tag i nm at_ cs' cs :
    sub_forest pruned cs' cs -> pruned (Tag i nm at_ cs') (Tag i nm at_ cs)
| pruned_string x : pruned (NavigableString x) (NavigableString x)
| pruned_comment x : pruned (Comment x) (Comment x).

(** The title step of [_remove_non_main_content]: the content area is
    located, the title is looked up in it, and what comes before the
    title is removed when there is one. *)
Definition after_title_truncation (soup : node) : node :=
  match _find_article_title (_find_main_content_area soup) with
  | Some title_element =>
      _remove_elements_before_title soup (_find_main_content_area soup)
                                    (uid_of title_element)
  | None => soup
  end.

(** The nodes of the claim: a [nav] element, and a [div] whose class is
    [social-share]. *)
Definition is_nav (e : node) : bool := str_eqb (tag_name e) (s "nav").

Definition is_social_share_div (e : node) : bool :=
  str_eqb (tag_name e) (s "div")
  && match get (s "class") (tag_attrs e) with
     | Some (AList [c]) => str_eqb c (s "social-share")
     | _ => false
     end.

Definition nav_or_social_share (e : node) : bool :=
  is_tag e && (is_nav e || is_social_share_div e).

(** The tree without the subtrees whose root passes [test]. *)
Fixpoint without (test : node -> bool) (n : node) : node :=
  match n with
  | Tag i nm at_ cs =>
      Tag i nm at_ (filter (fun c => negb (test c)) (map (without test) cs))
  | _ => n
  end.

(** A tag without attributes, and a text node. *)
Definition element (i : nat) (nm : string) (cs : list node) : node :=
  Tag i (s nm) [] cs.

Definition text (x : string) : node := NavigableString (s x).

(** A page with a [nav], a [div] of class [social-share] and a
    paragraph in its body. *)
Definition page_with_nav_and_share : node :=
  element 0 "[document]"
    [ element 1 "html"
        [ element 2 "body"
            [ element 3 "nav" [ element 4 "a" [text "Home"] ];
              Tag 5 (s "div") [(s "class", AList [s "social-share"])]
                  [ element 6 "a" [text "Tweet"] ];
              element 7 "p" [text "Hello world"] ] ] ].

(** One level of the tree around a node: the tag above it, and its
    siblings before and behind. *)
Record frame := Frame {
  frame_uid : nat;
  frame_name : str;
  frame_attrs : list (str * attr_value);
  before : list node;
  behind : list node
}.

(** The tag of a frame around [n]. *)
Definition fill (f : frame) (n : node) : node :=
  Tag (frame_uid f) (frame_name f) (frame_attrs f) (before f ++ n :: behind f).

(** The tree that has [n] at the place that the frames lead to, the
    outermost frame first. *)
Definition plug (C : list frame) (n : node) : node := fold_right fill n C.

(** The identities of a tree are distinct. *)
Definition distinct (soup : node) : Prop := NoDup (all_uids soup).

(** [c] is the title element or has it below. *)
Definition holds (title : nat) (c : node) : bool :=
  has_uid title c || existsb (Nat.eqb title) (uids c).

(** The children of the content area that the truncation leaves: the tags
    before the child that holds the title go, the text between them and
    everything from that child on stay. *)
Fixpoint drop_before_title (title : nat) (cs : list node) : list node :=
  match cs with
  | [] => []
  | c :: cs' =>
      if is_tag c then
        if holds title c then cs else drop_before_title title cs'
      else c :: drop_before_title title cs'
  end.

(** The position of an identity in a list of identities. *)
Fixpoint index_of (u : nat) (l : list nat) : option nat :=
  match l with
  | [] => None
  | i :: l' => if Nat.eqb i u then Some 0 else option_map S (index_of u l')
  end.

(** [a] comes before [b] in document order. *)
Definition precedes (a b : nat) (soup : node) : bool :=
  match index_of a (all_uids soup), index_of b (all_uids soup) with
  | Some x, Some y => x <? y
  | _, _ => false
  end.

(** An article whose heading is inside a [div], after an introduction. *)
Definition article_with_intro : node :=
  element 0 "[document]"
    [ element 1 "main"
        [ text "lead";
          element 2 "div" [text "junk"];
          element 3 "div"
            [ element 4 "p" [text "intro"];
              element 5 "h1" [text "T"];
              element 6 "p" [text "body"] ] ] ].

(** A page with a [header], then an unrelated [div] before the heading. *)
Definition article_page : node :=
  element 0 "[document]"
    [ element 1 "html"
        [ element 2 "body"
            [ element 3 "header" [text "Site"];
              element 4 "div" [text "text"];
              element 5 "h1" [text "Article Title"];
              element 6 "p" [text "First paragraph"] ] ] ].

End TreeVocabulary.

Unset Implicit Arguments.

(** ** What the cleaning leaves and what the searches look for *)

Section CleanedTreeVocabulary.
Import Py Bs4.

(** [subseq l' l]: [l'] is [l] with some items left out. *)
Inductive subseq (A : Type) : list A -> list A -> Prop :=
| subseq_nil : subseq A [] []
| subseq_drop x l' l : subseq A l' l -> subseq A l' (x :: l)
| subseq_keep x l' l : subseq A l' l -> subseq A (x :: l') (x :: l).

(** A test that reads the name and the attributes of an element only. *)
Definition shell_test (test : node -> bool) : Prop :=
  forall a b, shell a = shell b -> test a = test b.

(** The name of the element is one of [names]. *)
Definition named (names : list str) (e : node) : bool :=
  existsb (str_eqb (tag_name e)) names.

(** The passes of [_aggressive_clean_html], in the order of the source. *)
Definition aggressive_passes : list (node -> node) :=
  [ fun soup =>
      decompose_each
        (find_all (name_in (map s ["script"; "style"; "noscript"]%string)) soup)
        soup;
    decompose_for (fun tag => name_in [tag]) structural_tags;
    fun soup =>
      decompose_where ad_class_matches (find_all (has_attr (s "class")) soup) soup;
    fun soup =>
      decompose_where ad_id_matches (find_all (has_attr (s "id")) soup) soup;
    decompose_for (attr_is (s "role")) unwanted_roles;
    decompose_for (fun tag => name_in [tag]) form_elements;
    decompose_for (fun tag => name_in [tag]) media_elements;
    fun soup =>
      decompose_where ad_size_matches
        (find_all (fun e => has_attr (s "width") e && has_attr (s "height") e)
                  soup)
        soup;
    extract_comments;
    fun soup => decompose_live little_text (tags soup) soup;
    fun soup => decompose_live empty_element (tags soup) soup ].

Definition run_passes (passes : list (node -> node)) (soup : node) : node :=
  fold_left (fun t p => p t) passes soup.

(** No tag of the tree passes [test]. *)
Definition free_from (test : node -> bool) (t : node) : Prop :=
  forall e, In e (tags t) -> test e = false.

(** The tag names that the aggressive cleaning removes. *)
Definition aggressively_removed_tags : list str :=
  map s ["script"; "style"; "noscript"]%string
  ++ structural_tags ++ form_elements ++ media_elements.

Definition is_comment (n : node) : bool :=
  match n with Comment _ => true | _ => false end.

(** No comment below the root. *)
Definition comment_free (t : node) : Prop :=
  forall e, In e (descendants t) -> is_comment e = false.

(** An element that [_find_main_content_area] looks for. *)
Definition area_candidate (e : node) : bool :=
  name_in (map s ["main"; "article"; "body"]%string) e
  || attr_is (s "role") (s "main") e
  || existsb (fun sel => matches sel e) main_selectors.

(** The value of the [class] attribute contains [v]. *)
Definition class_contains (v : string) (e : node) : bool :=
  matches (SelAttrContains (s "class") (s v)) e.

(** An element that [_find_article_title] looks for: a heading of one of
    the first four levels, or an element whose class attribute contains
    "title" or "headline". *)
Definition title_candidate (e : node) : bool :=
  name_in (map s ["h1"; "h2"; "h3"; "h4"]%string) e
  || class_contains "title" e || class_contains "headline" e.

End CleanedTreeVocabulary.

(** ** Safe file names *)

Section SafeNameVocabulary.
Import Py Url.

(** A character that a file name stem never holds: a slash, a backslash,
    a dot, a plus sign or one of the invalid characters. *)
Definition unsafe_in_stem (c : ascii) : bool :=
  inset (separators ++ invalid_chars) c.

Definition safe_stem (x : str) : Prop :=
  (1 <= length x <= 16)%nat /\ forallb (fun c => negb (unsafe_in_stem c)) x = true.



End SafeNameVocabulary.

(** ** The dictionary of replacements *)

Section ReplacementVocabulary.
Import Uni.

(** What the dictionary gives for a character: its value when the
    character is a key, the character itself when it is none. *)
Definition lookup (table : list (N * N)) (c : N) : N :=
  match List.find (fun kv => N.eqb (fst kv) c) table with
  | Some kv => snd kv
  | None => c
  end.

Definition substitute (c : N) : N := lookup replacements c.

(** The character is a key of the dictionary. *)
Definition is_key (table : list (N * N)) (c : N) : bool :=
  existsb (fun kv => N.eqb (fst kv) c) table.

Definition replaced (c : N) : bool := is_key replacements c.

(** No value of the table is a key of a later item. *)
Fixpoint no_chain (table : list (N * N)) : bool :=
  match table with
  | [] => true
  | kv :: table' => negb (is_key table' (snd kv)) && no_chain table'
  end.

(** One item of the loop on one character. *)
Definition step_char (a : N) (kv : N * N) : N :=
  if N.eqb (fst kv) a then snd kv else a.

End ReplacementVocabulary.

(** ** Files with a text *)

Section IngestVocabulary.

(** The file has some text. *)
Definition has_text (get_file_text : Py.str -> bytes -> Py.str)
    (f : cached_file) : bool :=
  nonempty (get_file_text (cached_name f) (cached_content f)).

(** A way to read a file for the examples: every byte is a character. *)
Definition latin1_text (file_name : Py.str) (file_content : bytes) : Py.str :=
  map Ascii.ascii_of_byte file_content.

End IngestVocabulary.

(** ** Whitespace *)

Section WordVocabulary.
Import Py.

(** Whitespace only. *)
Definition blank (x : str) : Prop := Forall (fun c => isspace c = true) x.

End WordVocabulary.

Set Implicit Arguments.

(** * Properties *)

(** ** Words and whitespace *)

Section Words.

Import Py.

Lemma split_go_word cur w rest :
  Forall (fun c => isspace c = false) w ->
  split_go cur (w ++ rest) = split_go (rev w ++ cur) rest.
Proof.
  revert cur; induction w as [|c w IH]; intros cur Hw; simpl.
  - reflexivity.
  - inversion Hw as [|? ? Hc Hw']; subst. rewrite Hc.
    rewrite IH by assumption. now rewrite <- app_assoc.
Qed.

Lemma split_go_words cur x :
  Forall (fun c => isspace c = false) cur ->
  Forall is_word (split_go cur x).
Proof.
  revert cur; induction x as [|c x IH]; intros cur Hcur; simpl.
  - destruct cur as [|d cur]; constructor; [|constructor].
    split.
    + intro E. apply (f_equal (@length _)) in E.
      rewrite length_rev in E. discriminate.
    + now apply Forall_rev.
  - destruct (isspace c) eqn:Hc.
    + destruct cur as [|d cur]; [now apply IH|].
      constructor; [|now apply IH].
      split.
      * intro E. apply (f_equal (@length _)) in E.
        rewrite length_rev in E. discriminate.
      * now apply Forall_rev.
    + apply IH. now constructor.
Qed.

Lemma split_words x : Forall is_word (split x).
Proof. apply split_go_words. constructor. Qed.

Lemma split_join_go w ws :
  is_word w -> Forall is_word ws ->
  split_go [] (join (s " ") (w :: ws)) = w :: ws.
Proof.
  revert w; induction ws as [|v ws IH]; intros w [Hne Hsp] Hws.
  - cbn [join]. rewrite <- (app_nil_r w) at 1.
    rewrite split_go_word by assumption. simpl. rewrite app_nil_r.
    destruct (rev w) eqn:E.
    + apply (f_equal (@rev _)) in E. rewrite rev_involutive in E. now subst.
    + rewrite <- E. now rewrite rev_involutive.
  - inversion Hws as [|? ? Hv Hws']; subst.
    change (join (s " ") (w :: v :: ws))
      with (w ++ " "%char :: join (s " ") (v :: ws)).
    rewrite split_go_word by assumption. rewrite app_nil_r.
    cbn [split_go]. change (isspace " ") with true. cbn iota.
    destruct (rev w) eqn:E.
    + apply (f_equal (@rev _)) in E. rewrite rev_involutive in E. now subst.
    + rewrite <- E, rev_involutive. f_equal. now apply IH.
Qed.

(** Splitting the single-space join of words gives the words back. *)
Lemma split_join ws : Forall is_word ws -> split (join (s " ") ws) = ws.
Proof.
  destruct ws as [|w ws]; [reflexivity|].
  intro H. inversion H; subst. now apply split_join_go.
Qed.

End Words.

(** ** Contiguous slices *)

Section Slices.

Import Py.

Variable A : Type.
Implicit Types l : list A.

Lemma firstn_firstn_skipn x y l :
  firstn x l ++ firstn y (skipn x l) = firstn (x + y) l.
Proof.
  revert l; induction x as [|x IH]; intro l; simpl.
  - reflexivity.
  - destruct l as [|a l]; simpl.
    + now rewrite firstn_nil.
    + now rewrite IH.
Qed.

Lemma slice_nat l (a b : nat) :
  (a <= b)%nat ->
  slice l (Z.of_nat a) (Z.of_nat b) = firstn (b - a) (skipn a l).
Proof.
  intro Hab. unfold slice, clamp, len.
  destruct (Z.ltb_spec (Z.of_nat a) 0); [lia|].
  destruct (Z.ltb_spec (Z.of_nat b) 0); [lia|].
  set (n := length l).
  destruct (le_lt_dec a n) as [Han|Han].
  - replace (Z.to_nat (Z.max 0 (Z.min (Z.of_nat n) (Z.of_nat a)))) with a by lia.
    destruct (le_lt_dec b n) as [Hbn|Hbn].
    + f_equal. lia.
    + rewrite (firstn_all2 (n := b - a)) by (rewrite length_skipn; fold n; lia).
      apply firstn_all2. rewrite length_skipn. fold n. lia.
  - rewrite (skipn_all2 (n := a)) by (fold n; lia).
    rewrite skipn_all2 by (fold n; lia).
    now rewrite !firstn_nil.
Qed.

Lemma slice_app l (a b c : nat) :
  (a <= b <= c)%nat ->
  slice l (Z.of_nat a) (Z.of_nat b) ++ slice l (Z.of_nat b) (Z.of_nat c)
  = slice l (Z.of_nat a) (Z.of_nat c).
Proof.
  intros [Hab Hbc]. rewrite !slice_nat by lia.
  replace (skipn b l) with (skipn (b - a) (skipn a l))
    by (rewrite skipn_skipn; f_equal; lia).
  rewrite firstn_firstn_skipn. f_equal. lia.
Qed.

Lemma slice_all l : slice l 0 (len l) = l.
Proof.
  unfold len. change 0%Z with (Z.of_nat 0).
  rewrite slice_nat by lia. simpl. apply firstn_all2. lia.
Qed.

Lemma slice_length l (a b : nat) :
  (a <= b <= length l)%nat ->
  length (slice l (Z.of_nat a) (Z.of_nat b)) = (b - a)%nat.
Proof.
  intros [Hab Hbl]. rewrite slice_nat by lia.
  rewrite length_firstn, length_skipn. lia.
Qed.

End Slices.

(** ** The loop of the chunk splitter *)

Section ChunkLoop.

Import Py.

Open Scope Z_scope.

Lemma slice_app_Z (A : Type) (l : list A) a b c :
  0 <= a <= b -> b <= c ->
  slice l a b ++ slice l b c = slice l a c.
Proof.
  intros Hab Hbc.
  rewrite <- (Z2Nat.id a), <- (Z2Nat.id b), <- (Z2Nat.id c) by lia.
  apply slice_app. lia.
Qed.

Lemma slice_len_Z (A : Type) (l : list A) a b :
  0 <= a <= b -> b <= len l ->
  len (slice l a b) = b - a.
Proof.
  intros Hab Hbl. unfold len in *.
  rewrite <- (Z2Nat.id a), <- (Z2Nat.id b) by lia.
  rewrite slice_length by lia. lia.
Qed.

Lemma slice_empty (A : Type) (l : list A) a : 0 <= a -> slice l a a = [].
Proof.
  intro Ha. rewrite <- (Z2Nat.id a) by lia.
  rewrite slice_nat by lia. now rewrite Nat.sub_diag.
Qed.

Variable words : list str.

Variables b e : Z.

Hypothesis Hb : 0 <= b.

Lemma words_in_message_nonneg i : 0 <= words_in_message b e i.
Proof. unfold words_in_message. destruct (i <? e); lia. Qed.

Lemma zsum_sizes_nonneg ixs : 0 <= zsum (map (words_in_message b e) ixs).
Proof.
  induction ixs as [|i ixs IH]; simpl; [lia|].
  pose proof (words_in_message_nonneg i). lia.
Qed.

Lemma fold_chunk_step ixs acc idx :
  fold_left (chunk_step words b e) ixs (acc, idx)
  = (acc ++ map (join (s " ")) (cut words b e ixs idx),
     idx + zsum (map (words_in_message b e) ixs)).
Proof.
  revert acc idx; induction ixs as [|i ixs IH]; intros acc idx.
  - simpl. now rewrite app_nil_r, Z.add_0_r.
  - cbn [fold_left chunk_step cut map zsum].
    fold (words_in_message b e i). rewrite IH.
    rewrite <- app_assoc. cbn [app]. f_equal.
    symmetry. apply Z.add_assoc.
Qed.

Lemma cut_length ixs idx : length (cut words b e ixs idx) = length ixs.
Proof. revert idx; induction ixs; intro; simpl; congruence. Qed.

Lemma concat_cut ixs idx :
  0 <= idx ->
  concat (cut words b e ixs idx)
  = slice words idx (idx + zsum (map (words_in_message b e) ixs)).
Proof.
  revert idx; induction ixs as [|i ixs IH]; intros idx Hidx.
  - simpl. now rewrite Z.add_0_r, slice_empty.
  - cbn [cut concat map zsum].
    pose proof (words_in_message_nonneg i).
    pose proof (zsum_sizes_nonneg ixs).
    rewrite IH by lia. rewrite slice_app_Z by lia. f_equal. lia.
Qed.

Lemma cut_sizes ixs idx :
  0 <= idx ->
  idx + zsum (map (words_in_message b e) ixs) <= len words ->
  map (@len str) (cut words b e ixs idx) = map (words_in_message b e) ixs.
Proof.
  revert idx; induction ixs as [|i ixs IH]; intros idx Hidx Hsum.
  - reflexivity.
  - cbn [cut map zsum] in *.
    pose proof (words_in_message_nonneg i).
    pose proof (zsum_sizes_nonneg ixs).
    rewrite slice_len_Z by lia. rewrite IH by lia. f_equal. lia.
Qed.

End ChunkLoop.

(** ** The number of chunks *)

Section ChunkCount.

Import Py.

Open Scope Z_scope.

Lemma zsum_sizes_seq b e k m :
  zsum (map (words_in_message b e) (map Z.of_nat (seq k m)))
  = Z.of_nat m * b + (Z.min e (Z.of_nat (k + m)) - Z.min e (Z.of_nat k)).
Proof.
  revert k; induction m as [|m IH]; intro k.
  - simpl. rewrite Nat.add_0_r. lia.
  - cbn [seq map zsum]. rewrite IH.
    unfold words_in_message.
    destruct (Z.ltb_spec (Z.of_nat k) e); lia.
Qed.

Lemma zsum_sizes_range total n :
  0 < n ->
  zsum (map (words_in_message (total / n) (total mod n)) (range n)) = total.
Proof.
  intro Hn. unfold range. rewrite zsum_sizes_seq.
  pose proof (Z.mod_pos_bound total n Hn).
  pose proof (Z.div_mod total n ltac:(lia)).
  simpl. lia.
Qed.

(** [(l + m - 1) // m] is the ceiling of [l / m]. *)
Lemma ceil_div_spec l m :
  0 < m -> 0 <= l ->
  let n := (l + m - 1) / m in
  m * (n - 1) < l <= m * n.
Proof.
  intros Hm Hl n.
  pose proof (Z.div_mod (l + m - 1) m ltac:(lia)).
  pose proof (Z.mod_pos_bound (l + m - 1) m Hm).
  subst n. lia.
Qed.

Lemma num_messages_pos l m : 0 < m -> 0 < l -> 0 < (l + m - 1) / m.
Proof.
  intros Hm Hl. pose proof (@ceil_div_spec l m Hm (Z.lt_le_incl _ _ Hl)) as H.
  cbv zeta in H. nia.
Qed.

(** What the splitter returns on a non-empty text: the text of every
    chunk is the single-space join of a block of words, the blocks are
    cut off the word list one after the other, and block [i] has
    [words_in_message] words. *)
Lemma split_content_to_chunks_blocks content m :
  content <> [] -> 0 < m ->
  let n := (len content + m - 1) / m in
  let words := split content in
  let b := len words / n in
  let e := len words mod n in
  let blocks := cut words b e (range n) 0 in
  split_content_to_chunks content m = Ok (map (join (s " ")) blocks)
  /\ concat blocks = words
  /\ map (@len str) blocks = map (words_in_message b e) (range n).
Proof.
  intros Hne Hm n words b e blocks.
  assert (Hlen : 0 < len content).
  { unfold len. destruct content; [congruence|simpl; lia]. }
  assert (Hn : 0 < n) by now apply num_messages_pos.
  assert (Hb : 0 <= b).
  { apply Z.div_pos; [unfold len|]; lia. }
  assert (Hsum : zsum (map (words_in_message b e) (range n)) = len words)
    by now apply zsum_sizes_range.
  split; [|split].
  - unfold split_content_to_chunks, floordiv, mod_.
    destruct (Z.eqb_spec m 0); [lia|]. cbn [bind].
    fold n. destruct (Z.eqb_spec n 0); [lia|]. cbn [bind].
    fold words b e. now rewrite fold_chunk_step.
  - unfold blocks. rewrite concat_cut by (assumption || lia).
    rewrite Z.add_0_l, Hsum. apply slice_all.
  - apply cut_sizes; [assumption|lia|lia].
Qed.

End ChunkCount.

(** ** The chunk splitter: word preservation, distribution, empty text
       and chunk size *)

Section ChunkClaims.

Import Py.

Open Scope Z_scope.

Lemma zsum_len_concat (A : Type) (ls : list (list A)) :
  zsum (map (@len A) ls) = len (concat ls).
Proof.
  induction ls as [|l ls IH]; [reflexivity|].
  cbn [map zsum concat]. rewrite IH. unfold len. rewrite length_app. lia.
Qed.

Lemma map_split_join blocks :
  Forall (Forall is_word) blocks ->
  map split (map (join (s " ")) blocks) = blocks.
Proof.
  induction 1 as [|ws blocks Hws _ IH]; [reflexivity|].
  cbn [map]. now rewrite split_join, IH.
Qed.

(** C1: on a non-empty text and a positive bound the splitter returns
    chunks whose word lists, concatenated in order, are the word list of
    the text, and whose word counts add up to its number of words. *)
Theorem chunks_preserve_words (content : str) (m : Z) :
  content <> [] -> 0 < m ->
  exists chunks,
    split_content_to_chunks content m = Ok chunks
    /\ concat (map split chunks) = split content
    /\ zsum (map (fun c => len (split c)) chunks) = len (split content).
Proof.
  intros Hne Hm.
  destruct (split_content_to_chunks_blocks Hne Hm) as (Hres & Hcat & _).
  cbv zeta in Hres, Hcat.
  set (blocks := cut _ _ _ _ _) in *.
  assert (Hw : Forall (Forall is_word) blocks).
  { apply Forall_concat. rewrite Hcat. apply split_words. }
  exists (map (join (s " ")) blocks). split; [assumption|].
  rewrite <- (map_map split (@len str)).
  rewrite map_split_join by assumption.
  split; [assumption|]. now rewrite zsum_len_concat, Hcat.
Qed.

Lemma chunks_preserve_words_witness :
  exists chunks,
    split_content_to_chunks (s "one two three four five") 10 = Ok chunks
    /\ concat (map split chunks) = split (s "one two three four five")
    /\ zsum (map (fun c => len (split c)) chunks)
       = len (split (s "one two three four five")).
Proof.
  apply (@chunks_preserve_words (s "one two three four five") 10).
  - discriminate.
  - lia.
Defined.

(** C4: on a non-empty text and a positive bound the splitter returns
    [numChunks = ceil(len(T)/M)] chunks; chunk [i] is the single-space join
    of a block of words, the blocks follow one another in the word list of
    the text and exhaust it, the first [remainder] blocks have [base + 1]
    words and the others [base]. *)
Theorem chunks_even_distribution (content : str) (m : Z) :
  content <> [] -> 0 < m ->
  let numChunks := (len content + m - 1) / m in
  let words := split content in
  let base := len words / numChunks in
  let remainder := len words mod numChunks in
  m * (numChunks - 1) < len content <= m * numChunks
  /\ exists blocks : list (list str),
       split_content_to_chunks content m = Ok (map (join (s " ")) blocks)
       /\ len blocks = numChunks
       /\ concat blocks = words
       /\ forall i : nat, (i < length blocks)%nat ->
            len (nth i blocks [])
            = if Z.of_nat i <? remainder then base + 1 else base.
Proof.
  intros Hne Hm numChunks words base remainder.
  assert (Hlen : 0 < len content).
  { unfold len. destruct content; [congruence|simpl; lia]. }
  split; [apply ceil_div_spec; lia|].
  destruct (split_content_to_chunks_blocks Hne Hm) as (Hres & Hcat & Hsz).
  cbv zeta in Hres, Hcat, Hsz.
  fold numChunks words base remainder in Hres, Hcat, Hsz.
  set (blocks := cut _ _ _ _ _) in *.
  pose proof (@num_messages_pos (len content) m Hm Hlen) as Hn.
  fold numChunks in Hn.
  assert (Hcount : length blocks = Z.to_nat numChunks).
  { unfold blocks. rewrite cut_length. unfold range.
    now rewrite length_map, length_seq. }
  exists blocks. repeat split; try assumption.
  - unfold len. lia.
  - intros i Hi.
    change [] with (@nil str).
    assert (E : nth i (map (@len str) blocks) (len (@nil str))
                = len (nth i blocks [])) by apply map_nth.
    rewrite <- E, Hsz. unfold range. rewrite map_map.
    rewrite nth_indep with (d' := words_in_message base remainder (Z.of_nat 0))
      by (rewrite length_map, length_seq; lia).
    rewrite (map_nth (fun x => words_in_message base remainder (Z.of_nat x))).
    rewrite seq_nth by lia. reflexivity.
Qed.

Lemma chunks_even_distribution_witness :
  let content := s "one two three four five" in
  let numChunks := (len content + 10 - 1) / 10 in
  let words := split content in
  let base := len words / numChunks in
  let remainder := len words mod numChunks in
  10 * (numChunks - 1) < len content <= 10 * numChunks
  /\ exists blocks : list (list str),
       split_content_to_chunks content 10 = Ok (map (join (s " ")) blocks)
       /\ len blocks = numChunks
       /\ concat blocks = words
       /\ forall i : nat, (i < length blocks)%nat ->
            len (nth i blocks [])
            = if Z.of_nat i <? remainder then base + 1 else base.
Proof.
  apply (@chunks_even_distribution (s "one two three four five") 10).
  - discriminate.
  - lia.
Defined.

(** C2: on the empty text the splitter divides by [num_messages = 0]:
    it raises [ZeroDivisionError] for every positive bound and returns
    no sequence of chunks. *)
Theorem split_empty_raises (m : Z) :
  0 < m -> split_content_to_chunks [] m = Raise ZeroDivisionError.
Proof.
  intro Hm. unfold split_content_to_chunks, floordiv.
  destruct (Z.eqb_spec m 0); [lia|]. cbn [bind].
  change (len (@nil ascii)) with 0.
  replace ((0 + m - 1) / m) with 0
    by (symmetry; apply Z.div_small; lia).
  reflexivity.
Qed.

Lemma split_empty_raises_witness :
  split_content_to_chunks [] 8192 = Raise ZeroDivisionError.
Proof. apply (@split_empty_raises 8192). lia. Defined.

(** C3: with the bound 7 the text "a b cccc dddd" of 13 characters is cut
    into two chunks of two words each, and the second has 9 characters. *)
Theorem chunk_longer_than_bound :
  split_content_to_chunks (s "a b cccc dddd") 7
  = Ok [s "a b"; s "cccc dddd"]
  /\ len (s "cccc dddd") = 9 /\ 7 < len (s "cccc dddd").
Proof. repeat split. Qed.

End ChunkClaims.

(** ** Stripping *)

Section Strip.

Import Py.

Variable f : ascii -> bool.

Lemma lstrip_starts_clean x : starts_clean f (lstrip_by f x).
Proof.
  induction x as [|c x IH]; simpl; [exact I|].
  destruct (f c) eqn:E; [assumption|exact E].
Qed.

Lemma lstrip_suffix x : exists p, x = p ++ lstrip_by f x.
Proof.
  induction x as [|c x [p IH]]; simpl.
  - now exists [].
  - destruct (f c).
    + exists (c :: p). simpl. now f_equal.
    + now exists [].
Qed.

Lemma lstrip_id x : starts_clean f x -> lstrip_by f x = x.
Proof. destruct x as [|c x]; simpl; [reflexivity|]. now intros ->. Qed.

Lemma lstrip_app_clean w c t :
  f c = false -> lstrip_by f (w ++ c :: t) = lstrip_by f w ++ c :: t.
Proof.
  intro Hc. induction w as [|a w IH]; simpl.
  - now rewrite Hc.
  - destruct (f a); [assumption|reflexivity].
Qed.

Lemma rstrip_ends_clean x : ends_clean f (rstrip_by f x).
Proof.
  unfold ends_clean, rstrip_by. rewrite rev_involutive.
  apply lstrip_starts_clean.
Qed.

Lemma rstrip_prefix x : exists q, x = rstrip_by f x ++ q.
Proof.
  unfold rstrip_by. destruct (lstrip_suffix (rev x)) as [p Hp].
  exists (rev p). rewrite <- rev_app_distr, <- Hp. now rewrite rev_involutive.
Qed.

Lemma rstrip_starts_clean x : starts_clean f x -> starts_clean f (rstrip_by f x).
Proof.
  destruct x as [|c x]; [intros _; exact I|].
  simpl. intro Hc. unfold rstrip_by. simpl.
  rewrite lstrip_app_clean by assumption.
  rewrite rev_app_distr. simpl. exact Hc.
Qed.

Lemma rstrip_id x : ends_clean f x -> rstrip_by f x = x.
Proof.
  intro H. unfold rstrip_by. rewrite lstrip_id by exact H.
  apply rev_involutive.
Qed.

Lemma strip_clean x :
  starts_clean f (strip_by f x) /\ ends_clean f (strip_by f x).
Proof.
  split.
  - apply rstrip_starts_clean, lstrip_starts_clean.
  - apply rstrip_ends_clean.
Qed.

Lemma strip_infix x : exists p q, x = p ++ strip_by f x ++ q.
Proof.
  destruct (lstrip_suffix x) as [p Hp].
  destruct (rstrip_prefix (lstrip_by f x)) as [q Hq].
  exists p, q. unfold strip_by. now rewrite <- Hq.
Qed.

Lemma strip_id x : starts_clean f x -> ends_clean f x -> strip_by f x = x.
Proof.
  intros Hs He. unfold strip_by. rewrite lstrip_id by assumption.
  now apply rstrip_id.
Qed.

End Strip.

(** ** Substrings *)

Section Substrings.

Import Py.

Lemma startswith_spec x p : startswith x p = true <-> exists r, x = p ++ r.
Proof.
  revert x; induction p as [|a p IH]; intro x.
  - simpl. split; [intros _; now exists x|reflexivity].
  - destruct x as [|b x]; simpl.
    + split; [discriminate|]. intros [r Hr]. discriminate.
    + destruct (Ascii.eqb_spec a b) as [->|Hab]; cbn [andb].
      * rewrite IH. split; intros [r Hr]; exists r; [now subst|congruence].
      * split; [discriminate|]. intros [r Hr]. congruence.
Qed.

Lemma contains_spec p x :
  contains p x = true <-> exists a b, x = a ++ p ++ b.
Proof.
  induction x as [|c x IH].
  - simpl. rewrite orb_false_r, startswith_spec. split.
    + intros [r Hr]. now exists [], r.
    + intros (a & b & H). destruct a; [now exists b|discriminate].
  - cbn [contains]. rewrite orb_true_iff, IH, startswith_spec. split.
    + intros [[r Hr]|(a & b & H)].
      * now exists [], r.
      * exists (c :: a), b. simpl. now f_equal.
    + intros (a & b & H). destruct a as [|a0 a].
      * left. now exists b.
      * right. exists a, b. simpl in H. congruence.
Qed.

Lemma free_of_spec p x : free_of p x <-> contains p x = false.
Proof.
  unfold free_of. split.
  - intro H. destruct (contains p x) eqn:E; [|reflexivity].
    apply contains_spec in E. destruct E as (a & b & E). now apply H in E.
  - intros E a b H.
    assert (contains p x = true) by (apply contains_spec; now exists a, b).
    congruence.
Qed.

Lemma free_of_infix p x a b : free_of p (a ++ x ++ b) -> free_of p x.
Proof.
  intros H a' b' ->. apply (H (a ++ a') (b' ++ b)).
  now rewrite <- !app_assoc.
Qed.

Lemma free_of_tail p c x : free_of p (c :: x) -> free_of p x.
Proof. intro H. apply (@free_of_infix p x [c] []). now rewrite app_nil_r. Qed.

End Substrings.

(** ** Splitting on a separator and into lines *)

Section SplitSep.

Import Py.

Variable sep : str.

Hypothesis sep_nonempty : sep <> [].

Lemma split_sep_go_head x :
  exists p ps r, split_sep_go sep 0 x = p :: ps /\ x = p ++ r.
Proof.
  induction x as [|c x (p & ps & r & IH & Hx)].
  - now exists [], [], [].
  - cbn [split_sep_go]. destruct (startswith (c :: x) sep).
    + now exists [], (split_sep_go sep (length sep - 1) x), (c :: x).
    + rewrite IH. exists (c :: p), ps, r. simpl. now rewrite Hx at 1.
Qed.

Lemma free_of_nil : free_of sep [].
Proof.
  intros a b H. symmetry in H.
  apply app_eq_nil in H. destruct H as [_ H].
  apply app_eq_nil in H. now destruct H.
Qed.

(** No piece contains the separator. *)
Lemma split_sep_go_free x k : Forall (free_of sep) (split_sep_go sep k x).
Proof.
  revert k; induction x as [|c x IH]; intro k.
  - simpl. constructor; [apply free_of_nil|constructor].
  - cbn [split_sep_go]. destruct k as [|k]; [|apply IH].
    destruct (startswith (c :: x) sep) eqn:E.
    + constructor; [apply free_of_nil|apply IH].
    + destruct (split_sep_go_head x) as (p & ps & r & Hp & Hx).
      pose proof (IH 0) as Hall. rewrite Hp in *. cbn [push].
      apply Forall_cons_iff in Hall. destruct Hall as [Hfree Hrest].
      constructor; [|assumption].
      apply free_of_spec. cbn [contains].
      apply free_of_spec in Hfree. rewrite Hfree, orb_false_r.
      destruct (startswith (c :: p) sep) eqn:E'; [|reflexivity].
      apply startswith_spec in E'. destruct E' as [r' Hr'].
      assert (startswith (c :: x) sep = true) as E''.
      { apply startswith_spec. exists (r' ++ r).
        rewrite Hx, app_comm_cons, Hr'. now rewrite app_assoc. }
      congruence.
Qed.

(** A text that does not contain the separator is its only piece. *)
Lemma split_sep_free x : free_of sep x -> split_sep x sep = [x].
Proof.
  unfold split_sep. induction x as [|c x IH]; intro H; [reflexivity|].
  cbn [split_sep_go]. destruct (startswith (c :: x) sep) eqn:E.
  - apply startswith_spec in E. destruct E as [r Hr].
    exfalso. now apply (H [] r).
  - rewrite IH by (eapply free_of_tail; eassumption). reflexivity.
Qed.

Lemma split_sep_go_chars (P : ascii -> Prop) x k :
  Forall P x -> Forall (Forall P) (split_sep_go sep k x).
Proof.
  revert k; induction x as [|c x IH]; intros k Hx.
  - simpl. repeat constructor.
  - inversion Hx as [|? ? Hc Hx']; subst.
    cbn [split_sep_go]. destruct k as [|k]; [|now apply IH].
    destruct (startswith (c :: x) sep).
    + constructor; [constructor|now apply IH].
    + specialize (IH 0 Hx'). destruct (split_sep_go sep 0 x) as [|p ps].
      * repeat constructor. assumption.
      * inversion IH; subst. cbn [push]. constructor; [now constructor|assumption].
Qed.

End SplitSep.

(** ** Lines *)

Section SplitLines.

Import Py.

Lemma splitlines_go_one_line x cur cr :
  one_line cur -> Forall one_line (splitlines_go cur cr x).
Proof.
  revert cur cr; induction x as [|c x IH]; intros cur cr Hcur.
  - simpl. destruct cur; constructor; [|constructor].
    now apply Forall_rev.
  - cbn [splitlines_go].
    destruct (cr && (code c =? 10)%N); [now apply IH|].
    destruct (islinebreak c) eqn:E.
    + constructor; [now apply Forall_rev|]. apply IH. constructor.
    + apply IH. now constructor.
Qed.

Lemma splitlines_one_line x : Forall one_line (splitlines x).
Proof. apply splitlines_go_one_line. constructor. Qed.

Lemma splitlines_go_single x cur :
  one_line x ->
  splitlines_go cur false x
  = match rev cur ++ x with [] => [] | l => [l] end.
Proof.
  revert cur; induction x as [|c x IH]; intros cur Hx.
  - simpl. rewrite app_nil_r. destruct cur as [|d cur]; [reflexivity|].
    destruct (rev (d :: cur)) eqn:E; [|reflexivity].
    apply (f_equal (@length _)) in E. rewrite length_rev in E. discriminate.
  - inversion Hx as [|? ? Hc Hx']; subst.
    cbn [splitlines_go andb]. rewrite Hc. rewrite IH by assumption.
    simpl. now rewrite <- app_assoc.
Qed.

(** A non-empty text without line boundary is its only line. *)
Lemma splitlines_single x : x <> [] -> one_line x -> splitlines x = [x].
Proof.
  intros Hne Hx. unfold splitlines. rewrite splitlines_go_single by assumption.
  simpl. destruct x; [congruence|reflexivity].
Qed.

Lemma linebreak_isspace c : islinebreak c = true -> isspace c = true.
Proof.
  destruct c as [[] [] [] [] [] [] [] []]; vm_compute; congruence.
Qed.

End SplitLines.

(** ** The cleaned-up text *)

Section CleanText.

Import Py.

Lemma sep2_nonempty : s "  " <> [].
Proof. discriminate. Qed.

Lemma normal_nil : normal [].
Proof.
  split; try exact I.
  - apply free_of_nil, sep2_nonempty.
  - constructor.
Qed.

Lemma ends_clean_tail f c x : x <> [] -> ends_clean f (c :: x) -> ends_clean f x.
Proof.
  unfold ends_clean. simpl. intros Hne H.
  destruct (rev x) eqn:E; [|exact H].
  apply (f_equal (@rev _)) in E. rewrite rev_involutive in E. now subst.
Qed.

Lemma ends_clean_app f x y : y <> [] -> ends_clean f y -> ends_clean f (x ++ y).
Proof.
  unfold ends_clean. intros Hne H. rewrite rev_app_distr.
  destruct (rev y) eqn:E; [|exact H].
  apply (f_equal (@rev _)) in E. rewrite rev_involutive in E. now subst.
Qed.

Lemma starts_clean_app f x y : x <> [] -> starts_clean f x -> starts_clean f (x ++ y).
Proof. destruct x; [congruence|]. intros _ H. exact H. Qed.

(** Gluing two texts with one space creates no pair of spaces. *)
Lemma free_glue p j :
  p <> [] -> ends_clean isspace p -> free_of (s "  ") p ->
  starts_clean isspace j -> free_of (s "  ") j ->
  free_of (s "  ") (p ++ " "%char :: j).
Proof.
  intros Hne He Hp Hsj Hj. apply free_of_spec.
  apply free_of_spec in Hj.
  induction p as [|c p IH]; [congruence|].
  destruct p as [|d p].
  - cbn [app contains]. rewrite Hj.
    unfold ends_clean in He. simpl in He.
    assert (startswith (c :: " "%char :: j) (s "  ") = false) as ->.
    { cbn [s list_ascii_of_string startswith].
      destruct (Ascii.eqb_spec " " c) as [<-|]; [discriminate He|reflexivity]. }
    assert (startswith (" "%char :: j) (s "  ") = false) as ->.
    { cbn [s list_ascii_of_string startswith]. destruct j as [|a j]; [reflexivity|].
      destruct (Ascii.eqb_spec " " a) as [<-|]; [discriminate Hsj|reflexivity]. }
    reflexivity.
  - change ((c :: d :: p) ++ " "%char :: j)
      with (c :: (d :: p) ++ " "%char :: j).
    cbn [contains]. rewrite IH.
    + rewrite orb_false_r.
      apply free_of_spec in Hp. cbn [contains] in Hp.
      apply orb_false_elim in Hp. destruct Hp as [Hp _].
      change (startswith (c :: (d :: p) ++ " "%char :: j) (s "  "))
        with (startswith (c :: d :: p) (s "  ")).
      exact Hp.
    + discriminate.
    + eapply ends_clean_tail; [discriminate|eassumption].
    + eapply free_of_tail; eassumption.
Qed.

Lemma join_nonempty p ps : p <> [] -> join (s " ") (p :: ps) <> [].
Proof.
  intro Hp. destruct ps; cbn [join]; [assumption|].
  destruct p; [congruence|discriminate].
Qed.

(** The single-space join of non-empty normal fragments is normal. *)
Lemma join_normal frags :
  Forall (fun x => x <> [] /\ normal x) frags -> normal (join (s " ") frags).
Proof.
  induction 1 as [|p ps [Hne Hp] Hps IH]; [apply normal_nil|].
  destruct ps as [|q ps]; [exact Hp|].
  change (join (s " ") (p :: q :: ps))
    with (p ++ " "%char :: join (s " ") (q :: ps)).
  assert (Hj : join (s " ") (q :: ps) <> []).
  { apply join_nonempty. inversion Hps as [|? ? [Hq _] _]. exact Hq. }
  destruct Hp as [Hp1 Hp2 Hp3 Hp4]. destruct IH as [Hj1 Hj2 Hj3 Hj4].
  split.
  - now apply starts_clean_app.
  - apply ends_clean_app; [discriminate|].
    change (" "%char :: join (s " ") (q :: ps))
      with ([" "%char] ++ join (s " ") (q :: ps)).
    now apply ends_clean_app.
  - now apply free_glue.
  - apply Forall_app. split; [assumption|]. now constructor.
Qed.

Lemma one_line_infix p x q : one_line (p ++ x ++ q) -> one_line x.
Proof.
  unfold one_line. rewrite !Forall_app. tauto.
Qed.

Lemma strip_normal x :
  free_of (s "  ") x -> one_line x -> normal (strip x).
Proof.
  intros Hf Hl. destruct (strip_clean isspace x) as [H1 H2].
  destruct (strip_infix isspace x) as (p & q & Hx).
  split; try assumption.
  - apply (@free_of_infix (s "  ") (strip x) p q). unfold strip. now rewrite <- Hx.
  - apply (@one_line_infix p (strip x) q). unfold strip. now rewrite <- Hx.
Qed.

Lemma strip_one_line x : one_line x -> one_line (strip x).
Proof.
  intro Hl. destruct (strip_infix isspace x) as (p & q & Hx).
  apply (@one_line_infix p (strip x) q). unfold strip. now rewrite <- Hx.
Qed.

Lemma nonempty_spec x : nonempty x = true <-> x <> [].
Proof. destruct x; simpl; split; congruence. Qed.

Lemma clean_up_whitespace_normal text : normal (clean_up_whitespace text).
Proof.
  unfold clean_up_whitespace. apply join_normal.
  apply Forall_forall. intros x Hx.
  apply filter_In in Hx. destruct Hx as [Hx Hne].
  split; [now apply nonempty_spec|].
  apply in_flat_map in Hx. destruct Hx as (line & Hline & Hx).
  apply in_map_iff in Hx. destruct Hx as (piece & <- & Hpiece).
  apply in_map_iff in Hline. destruct Hline as (raw & <- & Hraw).
  assert (Hraw1 : one_line raw).
  { pose proof (splitlines_one_line text) as H.
    rewrite Forall_forall in H. now apply H. }
  apply strip_one_line in Hraw1.
  apply strip_normal.
  - pose proof (split_sep_go_free sep2_nonempty (strip raw) 0) as H.
    rewrite Forall_forall in H. now apply H.
  - pose proof (@split_sep_go_chars (s "  ") _ (strip raw) 0 Hraw1) as H.
    rewrite Forall_forall in H. now apply H.
Qed.

(** On a normal text the clean-up changes nothing. *)
Lemma clean_up_whitespace_fixed x : normal x -> clean_up_whitespace x = x.
Proof.
  intros [H1 H2 H3 H4]. destruct x as [|c x]; [reflexivity|].
  unfold clean_up_whitespace.
  rewrite splitlines_single by (discriminate || assumption).
  cbn [map flat_map]. unfold strip. rewrite strip_id by assumption.
  rewrite split_sep_free by assumption.
  cbn [map app]. rewrite strip_id by assumption. reflexivity.
Qed.

End CleanText.

(** ** The clean-up: what it guarantees, and idempotence *)

Section CleanTextClaims.

Import Py.



(** C10: cleaning up a cleaned-up text changes nothing. *)
Theorem clean_up_whitespace_idempotent (text : str) :
  clean_up_whitespace (clean_up_whitespace text) = clean_up_whitespace text.
Proof. apply clean_up_whitespace_fixed, clean_up_whitespace_normal. Qed.

End CleanTextClaims.

(** ** File names *)

Section FileNameSpec.

Import Py Url.

Variable bracketed_netloc_ok : str -> bool.

Lemma replace_char c d x :
  replace x [c] [d] = map (fun a => if Ascii.eqb c a then d else a) x.
Proof.
  unfold replace. induction x as [|a x IH]; [reflexivity|].
  cbn [replace_go startswith map length Nat.sub].
  rewrite andb_true_r. destruct (Ascii.eqb c a); cbn [app]; now rewrite IH.
Qed.

Lemma re_sub_class_char class d x :
  re_sub_class class [d] x = map (fun a => if inset class a then d else a) x.
Proof.
  unfold re_sub_class. induction x as [|a x IH]; [reflexivity|].
  cbn [flat_map map]. rewrite IH. now destruct (inset class a).
Qed.

Lemma substitute_all c :
  (fun a => if inset invalid_chars a then "_"%char else a)
    ((fun a => if Ascii.eqb "+" a then "_"%char else a)
      ((fun a => if Ascii.eqb "." a then "_"%char else a)
        ((fun a => if Ascii.eqb "\" a then "_"%char else a)
          ((fun a => if Ascii.eqb "/" a then "_"%char else a) c))))
  = if inset (separators ++ invalid_chars) c then "_"%char else c.
Proof. destruct c as [[] [] [] [] [] [] [] []]; reflexivity. Qed.

Lemma get_filename_sanitize url extension parsed :
  urlparse bracketed_netloc_ok url = Ok parsed ->
  _get_filename_from_url bracketed_netloc_ok url extension
  = Ok (last_chars 16 (sanitize_replacing (host_and_path parsed))
        ++ s "." ++ extension).
Proof.
  intro H.
  unfold _get_filename_from_url, sanitize_replacing, host_and_path.
  rewrite H. cbn [bind]. f_equal.
  change (s "/") with ["/"%char]. change (s "\") with ["\"%char].
  change (s ".") with ["."%char]. change (s "+") with ["+"%char].
  change (s "_") with ["_"%char].
  rewrite !replace_char, re_sub_class_char, !map_map.
  rewrite (map_ext _ _ substitute_all). reflexivity.
Qed.

Lemma get_filename_raises url extension e :
  urlparse bracketed_netloc_ok url = Raise e ->
  _get_filename_from_url bracketed_netloc_ok url extension = Raise e.
Proof. intro H. unfold _get_filename_from_url. rewrite H. reflexivity. Qed.


Lemma last_chars_length k x : length (last_chars k x) <= k.
Proof. unfold last_chars. rewrite length_skipn. lia. Qed.

End FileNameSpec.

(** ** The derived file name *)

(** C9, as stated, fails: the colon of a path is replaced by an
    underscore, not taken out. *)
Lemma filename_colon_not_stripped :
  Url.urlparse accept_brackets (Py.s "https://en.wikipedia.org/wiki/Help:Contents")
  = Py.Ok {| Url.scheme := Py.s "https"; Url.netloc := Py.s "en.wikipedia.org";
             Url.path := Py.s "/wiki/Help:Contents"; Url.params := [];
             Url.query := []; Url.fragment := [] |}
  /\ _get_filename_from_url accept_brackets
       (Py.s "https://en.wikipedia.org/wiki/Help:Contents") (Py.s "txt")
     = Py.Ok (Py.s "ki_Help_Contents.txt")
  /\ Py.last_chars 16 (sanitize_stripping
                         (Py.s "en.wikipedia.org" ++ Py.s "/wiki/Help:Contents"))
       ++ Py.s "." ++ Py.s "txt"
     <> Py.s "ki_Help_Contents.txt".
Proof. split; [reflexivity|split; [reflexivity|discriminate]]. Qed.

Section FileNameClaims.

Import Py Url.

Variable bracketed_netloc_ok : str -> bool.

(** C9, amended: for a URL that [urlparse] parses, the file name is the
    last 16 characters of the network location and path of the URL, in
    which slashes, backslashes, dots, plus signs and the invalid
    characters are replaced by underscores, trimmed of dots and spaces at
    both ends and replaced by "webpage" when empty, followed by a dot and
    the extension; for a URL at which [urlparse] raises [ValueError], a
    malformed bracketed host, the function raises it too.  An HTML page
    fetched from https://Example.com/a/b/c.html is saved, after the
    ".html" suffix is taken off the URL, under the last 16 characters of
    "example_com_a_b_c" and ".html". *)
Theorem derived_filename (url extension : str) :
  (forall parsed,
     urlparse bracketed_netloc_ok url = Ok parsed ->
     _get_filename_from_url bracketed_netloc_ok url extension
     = Ok (last_chars 16 (sanitize_replacing (host_and_path parsed))
           ++ s "." ++ extension)
     /\ (length (last_chars 16 (sanitize_replacing (host_and_path parsed)))
         <= 16)%nat)
  /\ (forall e,
       urlparse bracketed_netloc_ok url = Raise e ->
       _get_filename_from_url bracketed_netloc_ok url extension = Raise e)
  /\ get_webpage_file_name bracketed_netloc_ok
       (s "text/html") (s "https://Example.com/a/b/c.html")
     = Ok (last_chars 16 (s "example_com_a_b_c") ++ s ".html").
Proof.
  split; [|split].
  - intros parsed H.
    split; [apply (@get_filename_sanitize _ _ _ _ H)|apply last_chars_length].
  - intros e H. apply (@get_filename_raises _ _ _ _ H).
  - reflexivity.
Qed.

End FileNameClaims.

Lemma derived_filename_witness :
  (_get_filename_from_url accept_brackets
     (Py.s "https://Example.com/a/b/c") (Py.s "html")
   = Py.Ok (Py.s "xample_com_a_b_c.html")
   /\ (length (Py.s "xample_com_a_b_c") <= 16)%nat)
  /\ _get_filename_from_url accept_brackets (Py.s "http://[x/path") (Py.s "txt")
     = Py.Raise Py.ValueError.
Proof.
  destruct (@derived_filename accept_brackets
              (Py.s "https://Example.com/a/b/c") (Py.s "html")) as (H1 & _).
  destruct (@derived_filename accept_brackets
              (Py.s "http://[x/path") (Py.s "txt")) as (_ & H2 & _).
  split; [exact (H1 _ eq_refl)|exact (H2 _ eq_refl)].
Defined.

(** ** Extensions *)

Section Extensions.

Import Py Url.

Variable bracketed_netloc_ok : str -> bool.

Lemma span_until_chars (P : ascii -> Prop) f x :
  Forall P x ->
  Forall P (fst (span_until f x)) /\ Forall P (snd (span_until f x)).
Proof.
  induction 1 as [|c x Hc Hx [IH1 IH2]]; simpl.
  - split; constructor.
  - destruct (f c).
    + split; constructor; assumption.
    + destruct (span_until f x) as [a b]. simpl in *.
      split; [now constructor|assumption].
Qed.

Lemma Forall_tl (A : Type) (P : A -> Prop) (l : list A) :
  Forall P l -> Forall P (tl l).
Proof. destruct 1; [constructor|assumption]. Qed.

Lemma split_scheme_chars (P : ascii -> Prop) url :
  Forall P url -> Forall P (snd (split_scheme url)).
Proof.
  intro H. unfold split_scheme.
  destruct (span_until_chars (is_char ":") H) as [_ H2].
  destruct (span_until (is_char ":") url) as [[|c pre] [|d rest]];
    try exact H.
  destruct (_ && _); [|exact H].
  simpl in *. now inversion H2.
Qed.

Lemma split_netloc_chars (P : ascii -> Prop) url :
  Forall P url -> Forall P (snd (split_netloc url)).
Proof.
  intro H. unfold split_netloc.
  destruct (startswith url (s "//")); [|exact H].
  apply span_until_chars. rewrite <- (firstn_skipn 2 url) in H.
  apply Forall_app in H. tauto.
Qed.

Lemma split_first_chars (P : ascii -> Prop) c url :
  Forall P url -> Forall P (fst (split_first c url)).
Proof.
  intro H. unfold split_first.
  destruct (span_until_chars (is_char c) H) as [H1 _].
  now destruct (span_until (is_char c) url).
Qed.

Lemma splitparams_chars (P : ascii -> Prop) url :
  Forall P url -> Forall P (fst (splitparams url)).
Proof.
  intro H. unfold splitparams.
  assert (Hr : Forall P (rev url)) by now apply Forall_rev.
  destruct (span_until_chars (is_char "/") Hr) as [H1 H2].
  destruct (span_until (is_char "/") (rev url)) as [rsegment rdir].
  simpl in H1, H2. apply Forall_rev in H1.
  destruct (span_until_chars (is_char ";") H1) as [H3 _].
  destruct (span_until (is_char ";") (rev rsegment)) as [seg par].
  simpl in *. apply Forall_app. split; [now apply Forall_rev|assumption].
Qed.

(** The path of a parsed URL holds no TAB, LF or CR. *)
Lemma urlparse_path_safe url parsed :
  urlparse bracketed_netloc_ok url = Ok parsed -> Forall safe (path parsed).
Proof.
  unfold urlparse.
  set (u0 := filter _ _).
  assert (H0 : Forall safe u0).
  { apply Forall_forall. intros c Hc. apply filter_In in Hc.
    destruct Hc as [_ Hc]. unfold safe. now destruct (unsafe_to_remove c). }
  pose proof (split_scheme_chars H0) as H1.
  destruct (split_scheme u0) as [sch u1]. simpl in H1.
  pose proof (split_netloc_chars H1) as H2.
  destruct (split_netloc u1) as [loc u2]. simpl in H2.
  destruct (negb (netloc_ok bracketed_netloc_ok loc)); [discriminate|].
  pose proof (split_first_chars "#" H2) as H3.
  destruct (split_first "#" u2) as [u3 frag]. simpl in H3.
  pose proof (split_first_chars "?" H3) as H4.
  destruct (split_first "?" u3) as [u4 qry]. simpl in H4.
  destruct (existsb (str_eqb sch) uses_params).
  - pose proof (splitparams_chars H4) as H5.
    destruct (splitparams u4) as [u5 par]. intros [= <-]. exact H5.
  - intros [= <-]. exact H4.
Qed.

End Extensions.

(** ** The extension of a response that is no HTML page *)

Section ExtensionClaims.

Import Py Url.

Variable bracketed_netloc_ok : str -> bool.

Lemma endswith_spec x p : endswith x p = true <-> exists a, x = a ++ p.
Proof.
  unfold endswith. rewrite startswith_spec. split.
  - intros [r Hr]. exists (rev r).
    rewrite <- (rev_involutive x), Hr, rev_app_distr.
    now rewrite rev_involutive.
  - intros [a ->]. exists (rev a). apply rev_app_distr.
Qed.

(** The last piece of a split on one character. *)
Lemma split_char_go c a x :
  split_sep_go [c] 0 (a :: x)
  = if Ascii.eqb c a then [] :: split_sep_go [c] 0 x
    else push a (split_sep_go [c] 0 x).
Proof. cbn [split_sep_go startswith length Nat.sub]. now rewrite andb_true_r. Qed.

Lemma split_sep_go_two c p w :
  (2 <= length (split_sep_go [c] 0 (p ++ c :: w)))%nat.
Proof.
  induction p as [|a p IH].
  - cbn [app]. rewrite split_char_go, Ascii.eqb_refl.
    destruct (split_sep_go_head [c] w) as (q & qs & _ & -> & _).
    simpl. lia.
  - cbn [app]. rewrite split_char_go. destruct (Ascii.eqb c a).
    + simpl. lia.
    + destruct (split_sep_go [c] 0 (p ++ c :: w)) as [|q qs]; simpl in *; lia.
Qed.

Lemma last_push a (l : list str) :
  (2 <= length l)%nat -> last (push a l) [] = last l [].
Proof. destruct l as [|p [|q l]]; simpl; try lia. reflexivity. Qed.

Lemma last_cons_nonempty (p : str) (l : list str) :
  (1 <= length l)%nat -> last (p :: l) [] = last l [].
Proof. destruct l; simpl; [lia|reflexivity]. Qed.

Lemma split_char_last c p w :
  last (split_sep (p ++ c :: w) [c]) [] = last (split_sep w [c]) [].
Proof.
  unfold split_sep. induction p as [|a p IH].
  - cbn [app]. rewrite split_char_go, Ascii.eqb_refl.
    apply last_cons_nonempty.
    destruct (split_sep_go_head [c] w) as (q & qs & _ & -> & _). simpl. lia.
  - cbn [app]. rewrite split_char_go.
    pose proof (split_sep_go_two c p w).
    destruct (Ascii.eqb c a).
    + rewrite last_cons_nonempty by lia. exact IH.
    + rewrite last_push by assumption. exact IH.
Qed.

Lemma Forall_last (P : ascii -> Prop) (l : list str) :
  Forall (Forall P) l -> Forall P (last l []).
Proof.
  induction 1 as [|p l Hp Hl IH]; [constructor|].
  destruct l; [exact Hp|exact IH].
Qed.

Lemma lower_char_safe c : safe c -> safe (lower_char c).
Proof. unfold safe. destruct c as [[] [] [] [] [] [] [] []]; vm_compute; congruence. Qed.

Lemma lower_safe x : Forall safe x -> Forall safe (lower x).
Proof.
  unfold lower. induction 1; simpl; constructor;
    [now apply lower_char_safe|assumption].
Qed.

(** Without a line feed at the end, [$] matches at the end only. *)
Lemma match_extension_spec x :
  Forall safe x ->
  match_extension x = true <->
  (1 <= length x <= 5)%nat /\ forallb isalnum_ascii x = true.
Proof.
  intro Hx. unfold match_extension.
  assert (E : endswith x ["010"%char] = false).
  { destruct (endswith x ["010"%char]) eqn:E; [|reflexivity].
    apply endswith_spec in E. destruct E as [a ->].
    apply Forall_app in Hx. destruct Hx as [_ Hx].
    inversion Hx as [|? ? Hc _]. discriminate Hc. }
  rewrite E, !andb_true_iff, Nat.leb_le, nonempty_spec.
  split.
  - intros [[Hne Hle] Hall]. repeat split; try assumption.
    destruct x; [congruence|simpl; lia].
  - intros [[H1 H5] Hall]. repeat split; try assumption.
    intros ->. simpl in H1. lia.
Qed.

Lemma url_suffix_safe url parsed :
  urlparse bracketed_netloc_ok url = Ok parsed ->
  Forall safe (url_suffix (path parsed)).
Proof.
  intro H. apply lower_safe, Forall_last.
  apply split_sep_go_chars, (@urlparse_path_safe _ _ _ H).
Qed.

Lemma file_extension_fallback content_type url parsed :
  no_content_type_match content_type ->
  urlparse bracketed_netloc_ok url = Ok parsed ->
  file_extension bracketed_netloc_ok content_type url
  = Ok (if contains (s ".") (path parsed)
           && match_extension (url_suffix (path parsed))
        then url_suffix (path parsed) else s "bin").
Proof.
  unfold no_content_type_match, file_extension. intros -> ->.
  change (str_eqb (s "bin") (s "bin")) with true. cbv iota. cbn [bind].
  fold (url_suffix (path parsed)).
  destruct (contains (s ".") (path parsed)); [|reflexivity].
  now destruct (match_extension (url_suffix (path parsed))).
Qed.

Lemma file_extension_raises content_type url e :
  no_content_type_match content_type ->
  urlparse bracketed_netloc_ok url = Raise e ->
  file_extension bracketed_netloc_ok content_type url = Raise e.
Proof.
  unfold no_content_type_match, file_extension. intros -> ->. reflexivity.
Qed.

Lemma csv_suffix url_path :
  endswith url_path (s ".CSV") = true ->
  contains (s ".") url_path = true /\ url_suffix url_path = s "csv".
Proof.
  intro H. apply endswith_spec in H. destruct H as [a Ha]. split.
  - apply contains_spec. exists a, (s "CSV"). exact Ha.
  - unfold url_suffix. rewrite Ha.
    change (s ".CSV") with ("."%char :: s "CSV"). change (s ".") with ["."%char].
    rewrite split_char_last. reflexivity.
Qed.

(** C6: the extension of a non-HTML response.  A content type that
    contains "application/pdf" gives "pdf" whatever the URL, which is not
    parsed then.  For a URL that [urlparse] parses: without a content
    type a URL path that ends in ".CSV" gives "csv"; without a content
    type match a path without a dot, or whose lower-cased suffix is not
    made of one to five letters and digits, gives "bin"; and whenever the
    fallback gives something else than "bin" it is that suffix, made of
    one to five letters and digits.  For a URL at which [urlparse] raises
    [ValueError], a malformed bracketed host, the fallback raises it
    too. *)
Theorem classifier_extension (content_type url : str) :
  (contains (s "application/pdf") content_type = true ->
   file_extension bracketed_netloc_ok content_type url = Ok (s "pdf"))
  /\ (forall parsed,
       urlparse bracketed_netloc_ok url = Ok parsed ->
       (endswith (path parsed) (s ".CSV") = true ->
        file_extension bracketed_netloc_ok [] url = Ok (s "csv"))
       /\ (no_content_type_match content_type ->
           contains (s ".") (path parsed) = false
           \/ ~ ((1 <= length (url_suffix (path parsed)) <= 5)%nat
                 /\ forallb isalnum_ascii (url_suffix (path parsed)) = true) ->
           file_extension bracketed_netloc_ok content_type url = Ok (s "bin"))
       /\ (no_content_type_match content_type ->
           file_extension bracketed_netloc_ok content_type url <> Ok (s "bin") ->
           file_extension bracketed_netloc_ok content_type url
           = Ok (url_suffix (path parsed))
           /\ (1 <= length (url_suffix (path parsed)) <= 5)%nat
           /\ forallb isalnum_ascii (url_suffix (path parsed)) = true))
  /\ (forall e,
       no_content_type_match content_type ->
       urlparse bracketed_netloc_ok url = Raise e ->
       file_extension bracketed_netloc_ok content_type url = Raise e).
Proof.
  split; [|split].
  - intro H. unfold file_extension, content_type_table.
    cbn [map extension_of_content_type existsb]. rewrite H. reflexivity.
  - intros parsed Hp. split; [|split].
    + intro H. destruct (@csv_suffix _ H) as [Hdot Hsuf].
      rewrite (@file_extension_fallback [] url parsed eq_refl Hp).
      rewrite Hdot, Hsuf. reflexivity.
    + intros Hno H. rewrite (@file_extension_fallback _ _ _ Hno Hp).
      destruct H as [-> | H]; [reflexivity|].
      destruct (match_extension (url_suffix (path parsed))) eqn:E.
      * exfalso. apply H.
        now apply (@match_extension_spec _ (@url_suffix_safe _ _ Hp)).
      * now rewrite andb_false_r.
    + intros Hno Hne. rewrite (@file_extension_fallback _ _ _ Hno Hp) in *.
      destruct (match_extension (url_suffix (path parsed))) eqn:E.
      * apply (@match_extension_spec _ (@url_suffix_safe _ _ Hp)) in E.
        split; [|exact E].
        destruct (contains _ _); [reflexivity|now cbn [andb] in Hne].
      * rewrite andb_false_r in Hne. congruence.
  - intros e Hno He. apply (@file_extension_raises _ _ _ Hno He).
Qed.

End ExtensionClaims.

Lemma classifier_extension_witness :
  file_extension accept_brackets (Py.s "application/pdf; charset=binary")
    (Py.s "https://x.com/report.CSV")
  = Py.Ok (Py.s "pdf")
  /\ file_extension accept_brackets [] (Py.s "https://x.com/report.CSV")
     = Py.Ok (Py.s "csv")
  /\ file_extension accept_brackets [] (Py.s "https://x.com/noext")
     = Py.Ok (Py.s "bin")
  /\ (file_extension accept_brackets [] (Py.s "https://x.com/archive.tar.GZ")
      = Py.Ok (url_suffix (Py.s "/archive.tar.GZ"))
      /\ (1 <= length (url_suffix (Py.s "/archive.tar.GZ")) <= 5)%nat
      /\ forallb isalnum_ascii (url_suffix (Py.s "/archive.tar.GZ")) = true)
  /\ file_extension accept_brackets [] (Py.s "http://[x/report.CSV")
     = Py.Raise Py.ValueError.
Proof.
  split; [|split; [|split; [|split]]].
  - destruct (@classifier_extension accept_brackets
                (Py.s "application/pdf; charset=binary")
                (Py.s "https://x.com/report.CSV")) as (Ha & _).
    apply Ha. reflexivity.
  - destruct (@classifier_extension accept_brackets []
                (Py.s "https://x.com/report.CSV")) as (_ & H & _).
    destruct (H _ eq_refl) as (Hb & _). apply Hb. reflexivity.
  - destruct (@classifier_extension accept_brackets []
                (Py.s "https://x.com/noext")) as (_ & H & _).
    destruct (H _ eq_refl) as (_ & Hc & _).
    apply Hc; [reflexivity|]. left. reflexivity.
  - destruct (@classifier_extension accept_brackets []
                (Py.s "https://x.com/archive.tar.GZ")) as (_ & H & _).
    destruct (H _ eq_refl) as (_ & _ & Hd).
    apply Hd; [reflexivity|discriminate].
  - destruct (@classifier_extension accept_brackets []
                (Py.s "http://[x/report.CSV")) as (_ & _ & He).
    apply (He Py.ValueError); reflexivity.
Defined.

(** ** Trees *)

Section Trees.

Import Py Bs4.

Lemma node_induction (P : node -> Prop) :
  (forall i nm at_ cs, Forall P cs -> P (Tag i nm at_ cs)) ->
  (forall x, P (NavigableString x)) ->
  (forall x, P (Comment x)) ->
  forall n, P n.
Proof.
  intros Htag Hstr Hcom. fix IH 1. intros [i nm at_ cs|x|x].
  - apply Htag. induction cs as [|c cs IHcs]; constructor.
    + apply IH.
    + exact IHcs.
  - apply Hstr.
  - apply Hcom.
Qed.

Lemma sub_forest_refl (R : node -> node -> Prop) l :
  Forall (fun c => R c c) l -> sub_forest R l l.
Proof. induction 1; constructor; assumption. Qed.

Lemma pruned_refl n : pruned n n.
Proof.
  induction n using node_induction; constructor.
  now apply sub_forest_refl.
Qed.

Lemma sub_forest_trans l3 :
  Forall (fun c => forall a b, pruned a b -> pruned b c -> pruned a c) l3 ->
  forall l2, sub_forest pruned l2 l3 ->
  forall l1, sub_forest pruned l1 l2 -> sub_forest pruned l1 l3.
Proof.
  intros Hall l2 H23. induction H23 as [|c l2 l3 H23 IH|b c l2 l3 Hbc H23 IH];
    intros l1 H12.
  - exact H12.
  - constructor. apply IH; [|assumption]. now inversion Hall.
  - inversion Hall as [|? ? Hc Hall']; subst.
    inversion H12 as [|? ? ? H12'|a ? l1' ? Hab H12']; subst.
    + constructor. now apply IH.
    + constructor; [now apply (Hc a b)|now apply IH].
Qed.

Lemma pruned_trans a b c : pruned a b -> pruned b c -> pruned a c.
Proof.
  revert a b. induction c as [i nm at_ cs IH|x|x] using node_induction;
    intros a b Hab Hbc.
  - inversion Hbc as [? ? ? cs2 ? H23| |]; subst.
    inversion Hab as [? ? ? cs1 ? H12| |]; subst.
    constructor. now apply (sub_forest_trans IH H23).
  - inversion Hbc; subst. exact Hab.
  - inversion Hbc; subst. exact Hab.
Qed.

Lemma pruned_shell r t : pruned r t -> shell r = shell t.
Proof. now destruct 1. Qed.

Lemma pruned_is_tag r t : pruned r t -> is_tag r = is_tag t.
Proof. now destruct 1. Qed.

Lemma sub_forest_In R l' l c' :
  sub_forest R l' l -> In c' l' -> exists c, In c l /\ R c' c.
Proof.
  induction 1 as [|c l' l H IH|d' d l' l Hd H IH]; intro Hin.
  - destruct Hin.
  - destruct (IH Hin) as (x & Hx & HR). exists x. split; [now right|assumption].
  - destruct Hin as [<-|Hin].
    + exists d. split; [now left|assumption].
    + destruct (IH Hin) as (x & Hx & HR). exists x. split; [now right|assumption].
Qed.

Lemma in_descendants i nm at_ cs e :
  In e (descendants (Tag i nm at_ cs)) <->
  exists c, In c cs /\ (e = c \/ In e (descendants c)).
Proof.
  cbn [descendants]. rewrite in_flat_map. split.
  - intros (c & Hc & [<-|He]); exists c; auto.
  - intros (c & Hc & [->|He]); exists c; split; auto; [now left|now right].
Qed.

(** Every node below a pruned tree comes from a node below the tree. *)
Lemma pruned_descendants r :
  forall t, pruned r t ->
  forall e, In e (descendants r) ->
  exists e', In e' (descendants t) /\ pruned e e'.
Proof.
  induction r as [i nm at_ cs' IH|x|x] using node_induction;
    intros t Hrt e He; try (now destruct He).
  inversion Hrt as [? ? ? ? cs Hcs| |]; subst.
  apply in_descendants in He. destruct He as (c' & Hc' & He).
  destruct (sub_forest_In c' Hcs Hc') as (c & Hc & Hcc).
  destruct He as [->|He].
  - exists c. split; [|assumption]. apply in_descendants. exists c. auto.
  - rewrite Forall_forall in IH.
    destruct (IH c' Hc' c Hcc e He) as (e' & He' & Hee).
    exists e'. split; [|assumption]. apply in_descendants. exists c. auto.
Qed.

Lemma in_tags e n : In e (tags n) <-> In e (descendants n) /\ is_tag e = true.
Proof. unfold tags. apply filter_In. Qed.

Lemma pruned_tags r t e :
  pruned r t -> In e (tags r) ->
  exists e', In e' (tags t) /\ shell e' = shell e.
Proof.
  intros Hrt He. apply in_tags in He. destruct He as [He Htag].
  destruct (pruned_descendants Hrt e He) as (e' & He' & Hee).
  exists e'. split.
  - apply in_tags. split; [assumption|].
    now rewrite <- (pruned_is_tag Hee).
  - symmetry. now apply pruned_shell.
Qed.

Lemma in_uids_of u l :
  In u (uids_of l) <-> exists e, In e l /\ is_tag e = true /\ uid_of e = u.
Proof.
  induction l as [|[i nm at_ cs|x|x] l IH]; cbn [uids_of].
  - split; [intros []|intros (e & [] & _)].
  - cbn [In]. rewrite IH. split.
    + intros [<-|(e & He & Ht & Hu)].
      * exists (Tag i nm at_ cs). auto.
      * exists e. auto.
    + intros (e & [<-|He] & Ht & Hu); [now left|right; exists e; auto].
  - rewrite IH. split; intros (e & He & Ht & Hu); exists e.
    + split; [now right|auto].
    + destruct He as [<-|He]; [discriminate|auto].
  - rewrite IH. split; intros (e & He & Ht & Hu); exists e.
    + split; [now right|auto].
    + destruct He as [<-|He]; [discriminate|auto].
Qed.

Lemma in_uids u n :
  In u (uids n) <-> exists e, In e (tags n) /\ uid_of e = u.
Proof.
  unfold uids. rewrite in_uids_of. split.
  - intros (e & He & Ht & Hu). exists e. split; [|assumption].
    apply in_tags. auto.
  - intros (e & He & Hu). apply in_tags in He. exists e. tauto.
Qed.

Lemma pruned_uids r t u : pruned r t -> In u (uids r) -> In u (uids t).
Proof.
  intros Hrt Hu. apply in_uids in Hu. destruct Hu as (e & He & <-).
  destruct (pruned_tags e Hrt He) as (e' & He' & Hs).
  apply in_uids. exists e'. split; [assumption|].
  unfold shell in Hs. congruence.
Qed.

End Trees.

(** ** Deletion prunes *)

Section Pruning.

Import Py Bs4.

Lemma sub_forest_filter_map (f : node -> bool) (g : node -> node) l :
  Forall (fun c => pruned (g c) c) l ->
  sub_forest pruned (filter f (map g l)) l.
Proof.
  induction 1 as [|c l Hc Hl IH]; cbn [map filter]; [constructor|].
  destruct (f (g c)); constructor; assumption.
Qed.

Lemma pruned_decompose u n : pruned (decompose u n) n.
Proof.
  induction n as [i nm at_ cs IH|x|x] using node_induction;
    cbn [decompose]; constructor.
  now apply sub_forest_filter_map.
Qed.

Lemma pruned_extract_comments n : pruned (extract_comments n) n.
Proof.
  induction n as [i nm at_ cs IH|x|x] using node_induction;
    cbn [extract_comments]; constructor.
  now apply sub_forest_filter_map.
Qed.

Lemma decompose_descendants u n e :
  In e (descendants (decompose u n)) -> has_uid u e = false.
Proof.
  revert e. induction n as [i nm at_ cs IH|x|x] using node_induction;
    intros e He; try (now destruct He).
  cbn [decompose] in He. apply in_descendants in He.
  destruct He as (c' & Hc' & He).
  apply filter_In in Hc'. destruct Hc' as [Hc' Hu].
  apply in_map_iff in Hc'. destruct Hc' as (c & <- & Hc).
  destruct He as [->|He].
  - now destruct (has_uid u (decompose u c)).
  - rewrite Forall_forall in IH. now apply (IH c).
Qed.

(** After [decompose], no tag of the tree has the identity. *)
Lemma decompose_gone u n : ~ In u (uids (decompose u n)).
Proof.
  intro H. apply in_uids in H. destruct H as (e & He & Hu).
  apply in_tags in He. destruct He as [He Ht].
  apply decompose_descendants in He.
  destruct e; try discriminate. cbn in *. subst.
  now rewrite Nat.eqb_refl in He.
Qed.

Lemma fold_pruned (A : Type) (step : node -> A -> node) xs :
  (forall t x, pruned (step t x) t) ->
  forall t, pruned (fold_left step xs t) t.
Proof.
  intro Hstep. induction xs as [|x xs IH]; intro t; cbn [fold_left].
  - apply pruned_refl.
  - eapply pruned_trans; [apply IH|apply Hstep].
Qed.

Lemma pruned_decompose_each found soup : pruned (decompose_each found soup) soup.
Proof. apply fold_pruned. intros. apply pruned_decompose. Qed.

Lemma pruned_decompose_where test found soup :
  pruned (decompose_where test found soup) soup.
Proof.
  apply fold_pruned. intros t e.
  destruct (_ && _); [apply pruned_decompose|apply pruned_refl].
Qed.

Lemma pruned_decompose_live test found soup :
  pruned (decompose_live test found soup) soup.
Proof.
  apply fold_pruned. intros t e. cbv zeta.
  destruct (test _); [apply pruned_decompose|apply pruned_refl].
Qed.

Lemma pruned_decompose_for (A : Type) (test : A -> node -> bool) xs soup :
  pruned (decompose_for test xs soup) soup.
Proof.
  apply fold_pruned. intros. unfold decompose_found.
  apply pruned_decompose_each.
Qed.

Lemma fold_decompose_gone u us soup :
  In u us -> ~ In u (uids (fold_left (fun t v => decompose v t) us soup)).
Proof.
  revert soup. induction us as [|v us IH]; intros soup Hin; [destruct Hin|].
  cbn [fold_left]. destruct (Nat.eq_dec v u) as [->|Hne].
  - intro H. apply (@decompose_gone u soup).
    eapply pruned_uids; [|exact H].
    apply (fold_pruned (fun t v => decompose v t)). intros. apply pruned_decompose.
  - apply IH. destruct Hin; [contradiction|assumption].
Qed.

(** An element that the loop has decomposed is no longer in the tree. *)
Lemma decompose_each_gone found soup e :
  In e found -> is_tag e = true ->
  ~ In (uid_of e) (uids (decompose_each found soup)).
Proof.
  intros He Ht. apply fold_decompose_gone.
  apply in_uids_of. exists e. auto.
Qed.

Lemma attached_spec u soup : attached u soup = true <-> In u (uids soup).
Proof.
  unfold attached. rewrite existsb_exists. split.
  - intros (v & Hv & E). apply Nat.eqb_eq in E. now subst.
  - intro H. exists u. split; [assumption|apply Nat.eqb_refl].
Qed.

(** An element that passes the test is no longer in the tree after the
    loop. *)
Lemma decompose_where_gone test found soup e :
  In e found -> test e = true ->
  ~ In (uid_of e) (uids (decompose_where test found soup)).
Proof.
  unfold decompose_where. revert soup.
  induction found as [|x found IH]; intros soup Hin Htest; [destruct Hin|].
  cbn [fold_left]. destruct Hin as [->|Hin]; [|now apply IH].
  rewrite Htest, andb_true_r. intro H.
  assert (Hp : forall t, In (uid_of e) (uids (fold_left
             (fun t e0 => if attached (uid_of e0) t && test e0
                          then decompose (uid_of e0) t else t) found t)) ->
           In (uid_of e) (uids t)).
  { intros t. apply pruned_uids. apply (pruned_decompose_where test found t). }
  apply Hp in H. destruct (attached (uid_of e) soup) eqn:E.
  - now apply decompose_gone in H.
  - apply attached_spec in H. congruence.
Qed.

Lemma tag_uid_in e soup : In e (tags soup) -> In (uid_of e) (uids soup).
Proof. intro H. apply in_uids. now exists e. Qed.

(** After a loop that decomposes every tag passing [test], a test that
    only reads the shell, no tag passes it. *)
Lemma find_all_decomposed (test : node -> bool) soup e :
  (forall a b, shell a = shell b -> test a = test b) ->
  In e (tags (decompose_each (find_all test soup) soup)) -> test e = false.
Proof.
  intros Hshell He. destruct (test e) eqn:E; [exfalso|reflexivity].
  destruct (pruned_tags e (pruned_decompose_each (find_all test soup) soup) He)
    as (e0 & He0 & Hs).
  assert (Hu : uid_of e0 = uid_of e) by (unfold shell in Hs; congruence).
  apply tag_uid_in in He. rewrite <- Hu in He. revert He.
  apply decompose_each_gone.
  - apply filter_In. split; [assumption|]. now rewrite (Hshell e0 e Hs).
  - apply in_tags in He0. tauto.
Qed.

Lemma find_where_decomposed (test : node -> bool) (has : node -> bool) soup e :
  (forall a b, shell a = shell b -> test a = test b) ->
  (forall a b, shell a = shell b -> has a = has b) ->
  has e = true ->
  In e (tags (decompose_where test (find_all has soup) soup)) -> test e = false.
Proof.
  intros Hshell Hhas Hhe He. destruct (test e) eqn:E; [exfalso|reflexivity].
  destruct (pruned_tags e (pruned_decompose_where test (find_all has soup) soup) He)
    as (e0 & He0 & Hs).
  assert (Hu : uid_of e0 = uid_of e) by (unfold shell in Hs; congruence).
  apply tag_uid_in in He. rewrite <- Hu in He. revert He.
  apply decompose_where_gone.
  - apply filter_In. split; [assumption|]. now rewrite (Hhas e0 e Hs).
  - now rewrite (Hshell e0 e Hs).
Qed.

(** A property of shells that no tag of a tree has holds of no tag of a
    pruned tree. *)
Lemma pruned_none (test : node -> bool) r t :
  (forall a b, shell a = shell b -> test a = test b) ->
  pruned r t ->
  (forall e, In e (tags t) -> test e = false) ->
  forall e, In e (tags r) -> test e = false.
Proof.
  intros Hshell Hrt Hnone e He.
  destruct (pruned_tags e Hrt He) as (e' & He' & Hs).
  rewrite <- (Hshell e' e Hs). now apply Hnone.
Qed.

End Pruning.

(** ** The cleaning passes prune the document *)

Section Sanitizer.

Import Py Bs4.

Lemma pruned_before_title_loop fuel title soup current :
  pruned (before_title_loop fuel title soup current) soup.
Proof.
  revert soup current. induction fuel as [|fuel IH]; intros soup current;
    cbn [before_title_loop]; [apply pruned_refl|].
  destruct current as [c|]; [|apply pruned_refl].
  destruct (Nat.eqb c title); [apply pruned_refl|].
  destruct (existsb _ _); [apply pruned_refl|].
  cbn [negb andb]. eapply pruned_trans; [apply IH|apply pruned_decompose].
Qed.

Lemma pruned_remove_selected soup sel : pruned (remove_selected soup sel) soup.
Proof. apply pruned_decompose_each. Qed.

Lemma pruned_remove_structural soup : pruned (remove_structural soup) soup.
Proof. apply fold_pruned. apply pruned_remove_selected. Qed.

Lemma pruned_after_title_truncation soup : pruned (after_title_truncation soup) soup.
Proof.
  unfold after_title_truncation.
  destruct (_find_article_title _); [|apply pruned_refl].
  apply pruned_before_title_loop.
Qed.

Lemma remove_non_main_content_eq soup :
  _remove_non_main_content soup
  = let t := after_title_truncation (remove_structural soup) in
    let t' := decompose_where (class_matches non_content_patterns)
                              (find_all (has_attr (s "class")) t) t in
    decompose_where (id_matches non_content_patterns)
                    (find_all (has_attr (s "id")) t') t'.
Proof. unfold _remove_non_main_content, after_title_truncation. reflexivity. Qed.

Lemma pruned_remove_non_main_content soup :
  pruned (_remove_non_main_content soup) soup.
Proof.
  rewrite remove_non_main_content_eq. cbv zeta.
  eapply pruned_trans; [apply pruned_decompose_where|].
  eapply pruned_trans; [apply pruned_decompose_where|].
  eapply pruned_trans; [apply pruned_after_title_truncation|].
  apply pruned_remove_structural.
Qed.

Lemma pruned_aggressive_clean_html soup :
  pruned (_aggressive_clean_html soup) soup.
Proof.
  unfold _aggressive_clean_html.
  repeat (eapply pruned_trans;
          [first [apply pruned_decompose_live | apply pruned_decompose_where
                 | apply pruned_decompose_for | apply pruned_extract_comments
                 | apply pruned_decompose_each]|]).
  apply pruned_refl.
Qed.

Lemma pruned_cleaned_soup aggressive soup :
  pruned (cleaned_soup aggressive soup) (_remove_non_main_content soup).
Proof.
  unfold cleaned_soup. destruct aggressive.
  - apply pruned_aggressive_clean_html.
  - apply pruned_decompose_each.
Qed.

Lemma str_eqb_eq a b : str_eqb a b = true <-> a = b.
Proof.
  unfold str_eqb. destruct (list_eq_dec ascii_dec a b); split; congruence.
Qed.

Lemma shell_inv a b :
  shell a = shell b ->
  uid_of a = uid_of b /\ tag_name a = tag_name b /\ tag_attrs a = tag_attrs b.
Proof. unfold shell. intro H. inversion H. auto. Qed.

Ltac same_shell :=
  let H := fresh in
  let Hn := fresh in
  let Ha := fresh in
  intro H; apply shell_inv in H; destruct H as (_ & Hn & Ha);
  rewrite ?Hn, ?Ha; reflexivity.

Lemma is_nav_shell a b : shell a = shell b -> is_nav a = is_nav b.
Proof. unfold is_nav. same_shell. Qed.

Lemma is_social_share_div_shell a b :
  shell a = shell b -> is_social_share_div a = is_social_share_div b.
Proof. unfold is_social_share_div. same_shell. Qed.

Lemma has_attr_shell k a b : shell a = shell b -> has_attr k a = has_attr k b.
Proof. unfold has_attr. same_shell. Qed.

Lemma class_matches_shell ps a b :
  shell a = shell b -> class_matches ps a = class_matches ps b.
Proof. unfold class_matches. same_shell. Qed.

Lemma matches_shell sel a b : shell a = shell b -> matches sel a = matches sel b.
Proof. unfold matches, classes. same_shell. Qed.

Lemma fold_left_head (A B : Type) (f : A -> B -> A) x xs a :
  fold_left f (x :: xs) a = fold_left f xs (f a x).
Proof. reflexivity. Qed.

Lemma remove_structural_unfold soup :
  remove_structural soup = fold_left remove_selected structural_selectors soup.
Proof. reflexivity. Qed.

Lemma structural_selectors_head :
  structural_selectors = SelTag (s "nav") :: tl structural_selectors.
Proof. reflexivity. Qed.

(** No [nav] element is left after the structural selectors. *)
Lemma remove_nav_first rest soup e :
  In e (tags (fold_left remove_selected rest
                (remove_selected soup (SelTag (s "nav"))))) ->
  is_nav e = false.
Proof.
  set (t1 := remove_selected soup (SelTag (s "nav"))).
  revert e.
  apply (@pruned_none is_nav _ t1 is_nav_shell).
  - apply fold_pruned. apply pruned_remove_selected.
  - intros e' He'. unfold t1, remove_selected, select in He'.
    apply (find_all_decomposed (matches (SelTag (s "nav")))) in He'.
    + exact He'.
    + apply matches_shell.
Qed.

Unset Implicit Arguments.

Lemma remove_nav_head soup e :
  In e (tags (fold_left remove_selected
                (SelTag (s "nav") :: tl structural_selectors) soup)) ->
  is_nav e = false.
Proof. rewrite fold_left_head. apply remove_nav_first. Qed.

Lemma remove_nav_fold soup e :
  In e (tags (fold_left remove_selected structural_selectors soup)) ->
  is_nav e = false.
Proof. rewrite structural_selectors_head. apply remove_nav_head. Qed.

Lemma remove_structural_no_nav soup e :
  In e (tags (remove_structural soup)) -> is_nav e = false.
Proof. rewrite remove_structural_unfold. apply remove_nav_fold. Qed.

Lemma social_share_class_matches e :
  is_social_share_div e = true ->
  has_attr (s "class") e = true /\ class_matches non_content_patterns e = true.
Proof.
  unfold is_social_share_div, has_attr, class_matches.
  intro H. apply andb_prop in H. destruct H as [_ H].
  destruct (get (s "class") (tag_attrs e)) as [[x|[|c [|d vs]]]|];
    try discriminate.
  apply str_eqb_eq in H. subst c. split; [reflexivity|].
  vm_compute. reflexivity.
Qed.

Lemma remove_non_main_content_clean soup e :
  In e (tags (_remove_non_main_content soup)) -> nav_or_social_share e = false.
Proof.
  intro He. unfold nav_or_social_share.
  assert (Ht : is_tag e = true) by (apply in_tags in He; tauto).
  rewrite Ht. cbn [andb]. apply orb_false_iff. split.
  - revert e He Ht. intros e He _. revert e He.
    apply (@pruned_none is_nav _ (remove_structural soup) is_nav_shell).
    + rewrite remove_non_main_content_eq. cbv zeta.
      eapply pruned_trans; [apply pruned_decompose_where|].
      eapply pruned_trans; [apply pruned_decompose_where|].
      apply pruned_after_title_truncation.
    + apply remove_structural_no_nav.
  - destruct (is_social_share_div e) eqn:E; [exfalso|reflexivity].
    rewrite remove_non_main_content_eq in He. cbv zeta in He.
    set (t := after_title_truncation (remove_structural soup)) in *.
    set (t' := decompose_where _ _ t) in *.
    destruct (pruned_tags e (pruned_decompose_where _ _ t') He) as (e' & He' & Hs).
    rewrite <- (is_social_share_div_shell Hs) in E.
    destruct (social_share_class_matches e' E) as [Hhas Hcls].
    unfold t' in He'.
    apply (find_where_decomposed (class_matches non_content_patterns)
             (has_attr (s "class"))) in He'.
    + rewrite Hcls in He'. discriminate He'.
    + apply class_matches_shell.
    + apply has_attr_shell.
    + exact Hhas.
Qed.

End Sanitizer.

Unset Implicit Arguments.

(** ** What the cleaned tree no longer holds *)

Section SanitizerClaims.

Import Py Bs4.

Lemma without_shell test n : shell (without test n) = shell n.
Proof. now destruct n. Qed.

Lemma without_is_tag test n : is_tag (without test n) = is_tag n.
Proof. now destruct n. Qed.

(** A tree that holds no tag passing [test] and is a pruning of [t] is
    a pruning of [t] without the subtrees that pass [test]. *)
Lemma pruned_without (test : node -> bool) :
  (forall a b, shell a = shell b -> is_tag a = is_tag b -> test a = test b) ->
  (forall a, is_tag a = false -> test a = false) ->
  forall r t, pruned r t ->
  (forall e, In e (tags r) -> test e = false) ->
  pruned r (without test t).
Proof.
  intros Hshell Hleaf r.
  induction r as [i nm at_ cs' IH|x|x] using node_induction;
    intros t Hrt Hnone; inversion Hrt as [? ? ? ? cs Hcs| |]; subst;
    cbn [without]; constructor.
  assert (Hkids : forall c', In c' cs' ->
            test c' = false /\ forall e, In e (tags c') -> test e = false).
  { intros c' Hc'. split.
    - destruct (is_tag c') eqn:Ht; [|now apply Hleaf].
      apply Hnone. apply in_tags. split; [|assumption].
      apply in_descendants. exists c'. auto.
    - intros e He. apply Hnone. apply in_tags in He. apply in_tags.
      split; [|tauto]. apply in_descendants. exists c'. tauto. }
  clear Hrt Hnone. induction Hcs as [|c l' l H IHl|c' c l' l Hc H IHl];
    cbn [map filter].
  - constructor.
  - destruct (test (without test c)); cbn [negb]; [|constructor]; now apply IHl.
  - inversion IH as [|? ? IHc IH']; subst.
    assert (Hc'' : pruned c' (without test c)).
    { apply IHc; [assumption|]. apply Hkids. now left. }
    assert (Hk : test (without test c) = false).
    { rewrite <- (Hshell c' (without test c)).
      - apply Hkids. now left.
      - now apply pruned_shell.
      - now apply pruned_is_tag. }
    rewrite Hk. cbn [negb]. constructor; [assumption|].
    apply IHl; [assumption|]. intros. apply Hkids. now right.
Qed.

Lemma nav_or_social_share_shell a b :
  shell a = shell b -> is_tag a = is_tag b ->
  nav_or_social_share a = nav_or_social_share b.
Proof.
  intros Hs Ht. unfold nav_or_social_share.
  now rewrite Ht, (is_nav_shell Hs), (is_social_share_div_shell Hs).
Qed.

Lemma nav_or_social_share_leaf a :
  is_tag a = false -> nav_or_social_share a = false.
Proof. unfold nav_or_social_share. now intros ->. Qed.

Lemma cleaned_soup_clean aggressive soup e :
  In e (tags (cleaned_soup aggressive soup)) -> nav_or_social_share e = false.
Proof.
  intro He.
  destruct (pruned_tags e (pruned_cleaned_soup aggressive soup) He)
    as (e' & He' & Hs).
  apply in_tags in He. destruct He as [_ Ht].
  assert (Ht' : is_tag e' = true) by (apply in_tags in He'; apply He').
  rewrite <- (@nav_or_social_share_shell e' e Hs).
  - exact (remove_non_main_content_clean soup e' He').
  - rewrite Ht, Ht'. reflexivity.
Qed.

Lemma pruned_cleaned_soup_all aggressive soup :
  pruned (cleaned_soup aggressive soup) soup.
Proof.
  eapply pruned_trans; [apply pruned_cleaned_soup|].
  apply pruned_remove_non_main_content.
Qed.

End SanitizerClaims.

(** ** The sanitizer on [nav] elements and social-share blocks *)

Section SanitizerTheorems.

Import Py Bs4.

(** C5, as stated, fails: without aggressive cleaning the [div] of class
    [social-share] does not survive; the patterns of
    [_remove_non_main_content] take it out. *)
Lemma social_share_div_removed_without_aggressive :
  existsb is_social_share_div (tags page_with_nav_and_share) = true
  /\ cleaned_soup false page_with_nav_and_share
     = element 0 "[document]"
         [ element 1 "html"
             [ element 2 "body" [ element 7 "p" [text "Hello world"] ] ] ]
  /\ existsb is_social_share_div
       (tags (cleaned_soup false page_with_nav_and_share)) = false.
Proof. repeat split; vm_compute; reflexivity. Qed.

(** C5, amended: whether aggressive cleaning is enabled or not, the tree
    that [get_webpage_text] reads the text from holds no [nav] element
    and no [div] of class [social-share], and nothing that was below
    one: it is a pruning of the document without these subtrees. *)
Theorem sanitizer_removes_nav_and_social_share (aggressive : bool) (soup : node) :
  pruned (cleaned_soup aggressive soup) (without nav_or_social_share soup)
  /\ forallb (fun e => negb (is_nav e) && negb (is_social_share_div e))
             (tags (cleaned_soup aggressive soup)) = true.
Proof.
  split.
  - apply pruned_without.
    + apply nav_or_social_share_shell.
    + apply nav_or_social_share_leaf.
    + apply pruned_cleaned_soup_all.
    + apply cleaned_soup_clean.
  - apply forallb_forall. intros e He.
    pose proof (cleaned_soup_clean aggressive soup e He) as H.
    unfold nav_or_social_share in H.
    apply in_tags in He. destruct He as [_ Ht]. rewrite Ht in H.
    cbn [andb] in H. apply orb_false_iff in H. destruct H as [-> ->].
    reflexivity.
Qed.

End SanitizerTheorems.

(** ** Elements located in a tree *)

Section Located.

Import Py Bs4.

Lemma uids_of_app l1 l2 : uids_of (l1 ++ l2) = uids_of l1 ++ uids_of l2.
Proof.
  induction l1 as [|[i nm at_ cs|x|x] l1 IH]; cbn [app uids_of];
    now rewrite ?IH.
Qed.

Lemma uids_tag i nm at_ cs : uids (Tag i nm at_ cs) = flat_map all_uids cs.
Proof.
  unfold uids. cbn [descendants].
  induction cs as [|c cs IH]; [reflexivity|].
  cbn [flat_map]. rewrite uids_of_app, IH. reflexivity.
Qed.

Lemma all_uids_tag i nm at_ cs :
  all_uids (Tag i nm at_ cs) = i :: flat_map all_uids cs.
Proof. unfold all_uids. cbn [uids_of]. f_equal. apply uids_tag. Qed.

Lemma all_uids_leaf n : is_tag n = false -> all_uids n = [].
Proof. destruct n; [discriminate|reflexivity|reflexivity]. Qed.

Lemma has_uid_all_uids u n : has_uid u n = true -> In u (all_uids n).
Proof.
  destruct n as [i nm at_ cs|x|x]; try discriminate.
  cbn [has_uid]. intro H. apply Nat.eqb_eq in H. subst.
  rewrite all_uids_tag. now left.
Qed.

Lemma uids_in_all_uids u n : In u (uids n) -> In u (all_uids n).
Proof.
  destruct n as [i nm at_ cs|x|x]; [|intros []|intros []].
  rewrite all_uids_tag, uids_tag. now right.
Qed.

Lemma in_flat_all_uids u c cs :
  In c cs -> In u (all_uids c) -> In u (flat_map all_uids cs).
Proof. intros Hc Hu. apply in_flat_map. now exists c. Qed.

(** An identity that is not in a tree names nothing there. *)
Lemma absent_decompose u n : ~ In u (uids n) -> decompose u n = n.
Proof.
  induction n as [i nm at_ cs IH|x|x] using node_induction;
    intro Hu; try reflexivity.
  cbn [decompose]. f_equal. rewrite uids_tag in Hu.
  induction IH as [|c cs Hc Hcs IHcs]; [reflexivity|].
  cbn [map filter].
  assert (Hc' : ~ In u (all_uids c)).
  { intro H. apply Hu. cbn [flat_map]. apply in_app_iff. now left. }
  rewrite Hc by (intro H; apply Hc'; now apply uids_in_all_uids).
  assert (has_uid u c = false) as ->.
  { destruct (has_uid u c) eqn:E; [|reflexivity].
    exfalso. apply Hc'. now apply has_uid_all_uids. }
  cbn [negb]. f_equal. apply IHcs.
  intro H. apply Hu. cbn [flat_map]. apply in_app_iff. now right.
Qed.

Lemma find_map_none (A B : Type) (f : A -> option B) l :
  (forall a, In a l -> f a = None) -> find_map f l = None.
Proof.
  induction l as [|a l IH]; intro H; [reflexivity|].
  cbn [find_map]. rewrite (H a) by now left.
  apply IH. intros. apply H. now right.
Qed.

Lemma absent_subtree u n : ~ In u (all_uids n) -> subtree u n = None.
Proof.
  induction n as [i nm at_ cs IH|x|x] using node_induction;
    intro Hu; try reflexivity.
  rewrite all_uids_tag in Hu. cbn [subtree].
  destruct (Nat.eqb_spec i u) as [->|Hne]; [exfalso; apply Hu; now left|].
  apply find_map_none. intros c Hc. rewrite Forall_forall in IH.
  apply IH; [assumption|]. intro H. apply Hu. right.
  now apply in_flat_all_uids with (c := c).
Qed.

Lemma absent_after u l :
  ~ In u (flat_map all_uids l) -> after u l = None.
Proof.
  induction l as [|c l IH]; intro Hu; [reflexivity|].
  cbn [after].
  assert (has_uid u c = false) as ->.
  { destruct (has_uid u c) eqn:E; [|reflexivity].
    exfalso. apply Hu. cbn [flat_map]. apply in_app_iff. left.
    now apply has_uid_all_uids. }
  apply IH. intro H. apply Hu. cbn [flat_map]. apply in_app_iff. now right.
Qed.

Lemma absent_next_siblings u n : ~ In u (uids n) -> next_siblings u n = None.
Proof.
  induction n as [i nm at_ cs IH|x|x] using node_induction;
    intro Hu; try reflexivity.
  rewrite uids_tag in Hu. cbn [next_siblings].
  rewrite absent_after by assumption.
  apply find_map_none. intros c Hc. rewrite Forall_forall in IH.
  apply IH; [assumption|]. intro H. apply Hu.
  apply in_flat_all_uids with (c := c); [assumption|].
  now apply uids_in_all_uids.
Qed.

End Located.

(** ** Contexts: a node and the tree around it *)

Section Contexts.

Import Py Bs4.

Lemma NoDup_app_iff (A : Type) (l1 l2 : list A) :
  NoDup (l1 ++ l2) <->
  NoDup l1 /\ NoDup l2 /\ forall a, In a l1 -> ~ In a l2.
Proof.
  induction l1 as [|x l1 IH]; cbn [app].
  - split; [intro H; repeat split; [constructor|assumption|intros a []]|tauto].
  - rewrite !NoDup_cons_iff, IH, in_app_iff. split.
    + intros (Hx & H1 & H2 & H12). repeat split; try tauto.
      intros a [<-|Ha]; [tauto|now apply H12].
    + intros ((Hx & H1) & H2 & H12). repeat split; try tauto.
      * intros [H|H]; [tauto|]. apply (H12 x); [now left|assumption].
      * intros a Ha. apply H12. now right.
Qed.

Lemma all_uids_fill f n :
  all_uids (fill f n)
  = frame_uid f :: flat_map all_uids (before f) ++ all_uids n
                   ++ flat_map all_uids (behind f).
Proof.
  unfold fill. rewrite all_uids_tag, flat_map_app. reflexivity.
Qed.

Lemma uids_fill f n :
  uids (fill f n)
  = flat_map all_uids (before f) ++ all_uids n ++ flat_map all_uids (behind f).
Proof. unfold fill. rewrite uids_tag, flat_map_app. reflexivity. Qed.

Lemma in_uids_plug u C n : In u (uids n) -> In u (uids (plug C n)).
Proof.
  induction C as [|f C IH]; intro H; [exact H|].
  cbn [plug fold_right]. rewrite uids_fill.
  apply in_app_iff. right. apply in_app_iff. left.
  apply uids_in_all_uids. now apply IH.
Qed.

(** What distinctness says about the frame around a node. *)
Lemma distinct_fill f n u :
  distinct (fill f n) -> In u (all_uids n) ->
  distinct n
  /\ frame_uid f <> u
  /\ ~ In u (flat_map all_uids (before f))
  /\ ~ In u (flat_map all_uids (behind f)).
Proof.
  unfold distinct. rewrite all_uids_fill. intros H Hu.
  apply NoDup_cons_iff in H. destruct H as [Hf H].
  apply NoDup_app_iff in H. destruct H as (Hb & H & Hbn).
  apply NoDup_app_iff in H. destruct H as (Hn & Hh & Hnh).
  repeat split.
  - assumption.
  - intros <-. apply Hf. apply in_app_iff. right. apply in_app_iff. now left.
  - intro H. apply (Hbn u H). apply in_app_iff. now left.
  - now apply Hnh.
Qed.

Lemma distinct_root u n : distinct n -> In u (uids n) -> has_uid u n = false.
Proof.
  destruct n as [i nm at_ cs|x|x]; try reflexivity.
  unfold distinct. rewrite all_uids_tag, <- (uids_tag i nm at_ cs).
  intros H Hu. apply NoDup_cons_iff in H. destruct H as [H _].
  cbn [has_uid]. destruct (Nat.eqb_spec i u) as [->|]; [contradiction|reflexivity].
Qed.

Lemma find_map_only (A B : Type) (f : A -> option B) l x r :
  (forall a, In a l -> f a = None) ->
  (forall a, In a r -> f a = None) ->
  find_map f (l ++ x :: r) = f x.
Proof.
  intros Hl Hr. induction l as [|a l IH]; cbn [app find_map].
  - destruct (f x); [reflexivity|]. now apply find_map_none.
  - rewrite (Hl a) by now left. apply IH. intros. apply Hl. now right.
Qed.

Lemma absent_in_forest u l c :
  ~ In u (flat_map all_uids l) -> In c l -> ~ In u (all_uids c).
Proof. intros Hu Hc H. apply Hu. now apply in_flat_all_uids with (c := c). Qed.

Lemma after_only u l x r :
  ~ In u (flat_map all_uids l) ->
  after u (l ++ x :: r) = if has_uid u x then Some r else after u r.
Proof.
  intro Hl. induction l as [|a l IH]; [reflexivity|].
  cbn [app after].
  assert (has_uid u a = false) as ->.
  { destruct (has_uid u a) eqn:E; [|reflexivity].
    exfalso. apply Hl. cbn [flat_map]. apply in_app_iff. left.
    now apply has_uid_all_uids. }
  apply IH. intro H. apply Hl. cbn [flat_map]. apply in_app_iff. now right.
Qed.

Lemma keep_absent u l :
  ~ In u (flat_map all_uids l) ->
  filter (fun c => negb (has_uid u c)) (map (decompose u) l) = l.
Proof.
  induction l as [|c l IH]; intro Hu; [reflexivity|].
  cbn [map filter].
  assert (Hc : ~ In u (all_uids c)).
  { intro H. apply Hu. cbn [flat_map]. apply in_app_iff. now left. }
  rewrite absent_decompose by (intro H; apply Hc; now apply uids_in_all_uids).
  assert (has_uid u c = false) as ->.
  { destruct (has_uid u c) eqn:E; [|reflexivity].
    exfalso. apply Hc. now apply has_uid_all_uids. }
  cbn [negb]. f_equal. apply IH.
  intro H. apply Hu. cbn [flat_map]. apply in_app_iff. now right.
Qed.

Lemma has_uid_decompose u v n : has_uid u (decompose v n) = has_uid u n.
Proof. now destruct n. Qed.

End Contexts.

(** ** Searches and deletion below a context *)

Section Locality.

Import Py Bs4.

(** In a tree of distinct identities, what is done to an element inside
    [n] is done inside [n]. *)
Lemma subtree_plug u C n :
  distinct (plug C n) -> In u (uids n) ->
  subtree u (plug C n) = subtree u n.
Proof.
  induction C as [|f C IH]; intros Hd Hu; [reflexivity|].
  cbn [plug fold_right] in *. fold (plug C n) in *.
  assert (Hin : In u (all_uids (plug C n)))
    by (apply uids_in_all_uids; now apply in_uids_plug).
  destruct (distinct_fill f (plug C n) u Hd Hin) as (Hd' & Hf & Hb & Hh).
  unfold fill. cbn [subtree].
  destruct (Nat.eqb_spec (frame_uid f) u) as [E|_]; [contradiction|].
  rewrite find_map_only.
  - now apply IH.
  - intros a Ha. apply absent_subtree. now apply (absent_in_forest u (before f)).
  - intros a Ha. apply absent_subtree. now apply (absent_in_forest u (behind f)).
Qed.

Lemma next_siblings_plug u C n :
  distinct (plug C n) -> In u (uids n) ->
  next_siblings u (plug C n) = next_siblings u n.
Proof.
  induction C as [|f C IH]; intros Hd Hu; [reflexivity|].
  cbn [plug fold_right] in *. fold (plug C n) in *.
  assert (Hin' : In u (uids (plug C n))) by now apply in_uids_plug.
  assert (Hin : In u (all_uids (plug C n))) by now apply uids_in_all_uids.
  destruct (distinct_fill f (plug C n) u Hd Hin) as (Hd' & Hf & Hb & Hh).
  unfold fill. cbn [next_siblings].
  rewrite after_only by assumption.
  rewrite (distinct_root u (plug C n) Hd' Hin').
  rewrite absent_after by assumption.
  rewrite find_map_only.
  - now apply IH.
  - intros a Ha. apply absent_next_siblings. intro H.
    apply (absent_in_forest u (before f) a Hb Ha). now apply uids_in_all_uids.
  - intros a Ha. apply absent_next_siblings. intro H.
    apply (absent_in_forest u (behind f) a Hh Ha). now apply uids_in_all_uids.
Qed.

Lemma decompose_plug u C n :
  distinct (plug C n) -> In u (uids n) ->
  decompose u (plug C n) = plug C (decompose u n).
Proof.
  induction C as [|f C IH]; intros Hd Hu; [reflexivity|].
  cbn [plug fold_right] in *. fold (plug C n) in *.
  fold (plug C (decompose u n)).
  assert (Hin' : In u (uids (plug C n))) by now apply in_uids_plug.
  assert (Hin : In u (all_uids (plug C n))) by now apply uids_in_all_uids.
  destruct (distinct_fill f (plug C n) u Hd Hin) as (Hd' & Hf & Hb & Hh).
  unfold fill. cbn [decompose]. f_equal.
  rewrite map_app, filter_app. cbn [map filter].
  rewrite !keep_absent by assumption.
  rewrite has_uid_decompose, (distinct_root u (plug C n) Hd' Hin').
  cbn [negb]. now rewrite IH.
Qed.

(** A tag [c] among the children of a content area. *)
Section Child.

Variables (i : nat) (nm : str) (at_ : list (str * attr_value)).

Variables (pre post : list node).

Variables (u : nat) (cn : str) (ca : list (str * attr_value)) (ck : list node).

Let c := Tag u cn ca ck.

Let area := Tag i nm at_ (pre ++ c :: post).

Hypothesis Hd : distinct area.

Lemma child_facts :
  i <> u /\ ~ In u (flat_map all_uids pre) /\ ~ In u (flat_map all_uids post)
  /\ ~ In u (uids c).
Proof.
  unfold distinct, area in Hd.
  rewrite all_uids_tag, flat_map_app in Hd. cbn [flat_map] in Hd.
  unfold c in Hd at 1. rewrite all_uids_tag, <- (uids_tag u cn ca ck) in Hd.
  fold c in Hd.
  apply NoDup_cons_iff in Hd. destruct Hd as [Hi H].
  apply NoDup_app_iff in H. destruct H as (Hp & H & Hpc).
  cbn [app] in H. apply NoDup_cons_iff in H. destruct H as [Hu H].
  repeat split.
  - intros ->. apply Hi. apply in_app_iff. right. now left.
  - intro H'. apply (Hpc u H'). now left.
  - intro H'. apply Hu. apply in_app_iff. now right.
  - intro H'. apply Hu. apply in_app_iff. now left.
Qed.

Lemma child_in_area : In u (uids area).
Proof.
  unfold area. rewrite uids_tag, flat_map_app. apply in_app_iff. right.
  cbn [flat_map]. apply in_app_iff. left. unfold c. rewrite all_uids_tag.
  now left.
Qed.

Lemma child_subtree : subtree u area = Some c.
Proof.
  destruct child_facts as (Hi & Hp & Hq & _).
  unfold area. cbn [subtree].
  destruct (Nat.eqb_spec i u) as [E|_]; [contradiction|].
  rewrite find_map_only.
  - unfold c. cbn [subtree]. now rewrite Nat.eqb_refl.
  - intros a Ha. apply absent_subtree. now apply (absent_in_forest u pre).
  - intros a Ha. apply absent_subtree. now apply (absent_in_forest u post).
Qed.

Lemma child_next_siblings : next_siblings u area = Some post.
Proof.
  destruct child_facts as (Hi & Hp & Hq & _).
  unfold area. cbn [next_siblings].
  rewrite after_only by assumption.
  unfold c. cbn [has_uid]. now rewrite Nat.eqb_refl.
Qed.

Lemma child_decompose : decompose u area = Tag i nm at_ (pre ++ post).
Proof.
  destruct child_facts as (Hi & Hp & Hq & _).
  unfold area. cbn [decompose]. f_equal.
  rewrite map_app, filter_app. cbn [map filter].
  rewrite !keep_absent by assumption.
  unfold c. cbn [decompose has_uid]. now rewrite Nat.eqb_refl.
Qed.

End Child.

End Locality.

(** ** What the title truncation keeps *)

Section TitleTruncation.

Import Py Bs4.

Lemma incl_flat_remove (pre post : list node) c :
  incl (flat_map all_uids (pre ++ post)) (flat_map all_uids (pre ++ c :: post)).
Proof.
  intros x. rewrite !flat_map_app, !in_app_iff. cbn [flat_map].
  rewrite in_app_iff. tauto.
Qed.

Lemma distinct_remove_child i nm at_ pre c post :
  distinct (Tag i nm at_ (pre ++ c :: post)) ->
  distinct (Tag i nm at_ (pre ++ post)).
Proof.
  unfold distinct. rewrite !all_uids_tag, !flat_map_app. cbn [flat_map].
  rewrite !NoDup_cons_iff, !NoDup_app_iff, !in_app_iff.
  intros (Hi & Hp & (Hc & Hq & Hcq) & Hpc). repeat split; try assumption.
  - tauto.
  - intros a Ha Hq'. apply (Hpc a Ha). apply in_app_iff. now right.
Qed.

(** Putting a smaller tree of distinct identities in the place of [n]
    keeps the identities distinct. *)
Lemma distinct_plug_shrink C n n' :
  distinct (plug C n) -> distinct n' ->
  incl (all_uids n') (all_uids n) ->
  distinct (plug C n') /\ incl (all_uids (plug C n')) (all_uids (plug C n)).
Proof.
  intros Hd Hn' Hincl. induction C as [|f C IH]; [now split|].
  cbn [plug fold_right] in *. fold (plug C n) in *. fold (plug C n') in *.
  unfold distinct in Hd. rewrite all_uids_fill in Hd.
  apply NoDup_cons_iff in Hd. destruct Hd as [Hf Hd].
  apply NoDup_app_iff in Hd. destruct Hd as (Hb & Hd & Hbn).
  apply NoDup_app_iff in Hd. destruct Hd as (Hx & Hh & Hxh).
  destruct (IH Hx) as [IHd IHi]. split.
  - unfold distinct. rewrite all_uids_fill.
    apply NoDup_cons_iff. split.
    + intro H. apply Hf. rewrite !in_app_iff in *.
      destruct H as [H|[H|H]]; auto.
    + apply NoDup_app_iff. repeat split; [assumption| |].
      * apply NoDup_app_iff. repeat split; try assumption.
        intros a Ha. apply Hxh. now apply IHi.
      * intros a Ha H. apply (Hbn a Ha). rewrite !in_app_iff in *.
        destruct H as [H|H]; auto.
  - rewrite !all_uids_fill. intros a [<-|Ha]; [now left|right].
    rewrite !in_app_iff in *. destruct Ha as [H|[H|H]]; auto.
Qed.

Lemma holds_leaf title c : is_tag c = false -> holds title c = false.
Proof. now destruct c. Qed.

Lemma holds_first_tag title l :
  existsb (holds title) l = true -> first_tag l <> None.
Proof.
  unfold first_tag. induction l as [|[u cn ca ck|x|x] l IH]; cbn [existsb uids_of].
  - discriminate.
  - discriminate.
  - rewrite holds_leaf by reflexivity. exact IH.
  - rewrite holds_leaf by reflexivity. exact IH.
Qed.

End TitleTruncation.

(** ** The loop of [_remove_elements_before_title] *)

Section TitleLoop.

Import Py Bs4.

Lemma distinct_plug_inner C n : distinct (plug C n) -> distinct n.
Proof.
  induction C as [|f C IH]; intro Hd; [exact Hd|].
  apply IH. cbn [plug fold_right] in Hd. fold (plug C n) in Hd.
  unfold distinct in Hd. rewrite all_uids_fill in Hd.
  apply NoDup_cons_iff in Hd. destruct Hd as [_ Hd].
  apply NoDup_app_iff in Hd. destruct Hd as (_ & Hd & _).
  apply NoDup_app_iff in Hd. apply Hd.
Qed.

Lemma or_else_some (A : Type) (a b : option A) : a <> None -> or_else a b = a.
Proof. destruct a; [reflexivity|congruence]. Qed.

Lemma all_uids_remove_child i nm at_ pre c post :
  incl (all_uids (Tag i nm at_ (pre ++ post)))
       (all_uids (Tag i nm at_ (pre ++ c :: post))).
Proof.
  rewrite !all_uids_tag. intros a [<-|Ha]; [now left|right].
  now apply (incl_flat_remove pre post c).
Qed.

Variables (C : list frame) (i : nat) (nm : str) (at_ : list (str * attr_value)).

Variable title : nat.

Lemma before_title_loop_spec rest :
  forall kept fuel,
  distinct (plug C (Tag i nm at_ (kept ++ rest))) ->
  existsb (holds title) rest = true ->
  length (uids_of rest) < fuel ->
  before_title_loop fuel title (plug C (Tag i nm at_ (kept ++ rest)))
                    (first_tag rest)
  = plug C (Tag i nm at_ (kept ++ drop_before_title title rest)).
Proof.
  induction rest as [|c rest IH]; intros kept fuel Hd Hex Hfuel;
    [discriminate Hex|].
  destruct c as [u cn ca ck|x|x].
  - (* a tag: the current element *)
    cbn [uids_of length] in Hfuel. destruct fuel as [|fuel]; [lia|].
    change (first_tag (Tag u cn ca ck :: rest)) with (Some u).
    cbn [before_title_loop drop_before_title is_tag].
    unfold holds at 1. cbn [has_uid].
    destruct (Nat.eqb_spec u title) as [Eu|Hne]; [reflexivity|].
    cbn [orb negb andb].
    pose proof (distinct_plug_inner C _ Hd) as Hda.
    pose proof (child_in_area i nm at_ kept rest u cn ca ck) as Hin.
    unfold tags_below.
    rewrite (subtree_plug u C _ Hd Hin).
    rewrite (child_subtree i nm at_ kept rest u cn ca ck Hda).
    destruct (existsb (Nat.eqb title) (uids (Tag u cn ca ck))) eqn:Ein;
      [reflexivity|].
    cbn [negb].
    rewrite (decompose_plug u C _ Hd Hin).
    rewrite (child_decompose i nm at_ kept rest u cn ca ck Hda).
    unfold find_next_sibling.
    rewrite (next_siblings_plug u C _ Hd Hin).
    rewrite (child_next_siblings i nm at_ kept rest u cn ca ck Hda).
    cbn [existsb] in Hex. unfold holds at 1 in Hex. cbn [has_uid] in Hex.
    destruct (Nat.eqb_spec u title) as [|_]; [contradiction|].
    rewrite Ein in Hex. cbn [orb] in Hex.
    pose proof (holds_first_tag title rest Hex) as Hft.
    rewrite or_else_some by assumption. apply IH.
    + apply (distinct_plug_shrink C (Tag i nm at_ (kept ++ Tag u cn ca ck :: rest))).
      * exact Hd.
      * now apply distinct_remove_child with (c := Tag u cn ca ck).
      * apply all_uids_remove_child.
    + exact Hex.
    + lia.
  - (* a text node stays and is passed over *)
    change (first_tag (NavigableString x :: rest)) with (first_tag rest).
    cbn [drop_before_title is_tag].
    replace (kept ++ NavigableString x :: rest)
      with ((kept ++ [NavigableString x]) ++ rest) in *
      by (rewrite <- app_assoc; reflexivity).
    replace (kept ++ NavigableString x :: drop_before_title title rest)
      with ((kept ++ [NavigableString x]) ++ drop_before_title title rest)
      by (rewrite <- app_assoc; reflexivity).
    apply IH; assumption.
  - change (first_tag (Comment x :: rest)) with (first_tag rest).
    cbn [drop_before_title is_tag].
    replace (kept ++ Comment x :: rest)
      with ((kept ++ [Comment x]) ++ rest) in *
      by (rewrite <- app_assoc; reflexivity).
    replace (kept ++ Comment x :: drop_before_title title rest)
      with ((kept ++ [Comment x]) ++ drop_before_title title rest)
      by (rewrite <- app_assoc; reflexivity).
    apply IH; assumption.
Qed.

End TitleLoop.

(** ** The truncation of a content area *)

Section TitleClaims.

Import Py Bs4.

Lemma first_tag_children i nm at_ cs :
  find_first (Tag i nm at_ cs) = first_tag cs.
Proof.
  unfold find_first, first_tag. fold (uids (Tag i nm at_ cs)).
  rewrite uids_tag. induction cs as [|c cs IH]; [reflexivity|].
  cbn [flat_map]. destruct c as [u cn ca ck|x|x].
  - rewrite all_uids_tag. reflexivity.
  - exact IH.
  - exact IH.
Qed.

Lemma length_uids_of_children cs :
  length (uids_of cs) <= length (flat_map all_uids cs).
Proof.
  induction cs as [|c cs IH]; [reflexivity|].
  cbn [flat_map]. rewrite length_app. destruct c as [u cn ca ck|x|x].
  - rewrite all_uids_tag. cbn [uids_of length]. lia.
  - cbn [uids_of]. lia.
  - cbn [uids_of]. lia.
Qed.

Lemma length_uids_plug C n : length (uids n) <= length (uids (plug C n)).
Proof.
  induction C as [|f C IH]; [apply Nat.le_refl|].
  cbn [plug fold_right]. fold (plug C n). rewrite uids_fill, !length_app.
  assert (length (uids (plug C n)) <= length (all_uids (plug C n))).
  { destruct (plug C n) as [u cn ca ck|x|x]; [|cbn; lia|cbn; lia].
    rewrite all_uids_tag, uids_tag. cbn [length]. lia. }
  lia.
Qed.

(** What [_remove_elements_before_title] does to a content area that has
    the title below it, wherever the area is in the document. *)
Lemma remove_elements_before_title_spec C i nm at_ cs title :
  distinct (plug C (Tag i nm at_ cs)) ->
  existsb (holds title) cs = true ->
  _remove_elements_before_title (plug C (Tag i nm at_ cs)) (Tag i nm at_ cs) title
  = plug C (Tag i nm at_ (drop_before_title title cs)).
Proof.
  intros Hd Hex. unfold _remove_elements_before_title.
  rewrite first_tag_children.
  apply (before_title_loop_spec C i nm at_ title cs [] _ Hd Hex).
  unfold count_tags.
  pose proof (length_uids_plug C (Tag i nm at_ cs)) as H1.
  pose proof (length_uids_of_children cs) as H2.
  rewrite uids_tag in H1 at 1. lia.
Qed.

End TitleClaims.

(** ** The content area and the title are in the document *)

Section ContentArea.

Import Py Bs4.

Lemma hd_error_In (A : Type) (l : list A) a : hd_error l = Some a -> In a l.
Proof. destruct l; [discriminate|]. intros [= ->]. left. reflexivity. Qed.

Lemma find_In test soup e : find test soup = Some e -> In e (tags soup).
Proof.
  unfold find, find_all. intro H. apply hd_error_In in H.
  apply filter_In in H. apply H.
Qed.

Lemma select_one_In sel soup e : select_one sel soup = Some e -> In e (tags soup).
Proof. apply find_In. Qed.

Lemma find_map_some (A B : Type) (f : A -> option B) l b :
  find_map f l = Some b -> exists a, In a l /\ f a = Some b.
Proof.
  induction l as [|a l IH]; [discriminate|]. cbn [find_map].
  destruct (f a) eqn:E.
  - intros [= ->]. exists a. split; [left; reflexivity|exact E].
  - intro H. destruct (IH H) as (a' & Ha & Hf). exists a'. split; [right|]; assumption.
Qed.

Lemma or_else_cases (A : Type) (a b : option A) x :
  or_else a b = Some x -> a = Some x \/ b = Some x.
Proof. destruct a; cbn [or_else]; intro H; [left|right]; exact H. Qed.

(** The content area is the document or one of its elements. *)
Lemma main_content_area_cases soup :
  _find_main_content_area soup = soup
  \/ In (_find_main_content_area soup) (tags soup).
Proof.
  unfold _find_main_content_area.
  match goal with |- context [match ?f with Some _ => _ | None => _ end] =>
    destruct f as [e|] eqn:E end; [right|left; reflexivity].
  repeat (apply or_else_cases in E; destruct E as [E|E];
          [exact (find_In _ _ _ E)|]).
  apply or_else_cases in E. destruct E as [E|E]; [|exact (find_In _ _ _ E)].
  apply find_map_some in E. destruct E as (sel & _ & E).
  exact (select_one_In _ _ _ E).
Qed.

(** The title is an element below the content area. *)
Lemma article_title_In area t :
  _find_article_title area = Some t -> In t (tags area).
Proof.
  unfold _find_article_title. intro E.
  apply or_else_cases in E. destruct E as [E|E]; [exact (find_In _ _ _ E)|].
  apply or_else_cases in E. destruct E as [E|E];
    apply find_map_some in E; destruct E as (a & _ & E);
    [exact (find_In _ _ _ E)|exact (select_one_In _ _ _ E)].
Qed.

(** A node below the root is at the end of a path of frames. *)
Lemma descendant_plug soup :
  forall e, In e (descendants soup) -> exists C, soup = plug C e.
Proof.
  induction soup as [i nm at_ cs IH|x|x] using node_induction;
    intros e He; [|destruct He|destruct He].
  apply in_descendants in He. destruct He as (c & Hc & He).
  destruct (in_split _ _ Hc) as (pre & post & ->).
  destruct He as [->|He].
  - exists [Frame i nm at_ pre post]. reflexivity.
  - rewrite Forall_forall in IH. destruct (IH c Hc e He) as (C & HC).
    exists (Frame i nm at_ pre post :: C).
    unfold plug. cbn [fold_right]. fold (plug C e). rewrite <- HC. reflexivity.
Qed.

Lemma holds_spec title c : In title (all_uids c) -> holds title c = true.
Proof.
  unfold holds. destruct c as [u cn ca ck|x|x]; [|intros []|intros []].
  rewrite all_uids_tag. cbn [has_uid In]. intros [->|H].
  - rewrite Nat.eqb_refl. reflexivity.
  - apply orb_true_iff. right. rewrite uids_tag. apply existsb_exists.
    exists title. split; [exact H|apply Nat.eqb_refl].
Qed.

Lemma holds_some title cs :
  In title (flat_map all_uids cs) -> existsb (holds title) cs = true.
Proof.
  intro H. apply in_flat_map in H. destruct H as (c & Hc & H).
  apply existsb_exists. exists c. split; [exact Hc|apply holds_spec; exact H].
Qed.

End ContentArea.

(** ** Title-based truncation *)

Section TitleTheorems.

Import Py Bs4.

(** C7, a defect of the code: [_remove_elements_before_title] is to
    remove all elements that appear before the title element.  The
    paragraph 4 comes before the title 5 in document order and does not
    contain it, and it is still in the tree after the truncation, as is
    the text at the start of the content area; only the [div] 2 has
    gone, because the loop ends at the first element that contains the
    title. *)
Lemma intro_paragraph_survives_truncation :
  option_map uid_of
    (_find_article_title (_find_main_content_area article_with_intro)) = Some 5
  /\ precedes 4 5 article_with_intro = true
  /\ existsb (Nat.eqb 5) (tags_below 4 article_with_intro) = false
  /\ _remove_non_main_content article_with_intro
     = element 0 "[document]"
         [ element 1 "main"
             [ text "lead";
               element 3 "div"
                 [ element 4 "p" [text "intro"];
                   element 5 "h1" [text "T"];
                   element 6 "p" [text "body"] ] ] ]
  /\ attached 4 (_remove_non_main_content article_with_intro) = true.
Proof. repeat split; vm_compute; reflexivity. Qed.

Lemma title_below_area i nm at_ cs t :
  In t (tags (Tag i nm at_ cs)) -> existsb (holds (uid_of t)) cs = true.
Proof.
  intro H. apply holds_some. rewrite <- (uids_tag i nm at_ cs).
  apply in_uids. exists t. split; [exact H|reflexivity].
Qed.

(** X23: what the truncation does remove.  When a title is found in the
    content area, the truncation removes the elements that are children of the content area
    and come before the child that is the title or has the title below
    it, with all that is below them; the text between these children,
    that child with all that is in it (also what comes before the title
    there) and all that follows it stay, and so does the document around
    the content area.  When no title is found nothing is removed.  On a
    page with a [header], a [div] and then the heading, the [div] goes
    and the heading and the paragraph after it stay. *)
Theorem title_truncation :
  (forall soup, distinct soup ->
     match _find_article_title (_find_main_content_area soup) with
     | Some title_element =>
         exists C i nm at_ cs,
           soup = plug C (Tag i nm at_ cs)
           /\ _find_main_content_area soup = Tag i nm at_ cs
           /\ after_title_truncation soup
              = plug C (Tag i nm at_
                          (drop_before_title (uid_of title_element) cs))
     | None => after_title_truncation soup = soup
     end)
  /\ _remove_non_main_content article_page
     = element 0 "[document]"
         [ element 1 "html"
             [ element 2 "body"
                 [ element 5 "h1" [text "Article Title"];
                   element 6 "p" [text "First paragraph"] ] ] ].
Proof.
  split; [|vm_compute; reflexivity].
  intros soup Hd. unfold after_title_truncation.
  destruct (_find_article_title (_find_main_content_area soup))
    as [t|] eqn:Et; [|reflexivity].
  apply article_title_In in Et.
  remember (_find_main_content_area soup) as area eqn:Ha.
  destruct (main_content_area_cases soup) as [Hm|Hm]; rewrite <- Ha in Hm.
  - rewrite Hm in Et |- *. clear Ha Hm area.
    destruct soup as [i nm at_ cs|x|x]; [|destruct Et|destruct Et].
    exists [], i, nm, at_, cs. split; [reflexivity|]. split; [reflexivity|].
    apply (remove_elements_before_title_spec [] i nm at_ cs (uid_of t) Hd).
    apply (title_below_area i nm at_ cs t Et).
  - apply in_tags in Hm. destruct Hm as [Hm Htag].
    destruct (descendant_plug soup area Hm) as (C & HC).
    destruct area as [i nm at_ cs|x|x]; [|discriminate|discriminate].
    exists C, i, nm, at_, cs. split; [exact HC|]. split; [reflexivity|].
    clear Ha Hm. subst soup.
    apply (remove_elements_before_title_spec C i nm at_ cs (uid_of t) Hd).
    apply (title_below_area i nm at_ cs t Et).
Qed.

Lemma title_truncation_witness :
  distinct article_with_intro
  /\ match _find_article_title (_find_main_content_area article_with_intro) with
     | Some title_element =>
         exists C i nm at_ cs,
           article_with_intro = plug C (Tag i nm at_ cs)
           /\ _find_main_content_area article_with_intro = Tag i nm at_ cs
           /\ after_title_truncation article_with_intro
              = plug C (Tag i nm at_
                          (drop_before_title (uid_of title_element) cs))
     | None => after_title_truncation article_with_intro = article_with_intro
     end.
Proof.
  assert (Hd : distinct article_with_intro).
  { unfold distinct. vm_compute. repeat constructor; cbn; lia. }
  split; [exact Hd|].
  apply (proj1 title_truncation article_with_intro Hd).
Defined.

End TitleTheorems.

(** ** Cleaning only deletes text *)

Section TextOrder.

Import Py Bs4.

Lemma subseq_refl (A : Type) (l : list A) : subseq A l l.
Proof. induction l; constructor; assumption. Qed.

Lemma subseq_prefix (A : Type) (p a b : list A) :
  subseq A a b -> subseq A a (p ++ b).
Proof. intro H. induction p; [exact H|]. cbn [app]. constructor. exact IHp. Qed.

Lemma subseq_app (A : Type) (a b c d : list A) :
  subseq A a b -> subseq A c d -> subseq A (a ++ c) (b ++ d).
Proof.
  intros Hab Hcd. induction Hab; cbn [app]; [exact Hcd| |];
    constructor; assumption.
Qed.

Lemma subseq_trans (A : Type) (b c : list A) :
  subseq A b c -> forall a, subseq A a b -> subseq A a c.
Proof.
  induction 1 as [|x b c Hbc IH|x b c Hbc IH]; intros a Hab.
  - exact Hab.
  - constructor. apply IH. exact Hab.
  - inversion Hab; subst.
    + apply subseq_drop. apply IH. assumption.
    + apply subseq_keep. apply IH. assumption.
Qed.

Lemma strings_of_app l1 l2 :
  strings_of (l1 ++ l2) = strings_of l1 ++ strings_of l2.
Proof.
  induction l1 as [|[i nm at_ cs|x|x] l1 IH]; cbn [app strings_of];
    rewrite ?IH; reflexivity.
Qed.

Lemma forest_strings cs' cs :
  sub_forest pruned cs' cs ->
  Forall (fun t => forall r, pruned r t ->
            subseq str (strings_of (r :: descendants r))
                       (strings_of (t :: descendants t))) cs ->
  subseq str (strings_of (flat_map (fun c => c :: descendants c) cs'))
             (strings_of (flat_map (fun c => c :: descendants c) cs)).
Proof.
  induction 1 as [|c l' l Hl IHl|c' c l' l Hc Hl IHl]; intro IH; cbn [flat_map].
  - constructor.
  - apply Forall_cons_iff in IH. destruct IH as [_ IH].
    rewrite (strings_of_app (c :: descendants c)).
    apply subseq_prefix. apply IHl. exact IH.
  - apply Forall_cons_iff in IH. destruct IH as [IHc IH].
    rewrite (strings_of_app (c' :: descendants c')).
    rewrite (strings_of_app (c :: descendants c)).
    apply subseq_app; [apply IHc; exact Hc|].
    apply IHl. exact IH.
Qed.

(** The text nodes of a pruned tree are text nodes of the tree, in the
    same order. *)
Lemma pruned_strings t :
  forall r, pruned r t ->
  subseq str (strings_of (r :: descendants r)) (strings_of (t :: descendants t)).
Proof.
  induction t as [i nm at_ cs IH|x|x] using node_induction; intros r Hrt;
    inversion Hrt as [? ? ? cs' ? Hcs| |]; subst;
    [|apply subseq_refl|apply subseq_refl].
  cbn [strings_of descendants]. apply forest_strings; assumption.
Qed.

Lemma pruned_texts r t :
  pruned r t ->
  subseq str (strings_of (descendants r)) (strings_of (descendants t)).
Proof.
  intro H. pose proof (pruned_strings t r H) as Hs.
  destruct H; cbn [strings_of] in Hs.
  - exact Hs.
  - cbn [descendants strings_of]. constructor.
  - cbn [descendants strings_of]. constructor.
Qed.

(** X1: whatever the cleaning mode, the strings that [get_webpage_text]
    joins are text nodes of the parsed page, in document order: the
    cleaning deletes text, it never adds, changes or moves any. *)
Theorem cleaning_only_deletes_text (aggressive : bool) (soup : node) :
  subseq str (strings_of (descendants (cleaned_soup aggressive soup)))
             (strings_of (descendants soup))
  /\ get_webpage_text aggressive soup
     = clean_up_whitespace
         (concat (strings_of (descendants (cleaned_soup aggressive soup)))).
Proof.
  split; [|reflexivity].
  apply pruned_texts. apply pruned_cleaned_soup_all.
Qed.

End TextOrder.

(** ** What the passes leave behind *)

Section Passes.

Import Py Bs4.

(** A loop of passes, each of which removes what its own test finds:
    nothing that any of the tests finds is left at the end. *)
Lemma fold_gone (A : Type) (step : node -> A -> node) (test : A -> node -> bool) :
  (forall t x, pruned (step t x) t) ->
  (forall t x e, In e (tags (step t x)) -> test x e = false) ->
  (forall x, shell_test (test x)) ->
  forall xs soup x e,
    In x xs -> In e (tags (fold_left step xs soup)) -> test x e = false.
Proof.
  intros Hp Hs Ht xs. induction xs as [|y xs IH]; intros soup x e Hx He;
    [destruct Hx|].
  cbn [fold_left] in He. destruct Hx as [->|Hx].
  - apply (@pruned_none (test x) (fold_left step xs (step soup x)) (step soup x)
             (Ht x) (@fold_pruned A step xs Hp (step soup x))); [|exact He].
    intros e' He'. apply (Hs soup x e' He').
  - apply (IH (step soup y) x e Hx He).
Qed.

Lemma named_shell names : shell_test (named names).
Proof.
  intros a b H. unfold named.
  destruct (shell_inv H) as (_ & Hn & _). rewrite Hn. reflexivity.
Qed.

Lemma name_in_named names e :
  is_tag e = true -> name_in names e = named names e.
Proof. intro H. unfold name_in. rewrite H. reflexivity. Qed.

Lemma find_all_name_in names soup :
  find_all (name_in names) soup = find_all (named names) soup.
Proof.
  unfold find_all. apply filter_ext_in. intros e He.
  apply in_tags in He. apply name_in_named. apply He.
Qed.

Lemma attr_is_shell k v : shell_test (attr_is k v).
Proof.
  intros a b H. unfold attr_is.
  destruct (shell_inv H) as (_ & _ & Ha). rewrite Ha. reflexivity.
Qed.

Lemma remove_selected_gone soup sel e :
  In e (tags (remove_selected soup sel)) -> matches sel e = false.
Proof.
  unfold remove_selected, select. apply find_all_decomposed.
  intros a b. apply matches_shell.
Qed.

Lemma remove_structural_gone soup sel e :
  In sel structural_selectors ->
  In e (tags (remove_structural soup)) -> matches sel e = false.
Proof.
  rewrite remove_structural_unfold.
  apply (fold_gone _ remove_selected (fun sel e => matches sel e)).
  - intros t x. apply pruned_remove_selected.
  - intros t x e'. apply remove_selected_gone.
  - intros x a b. apply matches_shell.
Qed.

Lemma pruned_remove_non_main_content_structural soup :
  pruned (_remove_non_main_content soup) (remove_structural soup).
Proof.
  rewrite remove_non_main_content_eq. cbv zeta.
  eapply pruned_trans; [apply pruned_decompose_where|].
  eapply pruned_trans; [apply pruned_decompose_where|].
  apply pruned_after_title_truncation.
Qed.

End Passes.

(** ** The passes of the aggressive cleaning *)

Section AggressivePasses.

Import Py Bs4.

Lemma aggressive_clean_html_passes soup :
  _aggressive_clean_html soup = run_passes aggressive_passes soup.
Proof.
  unfold _aggressive_clean_html, run_passes, aggressive_passes.
  cbn [fold_left]. reflexivity.
Qed.

Lemma pruned_run_passes passes :
  Forall (fun p => forall t, pruned (p t) t) passes ->
  forall soup, pruned (run_passes passes soup) soup.
Proof.
  unfold run_passes. induction 1 as [|p passes Hp _ IH]; intro soup;
    cbn [fold_left]; [apply pruned_refl|].
  eapply pruned_trans; [apply IH|apply Hp].
Qed.

Lemma aggressive_passes_prune :
  Forall (fun p => forall t, pruned (p t) t) aggressive_passes.
Proof.
  unfold aggressive_passes.
  repeat (apply Forall_cons;
          [intro t;
           first [apply pruned_decompose_live | apply pruned_decompose_where
                 | apply pruned_decompose_for | apply pruned_extract_comments
                 | apply pruned_decompose_each]|]).
  apply Forall_nil.
Qed.

(** A property that pruning keeps and that one of the passes
    establishes holds at the end. *)
Lemma pass_establishes (Q : node -> Prop) (before after : list (node -> node)) p :
  (forall r t, pruned r t -> Q t -> Q r) ->
  Forall (fun p => forall t, pruned (p t) t) after ->
  (forall t, Q (p t)) ->
  forall soup, Q (run_passes (before ++ p :: after) soup).
Proof.
  intros HQ Hafter Hp soup. unfold run_passes.
  rewrite fold_left_app. cbn [fold_left].
  apply (HQ _ (p (fold_left (fun t q => q t) before soup))); [|apply Hp].
  apply (pruned_run_passes after Hafter).
Qed.

Lemma free_from_pruned test :
  shell_test test -> forall r t, pruned r t -> free_from test t -> free_from test r.
Proof. intros Ht r t Hrt H. exact (@pruned_none test r t Ht Hrt H). Qed.

(** What the aggressive cleaning keeps of a property that one of its
    passes, the one after [k] others, establishes. *)
Lemma aggressive_establishes (Q : node -> Prop) (k : nat) p :
  (forall r t, pruned r t -> Q t -> Q r) ->
  aggressive_passes = firstn k aggressive_passes ++ p :: skipn (S k) aggressive_passes ->
  (forall t, Q (p t)) ->
  forall soup, Q (_aggressive_clean_html soup).
Proof.
  intros HQ Hsplit Hp soup. rewrite aggressive_clean_html_passes, Hsplit.
  apply pass_establishes; [exact HQ| |exact Hp].
  pose proof aggressive_passes_prune as H.
  rewrite <- (firstn_skipn (S k) aggressive_passes) in H.
  apply Forall_app in H. apply H.
Qed.

Lemma decompose_each_named names soup :
  free_from (named names)
            (decompose_each (find_all (name_in names) soup) soup).
Proof.
  intros e. rewrite find_all_name_in. apply find_all_decomposed.
  apply named_shell.
Qed.

Lemma decompose_for_name_in names soup :
  decompose_for (fun tag => name_in [tag]) names soup
  = decompose_for (fun tag => named [tag]) names soup.
Proof.
  unfold decompose_for. revert soup.
  induction names as [|x names IH]; intro soup; [reflexivity|].
  cbn [fold_left]. rewrite IH. unfold decompose_found at 2 4.
  rewrite find_all_name_in. reflexivity.
Qed.

Lemma named_one names e :
  (forall x, In x names -> named [x] e = false) -> named names e = false.
Proof.
  intro H. unfold named. induction names as [|x names IH]; [reflexivity|].
  cbn [existsb]. apply orb_false_iff. split.
  - specialize (H x (or_introl eq_refl)). unfold named in H. cbn [existsb] in H.
    rewrite orb_false_r in H. exact H.
  - apply IH. intros y Hy. apply H. right. exact Hy.
Qed.

Lemma decompose_found_gone (A : Type) (test : A -> node -> bool) soup x :
  shell_test (test x) -> free_from (test x) (decompose_found test soup x).
Proof.
  intros Ht e. unfold decompose_found. apply find_all_decomposed. exact Ht.
Qed.

Lemma decompose_for_gone (A : Type) (test : A -> node -> bool) xs soup x :
  (forall y, shell_test (test y)) ->
  In x xs -> free_from (test x) (decompose_for test xs soup).
Proof.
  intros Ht Hx e He. unfold decompose_for in He.
  apply (fold_gone A (decompose_found test) test) with (xs := xs) (soup := soup);
    try assumption.
  - intros t y. unfold decompose_found. apply pruned_decompose_each.
  - intros t y e'. apply decompose_found_gone. apply Ht.
Qed.

Lemma decompose_for_named names soup :
  free_from (named names) (decompose_for (fun tag => name_in [tag]) names soup).
Proof.
  intros e He. rewrite decompose_for_name_in in He.
  apply named_one. intros x Hx.
  apply (decompose_for_gone str (fun tag => named [tag]) names soup x);
    [|exact Hx|exact He].
  intro y. apply named_shell.
Qed.

End AggressivePasses.

(** ** What the cleaned tree no longer holds: the structural pass and the
       aggressive passes *)

Section CleanedTree.

Import Py Bs4.

Lemma filter_none (A : Type) (f : A -> bool) l :
  (forall a, In a l -> f a = false) -> filter f l = [].
Proof.
  induction l as [|a l IH]; intro H; [reflexivity|]. cbn [filter].
  rewrite (H a (or_introl eq_refl)). apply IH. intros b Hb. apply H. right. exact Hb.
Qed.

Lemma free_from_find_all test t : free_from test t -> find_all test t = [].
Proof. intro H. unfold find_all. apply filter_none. exact H. Qed.

Lemma free_from_name_in names t :
  free_from (named names) t -> find_all (name_in names) t = [].
Proof. intro H. rewrite find_all_name_in. apply free_from_find_all. exact H. Qed.

Lemma named_app a b e : named (a ++ b) e = named a e || named b e.
Proof. unfold named. apply existsb_app. Qed.

(** X2: after [_remove_non_main_content] none of the structural
    selectors selects anything. *)
Theorem structural_elements_removed (soup : node) :
  Forall (fun sel => select sel (_remove_non_main_content soup) = [])
         structural_selectors.
Proof.
  apply Forall_forall. intros sel Hsel. unfold select.
  apply free_from_find_all.
  apply (free_from_pruned (matches sel) (matches_shell sel)
           _ _ (pruned_remove_non_main_content_structural soup)).
  intros e He. apply (remove_structural_gone soup sel e Hsel He).
Qed.

Lemma remove_nothing sels t :
  (forall sel, In sel sels -> select sel t = []) ->
  fold_left remove_selected sels t = t.
Proof.
  induction sels as [|a sels IH]; intro H; [reflexivity|].
  cbn [fold_left]. unfold remove_selected at 2.
  rewrite (H a (or_introl eq_refl)).
  change (decompose_each [] t) with t.
  apply IH. intros sel Hsel. apply H. right. exact Hsel.
Qed.

(** X3: the structural pass is idempotent. *)
Theorem remove_structural_idempotent (soup : node) :
  remove_structural (remove_structural soup) = remove_structural soup.
Proof.
  rewrite (remove_structural_unfold (remove_structural soup)).
  apply remove_nothing. intros sel Hsel. unfold select.
  apply free_from_find_all. intros e He.
  apply (remove_structural_gone soup sel e Hsel He).
Qed.

Lemma aggressive_free_from_names (k : nat) names p :
  aggressive_passes = firstn k aggressive_passes ++ p :: skipn (S k) aggressive_passes ->
  (forall t, free_from (named names) (p t)) ->
  forall soup, free_from (named names) (_aggressive_clean_html soup).
Proof.
  intros Hsplit Hp.
  apply (aggressive_establishes (free_from (named names)) k p); try assumption.
  apply free_from_pruned. apply named_shell.
Qed.

(** X4: after the aggressive cleaning the tree has no element with one
    of the removed names. *)
Theorem aggressive_removes_tags (soup : node) :
  find_all (name_in aggressively_removed_tags) (_aggressive_clean_html soup) = [].
Proof.
  apply free_from_name_in. intros e He. unfold aggressively_removed_tags.
  rewrite !named_app.
  apply orb_false_iff; split;
    [|apply orb_false_iff; split; [|apply orb_false_iff; split]].
  - exact (aggressive_free_from_names 0 _ _ eq_refl
             (fun t => decompose_each_named _ t) soup e He).
  - exact (aggressive_free_from_names 1 _ _ eq_refl
             (fun t => decompose_for_named _ t) soup e He).
  - exact (aggressive_free_from_names 5 _ _ eq_refl
             (fun t => decompose_for_named _ t) soup e He).
  - exact (aggressive_free_from_names 6 _ _ eq_refl
             (fun t => decompose_for_named _ t) soup e He).
Qed.

End CleanedTree.

(** ** Advertisements, roles, sizes and comments *)

Section AggressiveTheorems.

Import Py Bs4.

Lemma has_attr_false k e : has_attr k e = false -> get k (tag_attrs e) = None.
Proof. unfold has_attr. destruct (get k (tag_attrs e)); [discriminate|reflexivity]. Qed.

Lemma ad_class_matches_shell : shell_test ad_class_matches.
Proof.
  intros a b H. unfold ad_class_matches.
  destruct (shell_inv H) as (_ & _ & Ha). rewrite Ha. reflexivity.
Qed.

Lemma ad_id_matches_shell : shell_test ad_id_matches.
Proof.
  intros a b H. unfold ad_id_matches.
  destruct (shell_inv H) as (_ & _ & Ha). rewrite Ha. reflexivity.
Qed.


Lemma has_attr_shell_test k : shell_test (has_attr k).
Proof. intros a b. apply has_attr_shell. Qed.

Lemma no_ad_in_empty_string : any_search ad_patterns [] = false.
Proof. vm_compute. reflexivity. Qed.

Lemma ad_class_pass t :
  free_from ad_class_matches
    (decompose_where ad_class_matches (find_all (has_attr (s "class")) t) t).
Proof.
  intros e He. destruct (has_attr (s "class") e) eqn:Hc.
  - exact (@find_where_decomposed ad_class_matches (has_attr (s "class")) t e
             ad_class_matches_shell (has_attr_shell_test (s "class")) Hc He).
  - unfold ad_class_matches. rewrite (has_attr_false _ _ Hc).
    exact no_ad_in_empty_string.
Qed.

Lemma ad_id_pass t :
  free_from ad_id_matches
    (decompose_where ad_id_matches (find_all (has_attr (s "id")) t) t).
Proof.
  intros e He. destruct (has_attr (s "id") e) eqn:Hc.
  - exact (@find_where_decomposed ad_id_matches (has_attr (s "id")) t e
             ad_id_matches_shell (has_attr_shell_test (s "id")) Hc He).
  - unfold ad_id_matches. rewrite (has_attr_false _ _ Hc).
    exact no_ad_in_empty_string.
Qed.



(** X5: after the aggressive cleaning no element is left whose classes
    or whose id one of the advertisement patterns finds. *)
Theorem aggressive_removes_ad_patterns (soup : node) :
  find_all ad_class_matches (_aggressive_clean_html soup) = []
  /\ find_all ad_id_matches (_aggressive_clean_html soup) = [].
Proof.
  split; apply free_from_find_all.
  - apply (aggressive_establishes (free_from ad_class_matches) 2 _
             (free_from_pruned _ ad_class_matches_shell) eq_refl ad_class_pass).
  - apply (aggressive_establishes (free_from ad_id_matches) 3 _
             (free_from_pruned _ ad_id_matches_shell) eq_refl ad_id_pass).
Qed.

(** X6: after the aggressive cleaning no element has one of the unwanted
    roles. *)
Theorem aggressive_removes_roles (soup : node) :
  Forall (fun role =>
            find_all (attr_is (s "role") role) (_aggressive_clean_html soup) = [])
         unwanted_roles.
Proof.
  apply Forall_forall. intros role Hrole. apply free_from_find_all.
  apply (aggressive_establishes (free_from (attr_is (s "role") role)) 4 _
           (free_from_pruned _ (attr_is_shell (s "role") role)) eq_refl).
  intro t.
  apply (decompose_for_gone str (attr_is (s "role")) unwanted_roles t role);
    [|exact Hrole].
  intro y. apply attr_is_shell.
Qed.


Lemma comment_free_pruned r t : pruned r t -> comment_free t -> comment_free r.
Proof.
  intros Hrt H e He.
  destruct (@pruned_descendants r t Hrt e He) as (e' & He' & Hee).
  specialize (H e' He'). destruct Hee; [reflexivity|reflexivity|discriminate H].
Qed.

Lemma extract_comments_free n : comment_free (extract_comments n).
Proof.
  induction n as [i nm at_ cs IH|x|x] using node_induction;
    intros e He; [|destruct He|destruct He].
  cbn [extract_comments] in He. apply in_descendants in He.
  destruct He as (c' & Hc' & He). apply filter_In in Hc'.
  destruct Hc' as [Hc' Hkeep]. apply in_map_iff in Hc'.
  destruct Hc' as (c & <- & Hc). destruct He as [->|He].
  - destruct (extract_comments c); [reflexivity|reflexivity|discriminate Hkeep].
  - rewrite Forall_forall in IH. apply (IH c Hc e He).
Qed.

(** X8: after the aggressive cleaning the tree holds no comment. *)
Theorem aggressive_removes_comments (soup : node) :
  existsb is_comment (descendants (_aggressive_clean_html soup)) = false.
Proof.
  destruct (existsb is_comment (descendants (_aggressive_clean_html soup))) eqn:E;
    [|reflexivity].
  apply existsb_exists in E. destruct E as (e & He & Hc).
  rewrite (aggressive_establishes comment_free 8 _ comment_free_pruned eq_refl
             extract_comments_free soup e He) in Hc.
  discriminate Hc.
Qed.

Lemma named_incl a b e : incl a b -> named b e = false -> named a e = false.
Proof.
  unfold named. intros Hab Hb.
  destruct (existsb (str_eqb (tag_name e)) a) eqn:E; [|reflexivity].
  apply existsb_exists in E. destruct E as (x & Hx & Hm).
  rewrite <- Hb. symmetry. apply existsb_exists. exists x. split; [|exact Hm].
  apply Hab. exact Hx.
Qed.

(** X9: in either mode the tree that the text is read from has no
    [script] and no [style] element. *)
Theorem no_script_or_style_in_text (aggressive : bool) (soup : node) :
  find_all (name_in (map s ["script"; "style"]%string))
           (cleaned_soup aggressive soup) = [].
Proof.
  apply free_from_name_in. unfold cleaned_soup. cbv zeta.
  destruct aggressive.
  - intros e He.
    apply (named_incl _ (map s ["script"; "style"; "noscript"]%string)).
    + intros x Hx. cbn [map In] in *. tauto.
    + exact (aggressive_free_from_names 0 _ _ eq_refl
               (fun t => decompose_each_named _ t) _ e He).
  - apply decompose_each_named.
Qed.

End AggressiveTheorems.

(** ** The content area and the title that the searches settle on *)

Section Searches.

Import Py Bs4.

Lemma hd_error_filter (A : Type) (f : A -> bool) l a :
  hd_error (filter f l) = Some a -> In a l /\ f a = true.
Proof. intro H. apply hd_error_In in H. apply filter_In in H. exact H. Qed.

Lemma hd_error_filter_none (A : Type) (f : A -> bool) l :
  hd_error (filter f l) = None -> forall a, In a l -> f a = false.
Proof.
  intros H a Ha. destruct (f a) eqn:E; [|reflexivity].
  assert (Hin : In a (filter f l)) by (apply filter_In; split; assumption).
  destruct (filter f l); [destruct Hin|discriminate H].
Qed.

Lemma find_found test soup e :
  find test soup = Some e -> In e (tags soup) /\ test e = true.
Proof. apply hd_error_filter. Qed.

Lemma find_nothing test soup :
  find test soup = None -> free_from test soup.
Proof. intro H. exact (hd_error_filter_none _ _ _ H). Qed.

Lemma select_one_found sel soup e :
  select_one sel soup = Some e -> In e (tags soup) /\ matches sel e = true.
Proof. apply hd_error_filter. Qed.

Lemma select_one_nothing sel soup :
  select_one sel soup = None -> free_from (matches sel) soup.
Proof. intro H. exact (hd_error_filter_none _ _ _ H). Qed.

Lemma find_map_nothing (A B : Type) (f : A -> option B) l :
  find_map f l = None -> forall a, In a l -> f a = None.
Proof.
  induction l as [|x l IH]; intros H a Ha; [destruct Ha|].
  cbn [find_map] in H. destruct (f x) eqn:E; [discriminate H|].
  destruct Ha as [->|Ha]; [exact E|apply IH; assumption].
Qed.

Lemma or_else_none (A : Type) (a b : option A) :
  or_else a b = None -> a = None /\ b = None.
Proof. destruct a; cbn [or_else]; intro H; [discriminate H|split; [reflexivity|exact H]]. Qed.

Lemma name_in_incl a b e : incl a b -> name_in a e = true -> name_in b e = true.
Proof.
  unfold name_in. intros Hab H. apply andb_true_iff in H. destruct H as [Ht H].
  rewrite Ht. cbn [andb]. apply existsb_exists in H. destruct H as (x & Hx & Hm).
  apply existsb_exists. exists x. split; [apply Hab; exact Hx|exact Hm].
Qed.

Lemma name_in_none names e :
  (forall x, In x names -> name_in [x] e = false) -> name_in names e = false.
Proof.
  intro H. unfold name_in. destruct (is_tag e) eqn:Ht; [|reflexivity].
  cbn [andb]. change (named names e = false). apply named_one.
  intros x Hx. rewrite <- (name_in_named [x] e Ht). apply H. exact Hx.
Qed.

(** X10: the content area is an element of the document that is one of
    the candidates, or the document itself when it has no candidate. *)
Theorem main_content_area_spec (soup : node) :
  (In (_find_main_content_area soup) (tags soup)
   /\ area_candidate (_find_main_content_area soup) = true)
  \/ (_find_main_content_area soup = soup
      /\ find_all area_candidate soup = []).
Proof.
  unfold _find_main_content_area.
  match goal with |- context [match ?f with Some _ => _ | None => _ end] =>
    destruct f as [e|] eqn:E end.
  - left. unfold area_candidate.
    apply or_else_cases in E. destruct E as [E|E].
    { apply find_found in E. destruct E as [He Ht]. split; [exact He|].
      rewrite (name_in_incl [s "main"] _ e) by (try exact Ht; intros x [<-|[]]; cbn; tauto).
      reflexivity. }
    apply or_else_cases in E. destruct E as [E|E].
    { apply find_found in E. destruct E as [He Ht]. split; [exact He|].
      rewrite (name_in_incl [s "article"] _ e) by (try exact Ht; intros x [<-|[]]; cbn; tauto).
      reflexivity. }
    apply or_else_cases in E. destruct E as [E|E].
    { apply find_found in E. destruct E as [He Ht]. split; [exact He|].
      rewrite Ht. apply orb_true_iff. left. apply orb_true_r. }
    apply or_else_cases in E. destruct E as [E|E].
    { apply find_map_some in E. destruct E as (sel & Hsel & E).
      apply select_one_found in E. destruct E as [He Ht]. split; [exact He|].
      apply orb_true_iff. right. apply existsb_exists. exists sel.
      split; assumption. }
    apply find_found in E. destruct E as [He Ht]. split; [exact He|].
    rewrite (name_in_incl [s "body"] _ e) by (try exact Ht; intros x [<-|[]]; cbn; tauto).
    reflexivity.
  - right. split; [reflexivity|]. apply free_from_find_all. intros e He.
    apply or_else_none in E. destruct E as [E1 E].
    apply or_else_none in E. destruct E as [E2 E].
    apply or_else_none in E. destruct E as [E3 E].
    apply or_else_none in E. destruct E as [E4 E5].
    unfold area_candidate.
    rewrite (find_nothing _ _ E3 e He), orb_false_r.
    apply orb_false_iff. split.
    + apply name_in_none. intros x Hx. cbn [map In] in Hx.
      destruct Hx as [<-|[<-|[<-|[]]]].
      * exact (find_nothing _ _ E1 e He).
      * exact (find_nothing _ _ E2 e He).
      * exact (find_nothing _ _ E5 e He).
    + destruct (existsb (fun sel => matches sel e) main_selectors) eqn:Ex;
        [|reflexivity].
      apply existsb_exists in Ex. destruct Ex as (sel & Hsel & Hm).
      pose proof (find_map_nothing _ _ _ _ E4 sel Hsel) as Hn. cbv beta in Hn.
      rewrite (select_one_nothing _ _ Hn e He) in Hm. discriminate Hm.
Qed.

End Searches.

(** ** The title that the search settles on *)

Section TitleSearch.

Import Py Bs4.

Lemma contains_trans v c x :
  contains v c = true -> contains c x = true -> contains v x = true.
Proof.
  intros Hv Hc. apply contains_spec in Hv. apply contains_spec in Hc.
  destruct Hv as (a & b & ->). destruct Hc as (a' & b' & ->).
  apply contains_spec. exists (a' ++ a), (b ++ b').
  rewrite <- !app_assoc. reflexivity.
Qed.

Lemma in_join_infix sep c vs :
  In c vs -> exists a b, join sep vs = a ++ c ++ b.
Proof.
  induction vs as [|v vs IH]; intro H; [destruct H|].
  destruct H as [->|H].
  - destruct vs as [|v' vs].
    + exists [], []. cbn [join app]. rewrite app_nil_r. reflexivity.
    + exists [], (sep ++ join sep (v' :: vs)). reflexivity.
  - destruct (IH H) as (a & b & E). destruct vs as [|v' vs]; [destruct H|].
    exists (v ++ sep ++ a), b.
    change (join sep (v :: v' :: vs)) with (v ++ sep ++ join sep (v' :: vs)).
    rewrite E, <- !app_assoc. reflexivity.
Qed.

Lemma in_split_go_infix w x :
  forall cur, In w (split_go cur x) -> exists a b, rev cur ++ x = a ++ w ++ b.
Proof.
  induction x as [|c x IH]; intros cur H.
  - cbn [split_go] in H. destruct cur as [|d cur]; [destruct H|].
    destruct H as [<-|[]]. exists [], []. cbn [app]. reflexivity.
  - cbn [split_go] in H. destruct (isspace c).
    + destruct cur as [|d cur].
      * destruct (IH [] H) as (a & b & E). cbn [rev app] in E.
        exists (c :: a), b. cbn [rev app]. rewrite E. reflexivity.
      * destruct H as [<-|H].
        { exists [], (c :: x). reflexivity. }
        destruct (IH [] H) as (a & b & E). cbn [rev app] in E.
        exists (rev (d :: cur) ++ c :: a), b. rewrite E, <- app_assoc. reflexivity.
    + destruct (IH (c :: cur) H) as (a & b & E).
      exists a, b. rewrite <- E. cbn [rev]. rewrite <- app_assoc. reflexivity.
Qed.

Lemma in_split_infix w x : In w (split x) -> exists a b, x = a ++ w ++ b.
Proof. intro H. exact (in_split_go_infix w x [] H). Qed.

(** An element with the class [c] has a class attribute that contains
    every part of [c]. *)
Lemma class_token_contains c v e :
  matches (SelClass c) e = true -> contains (s v) c = true ->
  class_contains v e = true.
Proof.
  unfold class_contains. cbn [matches]. unfold classes. intros Hc Hv.
  destruct (get (s "class") (tag_attrs e)) as [[x|vs]|]; [| |discriminate Hc];
    apply existsb_exists in Hc; destruct Hc as (c' & Hin & Heq);
    apply str_eqb_eq in Heq; subst c'; cbn [attr_string];
    apply (contains_trans (s v) c); try exact Hv; apply contains_spec.
  - apply in_split_infix. exact Hin.
  - apply in_join_infix. exact Hin.
Qed.

Lemma title_selector_candidate sel e :
  In sel title_selectors -> matches sel e = true ->
  class_contains "title" e || class_contains "headline" e = true.
Proof.
  intros Hsel Hm. unfold title_selectors in Hsel. cbn [In] in Hsel.
  apply orb_true_iff.
  destruct Hsel as [<-|[<-|[<-|[<-|[<-|[<-|[<-|[]]]]]]]].
  - left. apply (class_token_contains _ _ _ Hm). reflexivity.
  - right. apply (class_token_contains _ _ _ Hm). reflexivity.
  - left. apply (class_token_contains _ _ _ Hm). reflexivity.
  - left. apply (class_token_contains _ _ _ Hm). reflexivity.
  - left. apply (class_token_contains _ _ _ Hm). reflexivity.
  - left. exact Hm.
  - right. exact Hm.
Qed.

(** X11: the title is an element below the content area that is one of
    the candidates; none is found only when the content area has no
    candidate below it. *)
Theorem article_title_spec (content_area : node) :
  match _find_article_title content_area with
  | Some title_element =>
      In title_element (tags content_area)
      /\ title_candidate title_element = true
  | None => find_all title_candidate content_area = []
  end.
Proof.
  destruct (_find_article_title content_area) as [t|] eqn:E;
    unfold _find_article_title in E.
  - unfold title_candidate.
    apply or_else_cases in E. destruct E as [E|E].
    { apply find_found in E. destruct E as [He Ht]. split; [exact He|].
      rewrite (name_in_incl [s "h1"] _ t)
        by (try exact Ht; intros x [<-|[]]; cbn; tauto).
      reflexivity. }
    apply or_else_cases in E. destruct E as [E|E].
    { apply find_map_some in E. destruct E as (level & Hl & E).
      apply find_found in E. destruct E as [He Ht]. split; [exact He|].
      rewrite (name_in_incl [level] _ t)
        by (try exact Ht; intros x [<-|[]]; cbn [map In] in *; tauto).
      reflexivity. }
    apply find_map_some in E. destruct E as (sel & Hsel & E).
    apply select_one_found in E. destruct E as [He Ht]. split; [exact He|].
    rewrite <- orb_assoc, (title_selector_candidate sel t Hsel Ht).
    apply orb_true_r.
  - apply free_from_find_all. intros e He.
    apply or_else_none in E. destruct E as [E1 E].
    apply or_else_none in E. destruct E as [E2 E3].
    unfold title_candidate. rewrite <- orb_assoc.
    apply orb_false_iff. split.
    + apply name_in_none. intros x Hx. cbn [map In] in Hx.
      destruct Hx as [<-|Hx]; [exact (find_nothing _ _ E1 e He)|].
      pose proof (find_map_nothing _ _ _ _ E2 x) as Hn. cbv beta in Hn.
      apply (find_nothing _ _ (Hn Hx) e He).
    + apply orb_false_iff. split.
      * pose proof (find_map_nothing _ _ _ _ E3
                      (SelAttrContains (s "class") (s "title"))) as Hn.
        cbv beta in Hn.
        apply (select_one_nothing _ _ (Hn ltac:(cbn; tauto)) e He).
      * pose proof (find_map_nothing _ _ _ _ E3
                      (SelAttrContains (s "class") (s "headline"))) as Hn.
        cbv beta in Hn.
        apply (select_one_nothing _ _ (Hn ltac:(cbn; tauto)) e He).
Qed.

End TitleSearch.

(** ** The class and id patterns of [_remove_non_main_content] *)

Section NonContentPatterns.

Import Py Bs4.

Lemma class_matches_shell_test ps : shell_test (class_matches ps).
Proof. intros a b H. exact (class_matches_shell ps H). Qed.

Lemma id_matches_shell_test ps : shell_test (id_matches ps).
Proof.
  intros a b H. unfold id_matches.
  destruct (shell_inv H) as (_ & _ & Ha). rewrite Ha. reflexivity.
Qed.

Lemma class_pattern_pass ps t :
  free_from (class_matches ps)
    (decompose_where (class_matches ps) (find_all (has_attr (s "class")) t) t).
Proof.
  intros e He. destruct (has_attr (s "class") e) eqn:Hc.
  - exact (@find_where_decomposed (class_matches ps) (has_attr (s "class")) t e
             (class_matches_shell_test ps) (has_attr_shell_test (s "class")) Hc He).
  - unfold class_matches. rewrite (has_attr_false _ _ Hc). reflexivity.
Qed.

Lemma id_pattern_pass ps t :
  free_from (id_matches ps)
    (decompose_where (id_matches ps) (find_all (has_attr (s "id")) t) t).
Proof.
  intros e He. destruct (has_attr (s "id") e) eqn:Hc.
  - exact (@find_where_decomposed (id_matches ps) (has_attr (s "id")) t e
             (id_matches_shell_test ps) (has_attr_shell_test (s "id")) Hc He).
  - unfold id_matches. rewrite (has_attr_false _ _ Hc). reflexivity.
Qed.

Lemma remove_non_main_content_patterns soup :
  free_from (class_matches non_content_patterns) (_remove_non_main_content soup)
  /\ free_from (id_matches non_content_patterns) (_remove_non_main_content soup).
Proof.
  rewrite remove_non_main_content_eq. cbv zeta. split.
  - apply (free_from_pruned _ (class_matches_shell_test non_content_patterns)
             _ _ (pruned_decompose_where _ _ _)).
    apply class_pattern_pass.
  - apply id_pattern_pass.
Qed.

(** X12: in either mode the tree that the text is read from has no
    element whose classes or whose id one of the non-content patterns
    finds. *)
Theorem non_content_patterns_removed (aggressive : bool) (soup : node) :
  find_all (class_matches non_content_patterns) (cleaned_soup aggressive soup) = []
  /\ find_all (id_matches non_content_patterns) (cleaned_soup aggressive soup) = [].
Proof.
  destruct (remove_non_main_content_patterns soup) as [Hc Hi].
  split; apply free_from_find_all.
  - exact (free_from_pruned _ (class_matches_shell_test non_content_patterns)
             _ _ (pruned_cleaned_soup aggressive soup) Hc).
  - exact (free_from_pruned _ (id_matches_shell_test non_content_patterns)
             _ _ (pruned_cleaned_soup aggressive soup) Hi).
Qed.

End NonContentPatterns.

(** ** The file names are safe *)

Section SafeFileNames.

Import Py Url.

Variable bracketed_netloc_ok : str -> bool.

Lemma Forall_skipn_keep (A : Type) (P : A -> Prop) n (l : list A) :
  Forall P l -> Forall P (skipn n l).
Proof.
  intro H. rewrite <- (firstn_skipn n l) in H. apply Forall_app in H. apply H.
Qed.

Lemma replaced_char_safe c :
  unsafe_in_stem (if inset (separators ++ invalid_chars) c then "_"%char else c)
  = false.
Proof.
  unfold unsafe_in_stem.
  destruct (inset (separators ++ invalid_chars) c) eqn:E; [reflexivity|exact E].
Qed.

Lemma sanitize_replacing_safe x :
  sanitize_replacing x <> []
  /\ Forall (fun c => unsafe_in_stem c = false) (sanitize_replacing x).
Proof.
  unfold sanitize_replacing. cbv zeta.
  set (y := map _ x).
  assert (Hy : Forall (fun c => unsafe_in_stem c = false) y).
  { unfold y. apply Forall_forall. intros c Hc. apply in_map_iff in Hc.
    destruct Hc as (a & <- & _). apply replaced_char_safe. }
  destruct (nonempty (strip_chars y (s ". "))) eqn:E.
  - split; [apply nonempty_spec; exact E|].
    unfold strip_chars.
    destruct (strip_infix (inset (s ". ")) y) as (p & q & Hpq).
    rewrite Hpq in Hy. apply Forall_app in Hy. destruct Hy as [_ Hy].
    apply Forall_app in Hy. apply Hy.
  - split; [discriminate|].
    repeat constructor.
Qed.

Lemma stem_safe x : safe_stem (last_chars 16 (sanitize_replacing x)).
Proof.
  destruct (sanitize_replacing_safe x) as [Hne Hs].
  unfold safe_stem. split.
  - split; [|apply last_chars_length].
    unfold last_chars. rewrite length_skipn.
    destruct (sanitize_replacing x); [congruence|cbn [length]; lia].
  - apply forallb_forall. intros c Hc.
    unfold last_chars in Hc.
    pose proof (Forall_skipn_keep _ _ (length (sanitize_replacing x) - 16) _ Hs) as H.
    rewrite Forall_forall in H. rewrite (H c Hc). reflexivity.
Qed.

(** X13: for a URL that [urlparse] parses, the file name is a stem of
    one to sixteen characters, none of which is a slash, a backslash, a
    dot, a plus sign or an invalid character, followed by a dot and the
    extension; for a URL at which [urlparse] raises its [ValueError],
    the function raises it too. *)
Theorem filename_stem_is_safe (url extension : str) :
  (forall parsed,
     urlparse bracketed_netloc_ok url = Ok parsed ->
     exists stem,
       _get_filename_from_url bracketed_netloc_ok url extension
       = Ok (stem ++ s "." ++ extension)
       /\ safe_stem stem)
  /\ (forall e,
       urlparse bracketed_netloc_ok url = Raise e ->
       _get_filename_from_url bracketed_netloc_ok url extension = Raise e).
Proof.
  split.
  - intros parsed H.
    exists (last_chars 16 (sanitize_replacing (host_and_path parsed))).
    split; [apply (@get_filename_sanitize _ _ _ _ H)|apply stem_safe].
  - intros e H. apply (@get_filename_raises _ _ _ _ H).
Qed.






(** ** Where the parse succeeds *)









End SafeFileNames.

Lemma filename_stem_is_safe_witness :
  (exists stem,
     _get_filename_from_url accept_brackets
       (Py.s "https://en.wikipedia.org/wiki/Help:Contents") (Py.s "txt")
     = Py.Ok (stem ++ Py.s "." ++ Py.s "txt")
     /\ safe_stem stem)
  /\ _get_filename_from_url accept_brackets (Py.s "http://a]b/c") (Py.s "txt")
     = Py.Raise Py.ValueError.
Proof.
  destruct (filename_stem_is_safe accept_brackets
              (Py.s "https://en.wikipedia.org/wiki/Help:Contents") (Py.s "txt"))
    as (H1 & _).
  destruct (filename_stem_is_safe accept_brackets
              (Py.s "http://a]b/c") (Py.s "txt")) as (_ & H2).
  split; [exact (H1 _ eq_refl)|exact (H2 _ eq_refl)].
Defined.


(** ** The chunk splitter on short and on sparse texts *)

Section ChunkEdges.

Import Py.

Open Scope Z_scope.

Lemma one_message (content : str) (m : Z) :
  content <> [] -> len content <= m -> (len content + m - 1) / m = 1.
Proof.
  intros Hne Hle.
  assert (Hlen : 0 < len content).
  { unfold len. destruct content; [congruence|cbn [length]; lia]. }
  symmetry. apply (Z.div_unique_pos _ _ 1 (len content - 1)); lia.
Qed.

(** X15: a text that fits into one message comes back as one chunk, its
    words joined by single spaces: the line breaks and the other
    whitespace of the text are not kept. *)
Theorem text_that_fits_is_one_chunk (content : str) (m : Z) :
  content <> [] -> len content <= m ->
  split_content_to_chunks content m = Ok [join (s " ") (split content)].
Proof.
  intros Hne Hle.
  assert (Hm : 0 < m).
  { unfold len in Hle. destruct content; [congruence|cbn [length] in Hle; lia]. }
  destruct (split_content_to_chunks_blocks Hne Hm) as (Hres & Hcat & _).
  cbv zeta in Hres, Hcat.
  rewrite (one_message content m Hne Hle) in Hres, Hcat.
  change (range 1) with [0] in Hres, Hcat.
  cbn [cut concat map] in Hres, Hcat. rewrite app_nil_r in Hcat.
  rewrite Hcat in Hres. exact Hres.
Qed.

Lemma text_that_fits_is_one_chunk_witness :
  split_content_to_chunks ["a"; "010"; "010"; " "; "b"]%char 10
  = Ok [["a"; " "; "b"]%char].
Proof.
  apply (text_that_fits_is_one_chunk ["a"; "010"; "010"; " "; "b"]%char 10).
  - discriminate.
  - vm_compute. discriminate.
Defined.

Lemma cut_app words b e ixs1 ixs2 idx :
  cut words b e (ixs1 ++ ixs2) idx
  = cut words b e ixs1 idx
    ++ cut words b e ixs2 (idx + zsum (map (words_in_message b e) ixs1)).
Proof.
  revert idx. induction ixs1 as [|i ixs1 IH]; intro idx.
  - cbn [app cut map zsum]. rewrite Z.add_0_r. reflexivity.
  - cbn [app cut map zsum]. cbv zeta. rewrite IH, Z.add_assoc. reflexivity.
Qed.

(** Past the words every message is empty. *)
Lemma cut_tail words e ixs idx :
  0 <= idx -> Forall (fun i => e <= i) ixs ->
  cut words 0 e ixs idx = repeat [] (length ixs).
Proof.
  intros Hidx H. induction H as [|i ixs Hi _ IH]; [reflexivity|].
  cbn [cut length repeat]. cbv zeta. unfold words_in_message.
  destruct (Z.ltb_spec i e); [lia|].
  rewrite Z.add_0_r, (slice_empty words Hidx), IH. reflexivity.
Qed.

(** One word for each of the first messages. *)
Lemma cut_head (words : list str) e c :
  forall k, (k + c <= length words)%nat -> Z.of_nat (k + c) <= e ->
  cut words 0 e (map Z.of_nat (seq k c)) (Z.of_nat k)
  = map (fun w => [w]) (firstn c (skipn k words))
  /\ zsum (map (words_in_message 0 e) (map Z.of_nat (seq k c))) = Z.of_nat c.
Proof.
  induction c as [|c IH]; intros k Hk He; [split; reflexivity|].
  assert (H1 : words_in_message 0 e (Z.of_nat k) = 1).
  { unfold words_in_message. destruct (Z.ltb_spec (Z.of_nat k) e); lia. }
  cbn [seq map cut zsum]. cbv zeta. rewrite !H1.
  replace (Z.of_nat k + 1) with (Z.of_nat (S k)) by lia.
  destruct (IH (S k)) as [IH1 IH2]; [lia|lia|].
  rewrite IH1, IH2. split; [|lia].
  rewrite (slice_nat words (a := k) (b := S k)) by lia.
  replace (S k - k)%nat with 1%nat by lia.
  assert (Hs : (k < length words)%nat) by lia.
  destruct (skipn k words) as [|w rest] eqn:E.
  - apply (f_equal (@length _)) in E. rewrite length_skipn in E.
    cbn [length] in E. lia.
  - assert (E' : skipn (S k) words = rest).
    { change (S k) with (1 + k)%nat. rewrite <- skipn_skipn, E. reflexivity. }
    rewrite E'. reflexivity.
Qed.

Lemma join_singletons (ws : list str) :
  map (join (s " ")) (map (fun w => [w]) ws) = ws.
Proof. rewrite map_map. cbn [join]. apply map_id. Qed.

Lemma join_empties k :
  map (join (s " ")) (repeat (@nil str) k) = repeat [] k.
Proof. induction k; [reflexivity|]. cbn [repeat map join]. rewrite IHk. reflexivity. Qed.

(** X16: when the text has fewer words than the number of messages that
    its length asks for, the chunks are its words, one each, followed by
    empty chunks. *)
Theorem sparse_text_gives_empty_chunks (content : str) (m : Z) :
  content <> [] -> 0 < m ->
  let num_messages := (len content + m - 1) / m in
  let words := split content in
  len words < num_messages ->
  split_content_to_chunks content m
  = Ok (words ++ repeat [] (Z.to_nat (num_messages - len words))).
Proof.
  intros Hne Hm n words Hsparse.
  destruct (split_content_to_chunks_blocks Hne Hm) as (Hres & _ & _).
  cbv zeta in Hres. fold n words in Hres. rewrite Hres. f_equal.
  assert (Hw : 0 <= len words) by (unfold len; lia).
  rewrite (Z.div_small (len words) n), (Z.mod_small (len words) n) by lia.
  unfold range.
  replace (Z.to_nat n)
    with (length words + Z.to_nat (n - len words))%nat by (unfold len in *; lia).
  rewrite seq_app, map_app, cut_app, map_app. cbn [Nat.add].
  destruct (cut_head words (len words) (length words) 0) as [H1 H2];
    [lia|unfold len; lia|].
  change (Z.of_nat 0) with 0 in H1. rewrite H1, H2.
  cbn [skipn]. rewrite firstn_all, join_singletons.
  rewrite cut_tail.
  - rewrite length_map, length_seq, join_empties. reflexivity.
  - lia.
  - apply Forall_forall. intros i Hi. apply in_map_iff in Hi.
    destruct Hi as (j & <- & Hj). apply in_seq in Hj. unfold len. lia.
Qed.

Lemma sparse_text_gives_empty_chunks_witness :
  split_content_to_chunks (s "aaaaaaaaaaaa bbb") 4
  = Ok [s "aaaaaaaaaaaa"; s "bbb"; []; []].
Proof.
  apply (sparse_text_gives_empty_chunks (s "aaaaaaaaaaaa bbb") 4).
  - discriminate.
  - lia.
  - vm_compute. reflexivity.
Defined.

End ChunkEdges.

(** ** The replacement of characters *)

Section Replacements.

Import Uni.

Lemma replace_one_char k v x :
  replace x [k] [v] = map (fun a => if N.eqb k a then v else a) x.
Proof.
  unfold replace. induction x as [|a x IH]; [reflexivity|].
  cbn [replace_go startswith map length Nat.sub].
  rewrite andb_true_r. destruct (N.eqb k a); cbn [app]; rewrite IH; reflexivity.
Qed.

Lemma replace_table_chars table text :
  fold_left (fun text '(unicode_char, replacement) =>
               replace text [unicode_char] [replacement]) table text
  = map (fun c => fold_left step_char table c) text.
Proof.
  revert text. induction table as [|[k v] table IH]; intro text.
  - cbn [fold_left]. rewrite map_id. reflexivity.
  - cbn [fold_left]. rewrite IH, replace_one_char, map_map. reflexivity.
Qed.

Lemma step_absent table c :
  is_key table c = false -> fold_left step_char table c = c.
Proof.
  induction table as [|kv table IH]; intro H; [reflexivity|].
  cbn [is_key existsb] in H. apply orb_false_iff in H. destruct H as [H1 H2].
  cbn [fold_left]. unfold step_char at 2. rewrite H1. apply IH. exact H2.
Qed.

Lemma lookup_absent table c : is_key table c = false -> lookup table c = c.
Proof.
  unfold lookup. intro H.
  destruct (List.find (fun kv => N.eqb (fst kv) c) table) as [kv|] eqn:E;
    [|reflexivity].
  apply find_some in E. destruct E as [Hin Hk].
  assert (is_key table c = true) by (apply existsb_exists; exists kv; auto).
  congruence.
Qed.

(** Without chains the loop gives what the dictionary gives. *)
Lemma step_lookup table :
  no_chain table = true ->
  forall c, fold_left step_char table c = lookup table c.
Proof.
  induction table as [|kv table IH]; intros H c; [reflexivity|].
  cbn [no_chain] in H. apply andb_true_iff in H. destruct H as [Hv Hn].
  apply negb_true_iff in Hv.
  cbn [fold_left]. unfold step_char at 2. unfold lookup. cbn [List.find].
  destruct (N.eqb (fst kv) c).
  - apply step_absent. exact Hv.
  - apply (IH Hn c).
Qed.

Lemma replacements_no_chain : no_chain replacements = true.
Proof. vm_compute. reflexivity. Qed.

Lemma replace_unicode_chars_map (text : ustr) :
  replace_unicode_chars text = map substitute text.
Proof.
  unfold replace_unicode_chars. rewrite replace_table_chars.
  apply map_ext. intro c. apply (step_lookup _ replacements_no_chain).
Qed.

(** X17: the loop of replacements amounts to one substitution, character
    by character: every character that is a key of the dictionary is
    replaced by its value, every other character is kept, and the text
    keeps its length. *)
Theorem replace_unicode_chars_pointwise (text : ustr) :
  replace_unicode_chars text = map substitute text
  /\ length (replace_unicode_chars text) = length text.
Proof.
  split; [apply replace_unicode_chars_map|].
  rewrite replace_unicode_chars_map. apply length_map.
Qed.

Lemma substitute_cases c :
  (replaced c = false /\ substitute c = c)
  \/ In (c, substitute c) replacements.
Proof.
  unfold substitute, lookup, replaced.
  destruct (List.find (fun kv => N.eqb (fst kv) c) replacements) as [kv|] eqn:E.
  - right. apply find_some in E. destruct E as [Hin Hk].
    apply N.eqb_eq in Hk. subst c. destruct kv. exact Hin.
  - left. split; [|reflexivity].
    destruct (is_key replacements c) eqn:K; [|reflexivity].
    apply existsb_exists in K. destruct K as (kv & Hin & Hk).
    rewrite (find_none _ _ E kv Hin) in Hk. discriminate Hk.
Qed.

Lemma values_not_replaced :
  forallb (fun kv => N.eqb (fst kv) 0x301 || negb (replaced (snd kv)))
          replacements = true.
Proof. vm_compute. reflexivity. Qed.

Lemma values_grave_or_not_replaced :
  forallb (fun kv => negb (replaced (snd kv)) || N.eqb (snd kv) 0x60)
          replacements = true.
Proof. vm_compute. reflexivity. Qed.

(** X18: the result holds none of the characters that the dictionary
    replaces, but for the grave accent U+0060, which is what the
    combining acute accent U+0301 becomes after the grave accents of the
    text have been replaced. *)
Theorem replaced_characters_are_gone (text : ustr) :
  forallb (fun c => negb (replaced c) || N.eqb c 0x60)
          (replace_unicode_chars text) = true.
Proof.
  rewrite replace_unicode_chars_map.
  apply forallb_forall. intros d Hd. apply in_map_iff in Hd.
  destruct Hd as (c & <- & _).
  destruct (substitute_cases c) as [[Hk ->]|Hin].
  - rewrite Hk. reflexivity.
  - pose proof values_grave_or_not_replaced as H.
    rewrite forallb_forall in H. exact (H _ Hin).
Qed.

Lemma substitute_twice c : c <> 0x301%N -> substitute (substitute c) = substitute c.
Proof.
  intro Hc. destruct (substitute_cases c) as [[Hk ->]|Hin].
  - apply lookup_absent. exact Hk.
  - pose proof values_not_replaced as H. rewrite forallb_forall in H.
    specialize (H _ Hin). cbn [fst snd] in H.
    apply orb_true_iff in H. destruct H as [H|H].
    + apply N.eqb_eq in H. contradiction.
    + apply negb_true_iff in H. apply lookup_absent. exact H.
Qed.

(** X19: replacing twice gives the same as replacing once exactly for
    the texts without a combining acute accent U+0301: the first pass
    turns it into a grave accent, the second into an apostrophe. *)
Theorem replace_unicode_chars_idempotent_iff (text : ustr) :
  replace_unicode_chars (replace_unicode_chars text) = replace_unicode_chars text
  <-> existsb (N.eqb 0x301) text = false.
Proof.
  rewrite (replace_unicode_chars_map (replace_unicode_chars text)).
  rewrite (replace_unicode_chars_map text), map_map. split.
  - intro H. destruct (existsb (N.eqb 0x301) text) eqn:E; [|reflexivity].
    apply existsb_exists in E. destruct E as (c & Hc & Heq).
    apply N.eqb_eq in Heq. subst c.
    assert (Hx : substitute (substitute 0x301) = substitute 0x301).
    { revert Hc. generalize 0x301%N. clear -H.
      induction text as [|a text IH]; intros c Hc; [destruct Hc|].
      cbn [map] in H. injection H as H1 H2.
      destruct Hc as [->|Hc]; [exact H1|apply (IH H2 c Hc)]. }
    vm_compute in Hx. discriminate Hx.
  - intro H. apply map_ext_in. intros c Hc. apply substitute_twice.
    intros ->. assert (existsb (N.eqb 0x301) text = true).
    { apply existsb_exists. exists 0x301%N. split; [exact Hc|reflexivity]. }
    congruence.
Qed.

End Replacements.

(** ** Ingesting the cache *)

Section Ingest.

Import Py.

Variable get_file_text : str -> bytes -> str.

Lemma chunks_of_empty_text :
  split_content_to_chunks [] 8192 = Raise ZeroDivisionError.
Proof. reflexivity. Qed.

Lemma chunks_of_text (content : str) :
  content <> [] -> exists chunks, split_content_to_chunks content 8192 = Ok chunks.
Proof.
  intro Hne.
  destruct (@split_content_to_chunks_blocks content 8192 Hne ltac:(lia))
    as (Hres & _).
  cbv zeta in Hres. eexists. exact Hres.
Qed.

Lemma create_messages_no_clear chunks file_id next_uuid :
  ~ In clear_cache (create_messages chunks file_id next_uuid).
Proof.
  revert next_uuid. induction chunks as [|c chunks IH]; intros n H; [exact H|].
  cbn [create_messages] in H. destruct H as [H|H]; [discriminate H|].
  exact (IH _ H).
Qed.

Lemma has_text_spec f :
  has_text get_file_text f = true
  <-> get_file_text (cached_name f) (cached_content f) <> [].
Proof. unfold has_text. apply nonempty_spec. Qed.

Lemma ingest_files_cleared files :
  forall next_uuid,
    In clear_cache (ingest_files get_file_text files next_uuid)
    <-> forallb (has_text get_file_text) files = true.
Proof.
  induction files as [|f files IH]; intro n.
  - cbn [ingest_files forallb]. split; [reflexivity|]. intros _. left. reflexivity.
  - cbn [ingest_files forallb]. cbv zeta.
    destruct (has_text get_file_text f) eqn:Ht; cbn [andb].
    + apply has_text_spec in Ht. destruct (chunks_of_text _ Ht) as [chunks ->].
      rewrite <- (IH (S n + length chunks)%nat). split.
      * intros [H|H]; [discriminate H|]. apply in_app_iff in H.
        destruct H as [H|H]; [|exact H].
        exfalso. exact (create_messages_no_clear _ _ _ H).
      * intro H. right. apply in_app_iff. right. exact H.
    + unfold has_text in Ht.
      destruct (get_file_text (cached_name f) (cached_content f));
        [|discriminate Ht].
      rewrite chunks_of_empty_text. split; [|discriminate].
      intros [H|[H|[]]]; discriminate H.
Qed.

(** X20: [ingest_cache] clears the cache exactly when the directory
    exists and none of its files has an empty text. *)
Theorem cache_cleared_iff (listing : option (list cached_file)) :
  In clear_cache (ingest_cache get_file_text listing)
  <-> exists files,
        listing = Some files /\ forallb (has_text get_file_text) files = true.
Proof.
  destruct listing as [files|]; cbn [ingest_cache].
  - rewrite ingest_files_cleared. split.
    + intro H. exists files. split; [reflexivity|exact H].
    + intros (files' & [= <-] & H). exact H.
  - split.
    + intros [H|[]]. discriminate H.
    + intros (files & H & _). discriminate H.
Qed.

Lemma ingest_files_app before :
  forallb (has_text get_file_text) before = true ->
  forall next_uuid, exists calls next_uuid',
    forall rest,
      ingest_files get_file_text (before ++ rest) next_uuid
      = calls ++ ingest_files get_file_text rest next_uuid'.
Proof.
  induction before as [|f before IH]; intros H n.
  - exists [], n. intro rest. reflexivity.
  - cbn [forallb] in H. apply andb_true_iff in H. destruct H as [Ht H].
    apply has_text_spec in Ht. destruct (chunks_of_text _ Ht) as [chunks Hc].
    destruct (IH H (S n + length chunks)%nat) as (calls & n' & Hcalls).
    exists (create_file (cached_name f) (cached_content f) (cached_size f) n
            :: create_messages chunks n (S n) ++ calls), n'.
    intro rest. cbn [app ingest_files]. cbv zeta. rewrite Hc, Hcalls.
    rewrite <- app_assoc. reflexivity.
Qed.

End Ingest.

(** X21: a file with an empty text stops the ingestion.  The calls are
    those for the files before it, the creation of the file itself and
    the printing of the [ZeroDivisionError] that the chunk splitter
    raises: no message is created for it, the files after it are not
    read, and the cache is not cleared. *)
Theorem ingest_stops_at_empty_file
    (get_file_text : Py.str -> bytes -> Py.str)
    (before after : list cached_file) (f : cached_file) :
  forallb (has_text get_file_text) before = true ->
  has_text get_file_text f = false ->
  exists calls file_id,
    ingest_cache get_file_text (Some before) = calls ++ [clear_cache]
    /\ ingest_cache get_file_text (Some (before ++ f :: after))
       = calls ++ [ create_file (cached_name f) (cached_content f)
                                (cached_size f) file_id;
                    print_error Py.ZeroDivisionError ].
Proof.
  intros Hb Hf.
  destruct (ingest_files_app get_file_text before Hb 0) as (calls & n & H).
  exists calls, n. cbn [ingest_cache]. split.
  - rewrite <- (app_nil_r before) at 1. rewrite H. reflexivity.
  - rewrite H. cbn [ingest_files]. cbv zeta.
    unfold has_text in Hf.
    destruct (get_file_text (cached_name f) (cached_content f));
      [|discriminate Hf].
    rewrite chunks_of_empty_text. reflexivity.
Qed.

Lemma ingest_stops_at_empty_file_witness :
  exists calls file_id,
    ingest_cache latin1_text
      (Some [ {| cached_name := Py.s "a.txt"; cached_size := 2;
                 cached_content := [Byte.x68; Byte.x69] |} ])
    = calls ++ [clear_cache]
    /\ ingest_cache latin1_text
         (Some ([ {| cached_name := Py.s "a.txt"; cached_size := 2;
                     cached_content := [Byte.x68; Byte.x69] |} ]
                ++ {| cached_name := Py.s "empty.txt"; cached_size := 0;
                      cached_content := [] |}
                :: [ {| cached_name := Py.s "b.txt"; cached_size := 2;
                        cached_content := [Byte.x68; Byte.x69] |} ]))
       = calls ++ [ create_file (Py.s "empty.txt") [] 0 file_id;
                    print_error Py.ZeroDivisionError ].
Proof.
  apply (ingest_stops_at_empty_file latin1_text
           [ {| cached_name := Py.s "a.txt"; cached_size := 2;
                cached_content := [Byte.x68; Byte.x69] |} ]
           [ {| cached_name := Py.s "b.txt"; cached_size := 2;
                cached_content := [Byte.x68; Byte.x69] |} ]
           {| cached_name := Py.s "empty.txt"; cached_size := 0;
              cached_content := [] |}).
  - reflexivity.
  - reflexivity.
Defined.

(** ** The clean-up keeps the words *)

Section KeptWords.

Import Py.

Lemma split_go_app_space a c b :
  isspace c = true ->
  forall cur, split_go cur (a ++ c :: b) = split_go cur a ++ split b.
Proof.
  intro Hc. induction a as [|d a IH]; intro cur.
  - cbn [app split_go]. rewrite Hc. destruct cur; reflexivity.
  - cbn [app split_go]. destruct (isspace d).
    + destruct cur; rewrite IH; reflexivity.
    + apply IH.
Qed.

Lemma split_leading p b : blank p -> split (p ++ b) = split b.
Proof.
  induction 1 as [|c p Hc _ IH]; [reflexivity|].
  unfold split. cbn [app split_go]. rewrite Hc. exact IH.
Qed.

Lemma split_blank p : blank p -> split p = [].
Proof. intro H. rewrite <- (app_nil_r p). apply (split_leading p [] H). Qed.

Lemma split_app_blank a sep b :
  blank sep -> sep <> [] -> split (a ++ sep ++ b) = split a ++ split b.
Proof.
  intros Hs Hne. destruct Hs as [|c sep Hc Hs]; [congruence|].
  cbn [app]. unfold split at 1. rewrite (split_go_app_space a c _ Hc).
  rewrite (split_leading sep b Hs). reflexivity.
Qed.

Lemma split_trailing a p : blank p -> split (a ++ p) = split a.
Proof.
  intro H. destruct p as [|c p]; [rewrite app_nil_r; reflexivity|].
  rewrite <- (app_nil_r (c :: p)).
  rewrite (split_app_blank a (c :: p) [] H) by discriminate.
  apply app_nil_r.
Qed.

Lemma lstrip_blank x :
  exists p, x = p ++ lstrip_by isspace x /\ blank p.
Proof.
  induction x as [|c x IH].
  - exists []. split; [reflexivity|constructor].
  - cbn [lstrip_by]. destruct (isspace c) eqn:Hc.
    + destruct IH as (p & Hp & Hb). exists (c :: p). split.
      * cbn [app]. rewrite <- Hp. reflexivity.
      * constructor; assumption.
    + exists []. split; [reflexivity|constructor].
Qed.

Lemma split_lstrip x : split (lstrip_by isspace x) = split x.
Proof.
  destruct (lstrip_blank x) as (p & Hp & Hb).
  rewrite Hp at 2. symmetry. apply split_leading. exact Hb.
Qed.

Lemma split_rstrip x : split (rstrip_by isspace x) = split x.
Proof.
  unfold rstrip_by. destruct (lstrip_blank (rev x)) as (p & Hp & Hb).
  apply (f_equal (@rev ascii)) in Hp.
  rewrite rev_involutive, rev_app_distr in Hp.
  rewrite Hp at 2. symmetry. apply split_trailing.
  apply Forall_rev. exact Hb.
Qed.

Lemma split_strip x : split (strip x) = split x.
Proof. unfold strip, strip_by. rewrite split_rstrip. apply split_lstrip. Qed.

Lemma split_join_blank sep parts :
  blank sep -> sep <> [] ->
  split (join sep parts) = concat (map split parts).
Proof.
  intros Hs Hne. induction parts as [|p parts IH]; [reflexivity|].
  destruct parts as [|q parts].
  - cbn [join map concat]. rewrite app_nil_r. reflexivity.
  - change (join sep (p :: q :: parts)) with (p ++ sep ++ join sep (q :: parts)).
    rewrite (split_app_blank p sep _ Hs Hne), IH. reflexivity.
Qed.

Lemma split_sep_go_nonempty sep k x : split_sep_go sep k x <> [].
Proof.
  revert k. induction x as [|c x IH]; intro k; [discriminate|].
  cbn [split_sep_go]. destruct k as [|k]; [|apply IH].
  destruct (startswith (c :: x) sep); [discriminate|].
  unfold push. destruct (split_sep_go sep 0 x); discriminate.
Qed.

Lemma join_cons_nonempty sep p rest :
  rest <> [] -> join sep (p :: rest) = p ++ sep ++ join sep rest.
Proof. destruct rest; [congruence|reflexivity]. Qed.

Lemma join_push sep c ps :
  ps <> [] -> join sep (push c ps) = c :: join sep ps.
Proof.
  destruct ps as [|p ps]; [congruence|]. intros _. cbn [push].
  destruct ps; reflexivity.
Qed.

(** Joining the pieces of a split with the separator gives the text
    back. *)
Lemma join_split_sep_go sep x :
  sep <> [] ->
  forall k, join sep (split_sep_go sep k x) = skipn k x.
Proof.
  intro Hne. induction x as [|c x IH]; intro k.
  - cbn [split_sep_go join]. destruct k; reflexivity.
  - cbn [split_sep_go]. destruct k as [|k]; [|apply IH].
    destruct (startswith (c :: x) sep) eqn:E.
    + rewrite join_cons_nonempty by apply split_sep_go_nonempty.
      rewrite IH. apply startswith_spec in E. destruct E as [r Hr].
      destruct sep as [|d sep]; [congruence|].
      cbn [app] in Hr. injection Hr as <- ->.
      cbn [length Nat.sub app skipn]. rewrite Nat.sub_0_r.
      rewrite skipn_app, skipn_all, Nat.sub_diag. reflexivity.
    + rewrite join_push by apply split_sep_go_nonempty.
      rewrite IH. reflexivity.
Qed.

Lemma join_split_sep sep x : sep <> [] -> join sep (split_sep x sep) = x.
Proof. intro H. exact (join_split_sep_go sep x H 0). Qed.

Lemma splitlines_go_words x :
  forall cur cr, (cr = true -> cur = []) ->
  concat (map split (splitlines_go cur cr x)) = split (rev cur ++ x).
Proof.
  induction x as [|c x IH]; intros cur cr Hcr.
  - cbn [splitlines_go]. destruct cur as [|d cur]; [reflexivity|].
    cbn [map concat]. rewrite !app_nil_r. reflexivity.
  - cbn [splitlines_go].
    destruct (cr && (code c =? 10)%N) eqn:E1.
    + apply andb_true_iff in E1. destruct E1 as [-> E1].
      rewrite (Hcr eq_refl). rewrite (IH [] false) by discriminate.
      cbn [rev app]. symmetry.
      apply (split_leading [c] x). constructor; [|constructor].
      apply linebreak_isspace. unfold islinebreak.
      apply N.eqb_eq in E1. rewrite E1. reflexivity.
    + destruct (islinebreak c) eqn:E2.
      * cbn [map concat]. rewrite (IH [] _) by reflexivity.
        cbn [rev app]. unfold split at 3.
        rewrite (split_go_app_space (rev cur) c x (linebreak_isspace c E2)).
        reflexivity.
      * rewrite (IH (c :: cur) false) by discriminate.
        cbn [rev]. rewrite <- app_assoc. reflexivity.
Qed.

Lemma split_splitlines x : concat (map split (splitlines x)) = split x.
Proof. apply (splitlines_go_words x [] false). discriminate. Qed.

Lemma concat_map_flat_map (A B C : Type) (f : B -> list C) (g : A -> list B) l :
  concat (map f (flat_map g l)) = concat (map (fun a => concat (map f (g a))) l).
Proof.
  induction l as [|a l IH]; [reflexivity|].
  cbn [flat_map map concat]. rewrite map_app, concat_app, IH. reflexivity.
Qed.

Lemma concat_split_filter (l : list str) :
  concat (map split (filter nonempty l)) = concat (map split l).
Proof.
  induction l as [|x l IH]; [reflexivity|]. cbn [filter].
  destruct x as [|c x]; cbn [nonempty map concat]; rewrite IH; reflexivity.
Qed.

Lemma sep2_blank : blank (s "  ").
Proof. repeat constructor. Qed.

Lemma sep1_blank : blank (s " ").
Proof. repeat constructor. Qed.

Lemma line_words line :
  concat (map split (map strip (split_sep line (s "  ")))) = split line.
Proof.
  rewrite map_map, (map_ext _ split split_strip).
  rewrite <- (split_join_blank (s "  ")) by (apply sep2_blank || discriminate).
  rewrite join_split_sep by discriminate. reflexivity.
Qed.

(** X22: the clean-up keeps the words of the text: what it takes out
    and what it puts in is whitespace. *)
Theorem clean_up_whitespace_keeps_words (text : str) :
  split (clean_up_whitespace text) = split text.
Proof.
  unfold clean_up_whitespace. cbv zeta.
  rewrite (split_join_blank (s " ")) by (apply sep1_blank || discriminate).
  rewrite concat_split_filter, concat_map_flat_map.
  rewrite (map_ext _ split line_words).
  rewrite map_map, (map_ext _ split split_strip).
  apply split_splitlines.
Qed.

End KeptWords.
